(** * Lazy C (VS Code extension): the text-analysis core of [src/extension.ts]

    A shallow embedding of the heuristics of the extension: the catalog
    tables, the semicolon heuristic, header inference, prototype synthesis,
    the diagnostic scanner and the reference lookup, together with the
    parts of the JavaScript runtime they stand on (string methods, regular
    expressions, property lookup on object literals). *)

From Stdlib Require Import Strings.String Strings.Ascii.
From Stdlib Require Import List NArith ZArith Lia Bool Arith.
From Stdlib Require Import Sorting.Sorted Sorting.Permutation.
Import ListNotations.


(* ================================================================== *)
(** * JavaScript strings

    A JavaScript string is a sequence of UTF-16 code units.  A code unit
    is an [N]; a string is a list of them.  [lit] turns a Rocq string
    literal into the JavaScript string with the same (Latin-1) code
    units. *)

Module JS.

Definition char := N.
Definition jstring := list char.

Definition lit (s : string) : jstring :=
  map N_of_ascii (list_ascii_of_string s).
Arguments lit s%_string.

Definition NL : char := 10%N.     (* '\n' *)
Definition DQ : char := 34%N.     (* the double quote *)

Definition char_eqb (a b : char) : bool := N.eqb a b.

Fixpoint str_eqb (a b : jstring) : bool :=
  match a, b with
  | [], [] => true
  | x :: a', y :: b' => char_eqb x y && str_eqb a' b'
  | _, _ => false
  end.

(** ECMAScript WhiteSpace and LineTerminator code points: what
    [String.prototype.trim] strips and what [\s] matches. *)
Definition isWhiteSpace (c : char) : bool :=
  ((9 <=? c) && (c <=? 13) ||
   (c =? 32) || (c =? 160) || (c =? 5760) ||
   (8192 <=? c) && (c <=? 8202) ||
   (c =? 8232) || (c =? 8233) || (c =? 8239) || (c =? 8287) ||
   (c =? 12288) || (c =? 65279))%N.

(** [\w]: the characters [A-Za-z0-9_]. *)
Definition isWordChar (c : char) : bool :=
  ((97 <=? c) && (c <=? 122) ||
   (65 <=? c) && (c <=? 90) ||
   (48 <=? c) && (c <=? 57) ||
   (c =? 95))%N.

(** Line terminators, the characters [.] does not match. *)
Definition isLineTerminator (c : char) : bool :=
  ((c =? 10) || (c =? 13) || (c =? 8232) || (c =? 8233))%N.

Fixpoint trimStart (s : jstring) : jstring :=
  match s with
  | c :: s' => if isWhiteSpace c then trimStart s' else s
  | [] => []
  end.

Definition trimEnd (s : jstring) : jstring := rev (trimStart (rev s)).

Definition trim (s : jstring) : jstring := trimEnd (trimStart s).

Fixpoint startsWith (s p : jstring) {struct p} : bool :=
  match p, s with
  | [], _ => true
  | x :: p', y :: s' => char_eqb x y && startsWith s' p'
  | _ :: _, [] => false
  end.

Definition endsWith (s p : jstring) : bool := startsWith (rev s) (rev p).

(** [s.indexOf(p)]: the least index at which [p] occurs in [s], or -1. *)
Fixpoint indexOfFrom (s p : jstring) (i : Z) : Z :=
  if startsWith s p then i
  else match s with
       | [] => (-1)%Z
       | _ :: s' => indexOfFrom s' p (i + 1)%Z
       end.

Definition indexOf (s p : jstring) : Z := indexOfFrom s p 0%Z.

Fixpoint includes (s p : jstring) : bool :=
  startsWith s p ||
  match s with
  | [] => false
  | _ :: s' => includes s' p
  end.

(** [s.substring(0, n)] for a non-negative index [n]. *)
Definition substring0 (s : jstring) (n : Z) : jstring := firstn (Z.to_nat n) s.

(** [s.substring(a, b)] / [s.slice(a, b)] for [0 <= a <= b]. *)
Definition substr (s : jstring) (a b : nat) : jstring := firstn (b - a) (skipn a s).

(** [s.split('\n')]: never empty; the pieces hold no ['\n']. *)
Fixpoint split (sep : char) (s : jstring) : list jstring :=
  match s with
  | [] => [[]]
  | c :: s' =>
      if char_eqb c sep then [] :: split sep s'
      else match split sep s' with
           | l :: ls => (c :: l) :: ls
           | [] => [[c]]
           end
  end.

(** [a.join('\n')] *)
Fixpoint join (sep : jstring) (ls : list jstring) : jstring :=
  match ls with
  | [] => []
  | [l] => l
  | l :: ls' => l ++ sep ++ join sep ls'
  end.

(** [a.slice(from, to)] on arrays, for non-negative indices; an end past
    the array is clamped, an end before the start gives the empty array. *)
Definition slice {A} (l : list A) (from to : nat) : list A :=
  firstn (to - from) (skipn from l).

(** ** [String.prototype.toLowerCase]

    The string is read as code points (a lead surrogate followed by a
    trail surrogate is one code point), every code point is mapped by
    the Unicode default case conversion, and the result is written back
    as code units.  The conversion uses the lower-case mappings of the
    Unicode Character Database (version 14.0), the two entries of the
    special casing table that do not depend on a language (U+0130 and
    the final sigma) and, for the final sigma, the properties Cased and
    Case_Ignorable. *)

(** Lower-case mappings: [(first, last, step, target)] maps [first],
    [first + step], ... up to [last] to [target], [target + step], ...;
    the entries are in increasing order and do not overlap. *)
Definition LOWERCASE_MAPPING : list (N * N * N * N) :=
  [
    (65, 90, 1, 97); (192, 214, 1, 224); (216, 222, 1, 248); (256, 302, 2, 257);
    (306, 310, 2, 307); (313, 327, 2, 314); (330, 374, 2, 331); (376, 376, 1, 255);
    (377, 381, 2, 378); (385, 385, 1, 595); (386, 388, 2, 387); (390, 390, 1, 596);
    (391, 391, 1, 392); (393, 394, 1, 598); (395, 395, 1, 396); (398, 398, 1, 477);
    (399, 399, 1, 601); (400, 400, 1, 603); (401, 401, 1, 402); (403, 403, 1, 608);
    (404, 404, 1, 611); (406, 406, 1, 617); (407, 407, 1, 616); (408, 408, 1, 409);
    (412, 412, 1, 623); (413, 413, 1, 626); (415, 415, 1, 629); (416, 420, 2, 417);
    (422, 422, 1, 640); (423, 423, 1, 424); (425, 425, 1, 643); (428, 428, 1, 429);
    (430, 430, 1, 648); (431, 431, 1, 432); (433, 434, 1, 650); (435, 437, 2, 436);
    (439, 439, 1, 658); (440, 440, 1, 441); (444, 444, 1, 445); (452, 452, 1, 454);
    (453, 453, 1, 454); (455, 455, 1, 457); (456, 456, 1, 457); (458, 458, 1, 460);
    (459, 475, 2, 460); (478, 494, 2, 479); (497, 497, 1, 499); (498, 500, 2, 499);
    (502, 502, 1, 405); (503, 503, 1, 447); (504, 542, 2, 505); (544, 544, 1, 414);
    (546, 562, 2, 547); (570, 570, 1, 11365); (571, 571, 1, 572); (573, 573, 1, 410);
    (574, 574, 1, 11366); (577, 577, 1, 578); (579, 579, 1, 384); (580, 580, 1, 649);
    (581, 581, 1, 652); (582, 590, 2, 583); (880, 882, 2, 881); (886, 886, 1, 887);
    (895, 895, 1, 1011); (902, 902, 1, 940); (904, 906, 1, 941); (908, 908, 1, 972);
    (910, 911, 1, 973); (913, 929, 1, 945); (931, 939, 1, 963); (975, 975, 1, 983);
    (984, 1006, 2, 985); (1012, 1012, 1, 952); (1015, 1015, 1, 1016); (1017, 1017, 1, 1010);
    (1018, 1018, 1, 1019); (1021, 1023, 1, 891); (1024, 1039, 1, 1104); (1040, 1071, 1, 1072);
    (1120, 1152, 2, 1121); (1162, 1214, 2, 1163); (1216, 1216, 1, 1231); (1217, 1229, 2, 1218);
    (1232, 1326, 2, 1233); (1329, 1366, 1, 1377); (4256, 4293, 1, 11520); (4295, 4295, 1, 11559);
    (4301, 4301, 1, 11565); (5024, 5103, 1, 43888); (5104, 5109, 1, 5112); (7312, 7354, 1, 4304);
    (7357, 7359, 1, 4349); (7680, 7828, 2, 7681); (7838, 7838, 1, 223); (7840, 7934, 2, 7841);
    (7944, 7951, 1, 7936); (7960, 7965, 1, 7952); (7976, 7983, 1, 7968); (7992, 7999, 1, 7984);
    (8008, 8013, 1, 8000); (8025, 8031, 2, 8017); (8040, 8047, 1, 8032); (8072, 8079, 1, 8064);
    (8088, 8095, 1, 8080); (8104, 8111, 1, 8096); (8120, 8121, 1, 8112); (8122, 8123, 1, 8048);
    (8124, 8124, 1, 8115); (8136, 8139, 1, 8050); (8140, 8140, 1, 8131); (8152, 8153, 1, 8144);
    (8154, 8155, 1, 8054); (8168, 8169, 1, 8160); (8170, 8171, 1, 8058); (8172, 8172, 1, 8165);
    (8184, 8185, 1, 8056); (8186, 8187, 1, 8060); (8188, 8188, 1, 8179); (8486, 8486, 1, 969);
    (8490, 8490, 1, 107); (8491, 8491, 1, 229); (8498, 8498, 1, 8526); (8544, 8559, 1, 8560);
    (8579, 8579, 1, 8580); (9398, 9423, 1, 9424); (11264, 11311, 1, 11312); (11360, 11360, 1, 11361);
    (11362, 11362, 1, 619); (11363, 11363, 1, 7549); (11364, 11364, 1, 637); (11367, 11371, 2, 11368);
    (11373, 11373, 1, 593); (11374, 11374, 1, 625); (11375, 11375, 1, 592); (11376, 11376, 1, 594);
    (11378, 11378, 1, 11379); (11381, 11381, 1, 11382); (11390, 11391, 1, 575); (11392, 11490, 2, 11393);
    (11499, 11501, 2, 11500); (11506, 11506, 1, 11507); (42560, 42604, 2, 42561); (42624, 42650, 2, 42625);
    (42786, 42798, 2, 42787); (42802, 42862, 2, 42803); (42873, 42875, 2, 42874); (42877, 42877, 1, 7545);
    (42878, 42886, 2, 42879); (42891, 42891, 1, 42892); (42893, 42893, 1, 613); (42896, 42898, 2, 42897);
    (42902, 42920, 2, 42903); (42922, 42922, 1, 614); (42923, 42923, 1, 604); (42924, 42924, 1, 609);
    (42925, 42925, 1, 620); (42926, 42926, 1, 618); (42928, 42928, 1, 670); (42929, 42929, 1, 647);
    (42930, 42930, 1, 669); (42931, 42931, 1, 43859); (42932, 42946, 2, 42933); (42948, 42948, 1, 42900);
    (42949, 42949, 1, 642); (42950, 42950, 1, 7566); (42951, 42953, 2, 42952); (42960, 42960, 1, 42961);
    (42966, 42968, 2, 42967); (42997, 42997, 1, 42998); (65313, 65338, 1, 65345); (66560, 66599, 1, 66600);
    (66736, 66771, 1, 66776); (66928, 66938, 1, 66967); (66940, 66954, 1, 66979); (66956, 66962, 1, 66995);
    (66964, 66965, 1, 67003); (68736, 68786, 1, 68800); (71840, 71871, 1, 71872); (93760, 93791, 1, 93792);
    (125184, 125217, 1, 125218)
  ]%N.

(** The code points with the property Cased, as ranges in increasing
    order. *)
Definition CASED : list (N * N) :=
  [
    (65, 90); (97, 122); (170, 170); (181, 181); (186, 186); (192, 214);
    (216, 246); (248, 442); (444, 447); (452, 659); (661, 696); (704, 705);
    (736, 740); (837, 837); (880, 883); (886, 887); (890, 893); (895, 895);
    (902, 902); (904, 906); (908, 908); (910, 929); (931, 1013); (1015, 1153);
    (1162, 1327); (1329, 1366); (1376, 1416); (4256, 4293); (4295, 4295); (4301, 4301);
    (4304, 4346); (4349, 4351); (5024, 5109); (5112, 5117); (7296, 7304); (7312, 7354);
    (7357, 7359); (7424, 7615); (7680, 7957); (7960, 7965); (7968, 8005); (8008, 8013);
    (8016, 8023); (8025, 8025); (8027, 8027); (8029, 8029); (8031, 8061); (8064, 8116);
    (8118, 8124); (8126, 8126); (8130, 8132); (8134, 8140); (8144, 8147); (8150, 8155);
    (8160, 8172); (8178, 8180); (8182, 8188); (8305, 8305); (8319, 8319); (8336, 8348);
    (8450, 8450); (8455, 8455); (8458, 8467); (8469, 8469); (8473, 8477); (8484, 8484);
    (8486, 8486); (8488, 8488); (8490, 8493); (8495, 8500); (8505, 8505); (8508, 8511);
    (8517, 8521); (8526, 8526); (8544, 8575); (8579, 8580); (9398, 9449); (11264, 11492);
    (11499, 11502); (11506, 11507); (11520, 11557); (11559, 11559); (11565, 11565); (42560, 42605);
    (42624, 42653); (42786, 42887); (42891, 42894); (42896, 42954); (42960, 42961); (42963, 42963);
    (42965, 42969); (42997, 42998); (43000, 43002); (43824, 43866); (43868, 43880); (43888, 43967);
    (64256, 64262); (64275, 64279); (65313, 65338); (65345, 65370); (66560, 66639); (66736, 66771);
    (66776, 66811); (66928, 66938); (66940, 66954); (66956, 66962); (66964, 66965); (66967, 66977);
    (66979, 66993); (66995, 67001); (67003, 67004); (67456, 67456); (67459, 67461); (67463, 67504);
    (67506, 67514); (68736, 68786); (68800, 68850); (71840, 71903); (93760, 93823); (119808, 119892);
    (119894, 119964); (119966, 119967); (119970, 119970); (119973, 119974); (119977, 119980); (119982, 119993);
    (119995, 119995); (119997, 120003); (120005, 120069); (120071, 120074); (120077, 120084); (120086, 120092);
    (120094, 120121); (120123, 120126); (120128, 120132); (120134, 120134); (120138, 120144); (120146, 120485);
    (120488, 120512); (120514, 120538); (120540, 120570); (120572, 120596); (120598, 120628); (120630, 120654);
    (120656, 120686); (120688, 120712); (120714, 120744); (120746, 120770); (120772, 120779); (122624, 122633);
    (122635, 122654); (125184, 125251); (127280, 127305); (127312, 127337); (127344, 127369)
  ]%N.

(** The code points with the property Case_Ignorable, as ranges in
    increasing order. *)
Definition CASE_IGNORABLE : list (N * N) :=
  [
    (39, 39); (46, 46); (58, 58); (94, 94); (96, 96); (168, 168);
    (173, 173); (175, 175); (180, 180); (183, 184); (688, 879); (884, 885);
    (890, 890); (900, 901); (903, 903); (1155, 1161); (1369, 1369); (1375, 1375);
    (1425, 1469); (1471, 1471); (1473, 1474); (1476, 1477); (1479, 1479); (1524, 1524);
    (1536, 1541); (1552, 1562); (1564, 1564); (1600, 1600); (1611, 1631); (1648, 1648);
    (1750, 1757); (1759, 1768); (1770, 1773); (1807, 1807); (1809, 1809); (1840, 1866);
    (1958, 1968); (2027, 2037); (2042, 2042); (2045, 2045); (2070, 2093); (2137, 2139);
    (2184, 2184); (2192, 2193); (2200, 2207); (2249, 2306); (2362, 2362); (2364, 2364);
    (2369, 2376); (2381, 2381); (2385, 2391); (2402, 2403); (2417, 2417); (2433, 2433);
    (2492, 2492); (2497, 2500); (2509, 2509); (2530, 2531); (2558, 2558); (2561, 2562);
    (2620, 2620); (2625, 2626); (2631, 2632); (2635, 2637); (2641, 2641); (2672, 2673);
    (2677, 2677); (2689, 2690); (2748, 2748); (2753, 2757); (2759, 2760); (2765, 2765);
    (2786, 2787); (2810, 2815); (2817, 2817); (2876, 2876); (2879, 2879); (2881, 2884);
    (2893, 2893); (2901, 2902); (2914, 2915); (2946, 2946); (3008, 3008); (3021, 3021);
    (3072, 3072); (3076, 3076); (3132, 3132); (3134, 3136); (3142, 3144); (3146, 3149);
    (3157, 3158); (3170, 3171); (3201, 3201); (3260, 3260); (3263, 3263); (3270, 3270);
    (3276, 3277); (3298, 3299); (3328, 3329); (3387, 3388); (3393, 3396); (3405, 3405);
    (3426, 3427); (3457, 3457); (3530, 3530); (3538, 3540); (3542, 3542); (3633, 3633);
    (3636, 3642); (3654, 3662); (3761, 3761); (3764, 3772); (3782, 3782); (3784, 3789);
    (3864, 3865); (3893, 3893); (3895, 3895); (3897, 3897); (3953, 3966); (3968, 3972);
    (3974, 3975); (3981, 3991); (3993, 4028); (4038, 4038); (4141, 4144); (4146, 4151);
    (4153, 4154); (4157, 4158); (4184, 4185); (4190, 4192); (4209, 4212); (4226, 4226);
    (4229, 4230); (4237, 4237); (4253, 4253); (4348, 4348); (4957, 4959); (5906, 5908);
    (5938, 5939); (5970, 5971); (6002, 6003); (6068, 6069); (6071, 6077); (6086, 6086);
    (6089, 6099); (6103, 6103); (6109, 6109); (6155, 6159); (6211, 6211); (6277, 6278);
    (6313, 6313); (6432, 6434); (6439, 6440); (6450, 6450); (6457, 6459); (6679, 6680);
    (6683, 6683); (6742, 6742); (6744, 6750); (6752, 6752); (6754, 6754); (6757, 6764);
    (6771, 6780); (6783, 6783); (6823, 6823); (6832, 6862); (6912, 6915); (6964, 6964);
    (6966, 6970); (6972, 6972); (6978, 6978); (7019, 7027); (7040, 7041); (7074, 7077);
    (7080, 7081); (7083, 7085); (7142, 7142); (7144, 7145); (7149, 7149); (7151, 7153);
    (7212, 7219); (7222, 7223); (7288, 7293); (7376, 7378); (7380, 7392); (7394, 7400);
    (7405, 7405); (7412, 7412); (7416, 7417); (7468, 7530); (7544, 7544); (7579, 7679);
    (8125, 8125); (8127, 8129); (8141, 8143); (8157, 8159); (8173, 8175); (8189, 8190);
    (8203, 8207); (8216, 8217); (8228, 8228); (8231, 8231); (8234, 8238); (8288, 8292);
    (8294, 8303); (8305, 8305); (8319, 8319); (8336, 8348); (8400, 8432); (11388, 11389);
    (11503, 11505); (11631, 11631); (11647, 11647); (11744, 11775); (11823, 11823); (12293, 12293);
    (12330, 12333); (12337, 12341); (12347, 12347); (12441, 12446); (12540, 12542); (40981, 40981);
    (42232, 42237); (42508, 42508); (42607, 42610); (42612, 42621); (42623, 42623); (42652, 42655);
    (42736, 42737); (42752, 42785); (42864, 42864); (42888, 42890); (42994, 42996); (43000, 43001);
    (43010, 43010); (43014, 43014); (43019, 43019); (43045, 43046); (43052, 43052); (43204, 43205);
    (43232, 43249); (43263, 43263); (43302, 43309); (43335, 43345); (43392, 43394); (43443, 43443);
    (43446, 43449); (43452, 43453); (43471, 43471); (43493, 43494); (43561, 43566); (43569, 43570);
    (43573, 43574); (43587, 43587); (43596, 43596); (43632, 43632); (43644, 43644); (43696, 43696);
    (43698, 43700); (43703, 43704); (43710, 43711); (43713, 43713); (43741, 43741); (43756, 43757);
    (43763, 43764); (43766, 43766); (43867, 43871); (43881, 43883); (44005, 44005); (44008, 44008);
    (44013, 44013); (64286, 64286); (64434, 64450); (65024, 65039); (65043, 65043); (65056, 65071);
    (65106, 65106); (65109, 65109); (65279, 65279); (65287, 65287); (65294, 65294); (65306, 65306);
    (65342, 65342); (65344, 65344); (65392, 65392); (65438, 65439); (65507, 65507); (65529, 65531);
    (66045, 66045); (66272, 66272); (66422, 66426); (67456, 67461); (67463, 67504); (67506, 67514);
    (68097, 68099); (68101, 68102); (68108, 68111); (68152, 68154); (68159, 68159); (68325, 68326);
    (68900, 68903); (69291, 69292); (69446, 69456); (69506, 69509); (69633, 69633); (69688, 69702);
    (69744, 69744); (69747, 69748); (69759, 69761); (69811, 69814); (69817, 69818); (69821, 69821);
    (69826, 69826); (69837, 69837); (69888, 69890); (69927, 69931); (69933, 69940); (70003, 70003);
    (70016, 70017); (70070, 70078); (70089, 70092); (70095, 70095); (70191, 70193); (70196, 70196);
    (70198, 70199); (70206, 70206); (70367, 70367); (70371, 70378); (70400, 70401); (70459, 70460);
    (70464, 70464); (70502, 70508); (70512, 70516); (70712, 70719); (70722, 70724); (70726, 70726);
    (70750, 70750); (70835, 70840); (70842, 70842); (70847, 70848); (70850, 70851); (71090, 71093);
    (71100, 71101); (71103, 71104); (71132, 71133); (71219, 71226); (71229, 71229); (71231, 71232);
    (71339, 71339); (71341, 71341); (71344, 71349); (71351, 71351); (71453, 71455); (71458, 71461);
    (71463, 71467); (71727, 71735); (71737, 71738); (71995, 71996); (71998, 71998); (72003, 72003);
    (72148, 72151); (72154, 72155); (72160, 72160); (72193, 72202); (72243, 72248); (72251, 72254);
    (72263, 72263); (72273, 72278); (72281, 72283); (72330, 72342); (72344, 72345); (72752, 72758);
    (72760, 72765); (72767, 72767); (72850, 72871); (72874, 72880); (72882, 72883); (72885, 72886);
    (73009, 73014); (73018, 73018); (73020, 73021); (73023, 73029); (73031, 73031); (73104, 73105);
    (73109, 73109); (73111, 73111); (73459, 73460); (78896, 78904); (92912, 92916); (92976, 92982);
    (92992, 92995); (94031, 94031); (94095, 94111); (94176, 94177); (94179, 94180); (110576, 110579);
    (110581, 110587); (110589, 110590); (113821, 113822); (113824, 113827); (118528, 118573); (118576, 118598);
    (119143, 119145); (119155, 119170); (119173, 119179); (119210, 119213); (119362, 119364); (121344, 121398);
    (121403, 121452); (121461, 121461); (121476, 121476); (121499, 121503); (121505, 121519); (122880, 122886);
    (122888, 122904); (122907, 122913); (122915, 122916); (122918, 122922); (123184, 123197); (123566, 123566);
    (123628, 123631); (125136, 125142); (125252, 125259); (127995, 127999); (917505, 917505); (917536, 917631);
    (917760, 917999)
  ]%N.

Fixpoint inRanges (ranges : list (N * N)) (c : N) : bool :=
  match ranges with
  | [] => false
  | (lo, hi) :: ranges' =>
      if (c <? lo)%N then false
      else if (c <=? hi)%N then true
      else inRanges ranges' c
  end.

Definition isCased (c : N) : bool := inRanges CASED c.
Definition isCaseIgnorable (c : N) : bool := inRanges CASE_IGNORABLE c.

Fixpoint lookupLower (table : list (N * N * N * N)) (c : N) : N :=
  match table with
  | [] => c
  | (lo, hi, step, target) :: table' =>
      if (c <? lo)%N then c
      else if (c <=? hi)%N
           then (if ((c - lo) mod step =? 0)%N then target + (c - lo) else c)%N
      else lookupLower table' c
  end.

(** The lower-case mapping of a code point that has one; the code point
    itself otherwise. *)
Definition simpleLower (c : N) : N := lookupLower LOWERCASE_MAPPING c.

Definition isLeadSurrogate (c : char) : bool := ((55296 <=? c) && (c <=? 56319))%N.
Definition isTrailSurrogate (c : char) : bool := ((56320 <=? c) && (c <=? 57343))%N.

(** The code point of a surrogate pair. *)
Definition surrogatePair (lead trail : char) : N :=
  (65536 + (lead - 55296) * 1024 + (trail - 56320))%N.

(** The code points of a string; a surrogate that has no partner is a
    code point of its own. *)
Fixpoint codePoints (s : jstring) : list N :=
  match s with
  | [] => []
  | c :: t =>
      match t with
      | d :: t' =>
          if isLeadSurrogate c && isTrailSurrogate d
          then surrogatePair c d :: codePoints t'
          else c :: codePoints t
      | [] => [c]
      end
  end.

(** The code units of a code point.  (A value above U+10FFFF, which is
    no code point and which [codePoints] yields for no sequence of
    16-bit code units, is left as it is.) *)
Definition codeUnits (c : N) : jstring :=
  if (c <? 65536)%N then [c]
  else if (c <=? 1114111)%N
       then [(55296 + (c - 65536) / 1024)%N; (56320 + (c - 65536) mod 1024)%N]
  else [c].

(** Whether [l] starts with any number of case-ignorable code points and
    then a cased letter. *)
Fixpoint followedByCasedLetter (l : list N) : bool :=
  match l with
  | [] => false
  | c :: l' => if isCaseIgnorable c then followedByCasedLetter l' else isCased c
  end.

(** The condition Final_Sigma: [before] holds the code points in front
    of the sigma, the nearest one first, [after] the ones behind it. *)
Definition isFinalSigma (before after : list N) : bool :=
  followedByCasedLetter before && negb (followedByCasedLetter after).

(** The lower case of the code point [c] that stands between [before]
    and [after]: the capital sigma U+03A3 becomes the final sigma U+03C2
    under the condition Final_Sigma and the sigma U+03C3 otherwise; the
    dotted capital I U+0130 becomes [i] and the combining dot U+0307;
    every other code point has its simple mapping. *)
Definition lowerCodePoint (before after : list N) (c : N) : list N :=
  if (c =? 931)%N then [if isFinalSigma before after then 962%N else 963%N]
  else if (c =? 304)%N then [105%N; 775%N]
  else [simpleLower c].

Fixpoint lowerFrom (before l : list N) : list N :=
  match l with
  | [] => []
  | c :: l' => lowerCodePoint before l' c ++ lowerFrom (c :: before) l'
  end.

Definition toLowerCase (s : jstring) : jstring :=
  flat_map codeUnits (lowerFrom [] (codePoints s)).

(** Lexicographic order on code units: the order of the default
    [Array.prototype.sort] comparison and of [<] on strings. *)
Fixpoint str_ltb (a b : jstring) : bool :=
  match a, b with
  | _, [] => false
  | [], _ :: _ => true
  | x :: a', y :: b' =>
      if (x <? y)%N then true
      else if (y <? x)%N then false
      else str_ltb a' b'
  end.

Definition str_leb (a b : jstring) : bool := negb (str_ltb b a).

End JS.

Import JS.

(* ================================================================== *)
(** * Regular expressions

    The fragment of ECMAScript regular expressions the extension uses
    (no flags other than [g], no back references), with
    the backtracking semantics of the language specification: a matcher
    takes a continuation, alternatives and quantifiers try their choices
    in priority order. *)

Module RegExp.

Inductive citem :=
| One (c : char)               (* a single character *)
| Range (lo hi : char)         (* [lo-hi] *)
| ClsWord                      (* \w *)
| ClsSpace.                    (* \s *)

Inductive regex :=
| Eps                          (* the empty pattern *)
| Chr (c : char)               (* a literal character *)
| Dot                          (* . *)
| Set_ (items : list citem)    (* [...] *)
| NSet (items : list citem)    (* [^...] *)
| Seq (r1 r2 : regex)
| Alt (r1 r2 : regex)          (* r1|r2 *)
| Star (r : regex)             (* r*  greedy *)
| LazyStar (r : regex)         (* r*? *)
| Group (n : nat) (r : regex)  (* the n-th capturing group *)
| NotAhead (r : regex)         (* (?!r) *)
| Bol                          (* ^ *)
| Eol                          (* $ *)
| WordB.                       (* \b *)

Definition Plus (r : regex) : regex := Seq r (Star r).          (* r+  *)
Definition LazyPlus (r : regex) : regex := Seq r (LazyStar r).  (* r+? *)
Definition Word : regex := Set_ [ClsWord].                      (* \w  *)
Definition Space : regex := Set_ [ClsSpace].                    (* \s  *)

(** A literal string as a pattern. *)
Fixpoint Str (s : jstring) : regex :=
  match s with
  | [] => Eps
  | c :: s' => Seq (Chr c) (Str s')
  end.

Definition L (s : string) : regex := Str (lit s).
Arguments L s%_string.

Fixpoint Seqs (rs : list regex) : regex :=
  match rs with
  | [] => Eps
  | [r] => r
  | r :: rs' => Seq r (Seqs rs')
  end.

(** [r|r1|...|rn] *)
Fixpoint Alts (r : regex) (rs : list regex) : regex :=
  match rs with
  | [] => r
  | r' :: rs' => Alt r (Alts r' rs')
  end.

Definition citem_matches (it : citem) (c : char) : bool :=
  match it with
  | One a => char_eqb a c
  | Range lo hi => ((lo <=? c) && (c <=? hi))%N
  | ClsWord => isWordChar c
  | ClsSpace => isWhiteSpace c
  end.

Definition class_matches (items : list citem) (c : char) : bool :=
  existsb (fun it => citem_matches it c) items.

(** Captures: group number, start and end index of its last match. *)
Definition captures := list (nat * (nat * nat)).

Definition result := (nat * captures)%type.      (* end index, captures *)
Definition cont := nat -> captures -> option result.

Section Matcher.

Variable s : jstring.

Definition charAt (i : nat) : option char := nth_error s i.

Definition isWordAt (i : nat) : bool :=
  match charAt i with
  | Some c => isWordChar c
  | None => false
  end.

(** [\b] holds at [i] when exactly one of the characters before and at
    [i] is a word character. *)
Definition atWordBoundary (i : nat) : bool :=
  let a := match i with 0 => false | S j => isWordAt j end in
  let b := isWordAt i in
  xorb a b.

Definition step (p : char -> bool) (k : cont) (i : nat) (c : captures) : option result :=
  match charAt i with
  | Some x => if p x then k (S i) c else None
  | None => None
  end.

Definition matcher := cont -> nat -> captures -> option result.

(** [n] rounds of a greedy quantifier over the matcher [mr]: try one
    more round (which has to consume something), then the rest of the
    pattern.  An iteration that matches the empty string is rejected, as
    the language specifies. *)
Fixpoint iterStar (mr : matcher) (k : cont) (n : nat) (i : nat) (c : captures)
  : option result :=
  match n with
  | 0 => k i c
  | S n' =>
      match mr (fun j c' => if i <? j then iterStar mr k n' j c' else None) i c with
      | Some res => Some res
      | None => k i c
      end
  end.

(** The same for a lazy quantifier: the rest of the pattern first. *)
Fixpoint iterLazy (mr : matcher) (k : cont) (n : nat) (i : nat) (c : captures)
  : option result :=
  match n with
  | 0 => k i c
  | S n' =>
      match k i c with
      | Some res => Some res
      | None => mr (fun j c' => if i <? j then iterLazy mr k n' j c' else None) i c
      end
  end.

(** The matcher of [r] at index [i] with captures [c]: the first result,
    in priority order, that the continuation [k] accepts.  Every round of
    a quantifier consumes a character, so [S (length s - i)] rounds are
    all a quantifier can use. *)
Fixpoint m (r : regex) (k : cont) (i : nat) (c : captures) {struct r} : option result :=
  match r with
  | Eps => k i c
  | Chr a => step (char_eqb a) k i c
  | Dot => step (fun x => negb (isLineTerminator x)) k i c
  | Set_ items => step (class_matches items) k i c
  | NSet items => step (fun x => negb (class_matches items x)) k i c
  | Seq r1 r2 => m r1 (m r2 k) i c
  | Alt r1 r2 =>
      match m r1 k i c with
      | Some res => Some res
      | None => m r2 k i c
      end
  | Star r1 => iterStar (m r1) k (S (length s - i)) i c
  | LazyStar r1 => iterLazy (m r1) k (S (length s - i)) i c
  | Group n r1 => m r1 (fun j c' => k j ((n, (i, j)) :: c')) i c
  | NotAhead r1 =>
      match m r1 (fun j c' => Some (j, c')) i c with
      | Some _ => None
      | None => k i c
      end
  | Bol => if i =? 0 then k i c else None
  | Eol => if i =? length s then k i c else None
  | WordB => if atWordBoundary i then k i c else None
  end.

Definition accept : cont := fun j c => Some (j, c).

(** A match of [r] that starts exactly at [i]. *)
Definition matchAt (r : regex) (i : nat) : option result := m r accept i [].

(** The first match at one of the start indices [i, i+1, ..., i+n]. *)
Fixpoint searchFrom (r : regex) (n : nat) (i : nat) : option (nat * result) :=
  match matchAt r i with
  | Some res => Some (i, res)
  | None =>
      match n with
      | 0 => None
      | S n' => searchFrom r n' (S i)
      end
  end.

End Matcher.

(** [RegExpBuiltinExec] from [lastIndex]: start index, end index and
    captures of the leftmost match, or [None]. *)
Definition exec (r : regex) (s : jstring) (lastIndex : nat) : option (nat * result) :=
  if lastIndex <=? length s then searchFrom s r (length s - lastIndex) lastIndex
  else None.

(** [r.test(s)] for a pattern without the [g] flag. *)
Definition test (r : regex) (s : jstring) : bool :=
  match exec r s 0 with
  | Some _ => true
  | None => false
  end.

Fixpoint lookupCap (c : captures) (n : nat) : option (nat * nat) :=
  match c with
  | [] => None
  | (g, se) :: c' => if g =? n then Some se else lookupCap c' n
  end.

(** [match[n]] for a group that took part in the match; the empty string
    stands for a group that did not. *)
Definition group (s : jstring) (res : result) (n : nat) : jstring :=
  match lookupCap (snd res) n with
  | Some (a, b) => substr s a b
  | None => []
  end.

(** ** The declarative reading of a pattern *)

(** [n] rounds of a quantified pattern, each consuming something. *)
Fixpoint Rounds (R : nat -> captures -> nat -> captures -> Prop) (n : nat)
  (i : nat) (c : captures) (j : nat) (c' : captures) : Prop :=
  match n with
  | 0 => j = i /\ c' = c
  | S n' => exists j1 c1, R i c j1 c1 /\ i < j1 /\ Rounds R n' j1 c1 j c'
  end.

(** One character that satisfies [p]. *)
Definition StepTo (s : jstring) (p : char -> bool)
  (i : nat) (c : captures) (j : nat) (c' : captures) : Prop :=
  exists x, charAt s i = Some x /\ p x = true /\ j = S i /\ c' = c.

(** [Matches s r i c j c']: the pattern [r] matches the characters of [s]
    from index [i] up to [j] and turns the captures [c] into [c']. *)
Fixpoint Matches (s : jstring) (r : regex) (i : nat) (c : captures) (j : nat)
  (c' : captures) : Prop :=
  match r with
  | Eps => j = i /\ c' = c
  | Chr a => StepTo s (char_eqb a) i c j c'
  | Dot => StepTo s (fun x => negb (isLineTerminator x)) i c j c'
  | Set_ items => StepTo s (class_matches items) i c j c'
  | NSet items => StepTo s (fun x => negb (class_matches items x)) i c j c'
  | Seq r1 r2 => exists j1 c1, Matches s r1 i c j1 c1 /\ Matches s r2 j1 c1 j c'
  | Alt r1 r2 => Matches s r1 i c j c' \/ Matches s r2 i c j c'
  | Star r1 => exists n, Rounds (Matches s r1) n i c j c'
  | LazyStar r1 => exists n, Rounds (Matches s r1) n i c j c'
  | Group n r1 => exists c1, Matches s r1 i c j c1 /\ c' = (n, (i, j)) :: c1
  | NotAhead r1 => (forall j1 c1, ~ Matches s r1 i c j1 c1) /\ j = i /\ c' = c
  | Bol => i = 0 /\ j = i /\ c' = c
  | Eol => i = length s /\ j = i /\ c' = c
  | WordB => atWordBoundary s i = true /\ j = i /\ c' = c
  end.

(** A matcher finds only matches of [R], and finds one whenever there is
    one that the continuation accepts. *)
Definition Sound (mr : matcher) (R : nat -> captures -> nat -> captures -> Prop) : Prop :=
  forall k i c res, mr k i c = Some res ->
    exists j c', R i c j c' /\ k j c' = Some res.

Definition Complete (mr : matcher) (R : nat -> captures -> nat -> captures -> Prop) : Prop :=
  forall k i c j c', R i c j c' -> k j c' <> None -> mr k i c <> None.

(** The text in front of a word, and the text behind one. *)
Definition notWordBefore (a : jstring) : Prop :=
  match rev a with [] => True | x :: _ => isWordChar x = false end.

Definition notWordAfter (b : jstring) : Prop :=
  match b with [] => True | x :: _ => isWordChar x = false end.

End RegExp.

Import RegExp.

(** Character literals of the patterns and texts below. *)
Definition ch (a : ascii) : char := N_of_ascii a.
Arguments ch a%_char.

(* ================================================================== *)
(** * Property lookup on an object literal

    [FUNCTION_TO_HEADER[name]] is a property read on a plain object: when
    the object has no own property [name], the read goes on to
    [Object.prototype].  The values such a read can give are strings (own
    properties of the tables), the built-in functions of
    [Object.prototype], and [Object.prototype] itself (for [__proto__]). *)

Module Obj.

Inductive value :=
| VStr (s : jstring)          (* a string *)
| VFun (name : jstring)       (* the built-in function of that name *)
| VProto.                     (* the object [Object.prototype] *)

(** [String(v)], as template literals and the default sort order use it. *)
Definition toString (v : value) : jstring :=
  match v with
  | VStr s => s
  | VFun n => lit "function " ++ n ++ lit "() { [native code] }"
  | VProto => lit "[object Object]"
  end.

(** [ToBoolean(v)] *)
Definition truthy (v : value) : bool :=
  match v with
  | VStr [] => false
  | _ => true
  end.

(** SameValueZero, the equality of [Set.prototype.has]: strings by
    content, objects by identity. *)
Definition value_eqb (a b : value) : bool :=
  match a, b with
  | VStr x, VStr y => str_eqb x y
  | VFun x, VFun y => str_eqb x y
  | VProto, VProto => true
  | _, _ => false
  end.

(** The properties every plain object inherits. *)
Definition Object_prototype : list (jstring * value) :=
  [ (lit "constructor", VFun (lit "Object"));
    (lit "__defineGetter__", VFun (lit "__defineGetter__"));
    (lit "__defineSetter__", VFun (lit "__defineSetter__"));
    (lit "hasOwnProperty", VFun (lit "hasOwnProperty"));
    (lit "__lookupGetter__", VFun (lit "__lookupGetter__"));
    (lit "__lookupSetter__", VFun (lit "__lookupSetter__"));
    (lit "isPrototypeOf", VFun (lit "isPrototypeOf"));
    (lit "propertyIsEnumerable", VFun (lit "propertyIsEnumerable"));
    (lit "toString", VFun (lit "toString"));
    (lit "valueOf", VFun (lit "valueOf"));
    (lit "__proto__", VProto);
    (lit "toLocaleString", VFun (lit "toLocaleString")) ].

Fixpoint assoc {A} (l : list (jstring * A)) (k : jstring) : option A :=
  match l with
  | [] => None
  | (k', v) :: l' => if str_eqb k' k then Some v else assoc l' k
  end.

(** [o[k]] for an object literal [o] with string-valued own properties
    [own]; [None] stands for [undefined]. *)
Definition get (own : list (jstring * jstring)) (k : jstring) : option value :=
  match assoc own k with
  | Some s => Some (VStr s)
  | None => assoc Object_prototype k
  end.

(** A [Set], in insertion order. *)
Definition has (set : list value) (v : value) : bool :=
  existsb (value_eqb v) set.

Definition add (set : list value) (v : value) : list value :=
  if has set v then set else set ++ [v].

(** [Array.prototype.sort] without a comparator: the elements in
    ascending order of their strings. *)
Fixpoint insert (v : value) (l : list value) : list value :=
  match l with
  | [] => [v]
  | w :: l' => if str_leb (toString v) (toString w) then v :: l else w :: insert v l'
  end.

Fixpoint sort (l : list value) : list value :=
  match l with
  | [] => []
  | v :: l' => insert v (sort l')
  end.

End Obj.

Import Obj.

(* ================================================================== *)
(** * Constants and mappings *)

Definition entry (f h : string) : jstring * jstring := (lit f, lit h).
Arguments entry (f h)%_string.

(** Maps common C standard library functions to their required header
    files. *)
Definition FUNCTION_TO_HEADER : list (jstring * jstring) :=
  [ (* stdio.h *)
    entry "printf" "stdio.h"; entry "scanf" "stdio.h"; entry "fprintf" "stdio.h";
    entry "fscanf" "stdio.h"; entry "fopen" "stdio.h"; entry "fclose" "stdio.h";
    entry "fgets" "stdio.h"; entry "fputs" "stdio.h"; entry "fread" "stdio.h";
    entry "fwrite" "stdio.h"; entry "sprintf" "stdio.h"; entry "sscanf" "stdio.h";
    entry "puts" "stdio.h"; entry "getchar" "stdio.h"; entry "putchar" "stdio.h";
    entry "perror" "stdio.h"; entry "fgetc" "stdio.h"; entry "fputc" "stdio.h";
    entry "fseek" "stdio.h"; entry "ftell" "stdio.h";
    (* stdlib.h *)
    entry "malloc" "stdlib.h"; entry "calloc" "stdlib.h"; entry "realloc" "stdlib.h";
    entry "free" "stdlib.h"; entry "exit" "stdlib.h"; entry "atoi" "stdlib.h";
    entry "atof" "stdlib.h"; entry "rand" "stdlib.h"; entry "srand" "stdlib.h";
    entry "abs" "stdlib.h"; entry "system" "stdlib.h"; entry "getenv" "stdlib.h";
    (* string.h *)
    entry "strcpy" "string.h"; entry "strncpy" "string.h"; entry "strcat" "string.h";
    entry "strncat" "string.h"; entry "strlen" "string.h"; entry "strcmp" "string.h";
    entry "strncmp" "string.h"; entry "strchr" "string.h"; entry "strstr" "string.h";
    entry "memcpy" "string.h"; entry "memset" "string.h"; entry "memmove" "string.h";
    entry "memcmp" "string.h"; entry "strdup" "string.h";
    (* math.h *)
    entry "sqrt" "math.h"; entry "pow" "math.h"; entry "sin" "math.h";
    entry "cos" "math.h"; entry "tan" "math.h"; entry "floor" "math.h";
    entry "ceil" "math.h"; entry "fabs" "math.h"; entry "exp" "math.h";
    entry "log" "math.h"; entry "round" "math.h"; entry "fmod" "math.h";
    (* time.h *)
    entry "time" "time.h"; entry "clock" "time.h"; entry "difftime" "time.h";
    entry "strftime" "time.h";
    (* ctype.h *)
    entry "isalpha" "ctype.h"; entry "isdigit" "ctype.h"; entry "isalnum" "ctype.h";
    entry "toupper" "ctype.h"; entry "tolower" "ctype.h"; entry "isspace" "ctype.h";
    entry "ispunct" "ctype.h"; entry "isupper" "ctype.h"; entry "islower" "ctype.h" ].

(** Maps unsafe C functions to their safer alternatives; the order is the
    order of [Object.entries]. *)
Definition UNSAFE_FUNCTIONS : list (jstring * jstring) :=
  [ entry "gets" "fgets";
    entry "strcpy" "strncpy";
    entry "strcat" "strncat";
    entry "sprintf" "snprintf" ].

(* ================================================================== *)
(** * The host editor

    A document is its text; the extension reads it with
    [document.getText().split('\n')].  An edit inserts a text at a
    position.  Both edits of the extension insert at column 0. *)

Definition documentLines (text : jstring) : list jstring := split NL text.

Definition CR : char := 13%N.     (* '\r' *)

(** The line of the editor in a piece of the text, [lineAt(i).text]: in
    a document with CRLF line ends the piece ends with the carriage
    return of the line end, which is no part of the line. *)
Definition lineText (piece : jstring) : jstring :=
  if endsWith piece [CR] then removelast piece else piece.

Record Edit := mkEdit {
  insertLine : nat;          (* Position.line *)
  insertCharacter : nat;     (* Position.character *)
  insertText : jstring
}.

(** [editBuilder.insert(new Position(line, 0), text)] on the lines of a
    document.  Inside the document the text goes in front of line
    [line]; a position past the last line is moved by the editor to the
    end of the document, so the text is appended to the last line.  (The
    inserted text is taken as written: no carriage returns are added.) *)
Definition applyInsert (lines : list jstring) (line : nat) (text : jstring) : list jstring :=
  if line <? length lines then
    firstn line lines ++ split NL (text ++ nth line lines []) ++ skipn (S line) lines
  else
    removelast lines ++ split NL (last lines [] ++ text).

Definition applyEdit (lines : list jstring) (e : option Edit) : list jstring :=
  match e with
  | Some ed => applyInsert lines (insertLine ed) (insertText ed)
  | None => lines
  end.

(** A line of a document holds no newline. *)
Definition noNL (l : jstring) : Prop := ~ In NL l.

Definition noNLb (s : jstring) : bool := negb (existsb (char_eqb NL) s).

(* ================================================================== *)
(** * Automatic header insertion *)

(** [line.trim().startsWith('#include')] *)
Definition isIncludeLine (line : jstring) : bool :=
  startsWith (trim line) (lit "#include").

(** The part of a line in front of the first [//]:
    [commentIndex !== -1 ? line.substring(0, commentIndex) : line]. *)
Definition stripComment (line : jstring) : jstring :=
  let commentIndex := indexOf line (lit "//") in
  if (commentIndex =? -1)%Z then line else substring0 line commentIndex.

(** The pattern [#include \s* [<"] ( .+? ) [>"]]. *)
Definition includePattern : regex :=
  Seqs [ L "#include"; Star Space; Set_ [One (ch "<"); One DQ];
         Group 1 (LazyPlus Dot); Set_ [One (ch ">"); One DQ] ].

Definition identStart : regex :=
  Set_ [Range (ch "a") (ch "z"); Range (ch "A") (ch "Z"); One (ch "_")].

(** The pattern [\b ( [a-zA-Z_] \w* ) \s* \(] with the flag [g]
    (patterns are written here with blanks between their parts). *)
Definition functionCallPattern : regex :=
  Seqs [ WordB; Group 1 (Seq identStart (Star Word)); Star Space; Chr (ch "(") ].

(** The loop [while ((match = regex.exec(s)) !== null)] of a pattern with
    the [g] flag: each round searches from [lastIndex] and moves
    [lastIndex] to the end of the match.  [fuel] bounds the rounds. *)
Fixpoint execAll (fuel : nat) (r : regex) (s : jstring) (lastIndex : nat)
  : list (nat * result) :=
  match fuel with
  | 0 => []
  | S fuel' =>
      match exec r s lastIndex with
      | None => []
      | Some (start, res) => (start, res) :: execAll fuel' r s (fst res)
      end
  end.

(** The names [match[1]] of the call-like tokens of a line, in order.
    Every match holds a parenthesis, so [S (length s)] rounds are
    enough (see [execAll_functionCall_fuel]). *)
Definition callsIn (checkLine : jstring) : list jstring :=
  map (fun mt => group checkLine (snd mt) 1)
      (execAll (S (length checkLine)) functionCallPattern checkLine 0).

(** Get all currently included headers. *)
Definition includedHeaders (lines : list jstring) : list value :=
  fold_left
    (fun included line =>
       match exec includePattern line 0 with
       | Some (_, res) => add included (VStr (group line res 1))
       | None => included
       end)
    lines [].

(** The body of the inner [while] loop for one function name. *)
Definition requireHeaderOf (included required : list value) (functionName : jstring)
  : list value :=
  match get FUNCTION_TO_HEADER functionName with
  | Some header =>
      if truthy header && negb (has included header)
      then add required header
      else required
  | None => required
  end.

(** Find all function calls in the document (skip comments). *)
Definition requiredHeadersFrom (included : list value) (lines : list jstring)
  : list value :=
  fold_left
    (fun required line =>
       fold_left (requireHeaderOf included) (callsIn (stripComment line)) required)
    lines [].

Definition requiredHeaders (lines : list jstring) : list value :=
  requiredHeadersFrom (includedHeaders lines) lines.

(** Find insertion point (after last #include or at top): the loop from
    index [i] on, with the value [acc] of [insertionLine] so far. *)
Fixpoint insertionLineFrom (lines : list jstring) (i acc : nat) : nat :=
  match lines with
  | [] => acc
  | l :: ls => insertionLineFrom ls (S i) (if isIncludeLine l then S i else acc)
  end.

Definition insertionLine (lines : list jstring) : nat := insertionLineFrom lines 0 0.

Definition includeDirective (h : value) : jstring :=
  lit "#include <" ++ toString h ++ lit ">".

(** [headersToAdd.map(h => `#include <${h}>`).join('\n') + '\n'] *)
Definition headerText (headersToAdd : list value) : jstring :=
  join [NL] (map includeDirective headersToAdd) ++ [NL].

(** [autoAddRequiredHeaders]: the edit it issues, if any.
    [editorShowsDocument] says that there is an active editor and that it
    shows the document. *)
Definition autoAddRequiredHeaders (editorShowsDocument : bool) (text : jstring)
  : option Edit :=
  if negb editorShowsDocument then None
  else
    let lines := documentLines text in
    let required := requiredHeaders lines in
    if length required =? 0 then None
    else
      let headersToAdd := sort required in
      Some (mkEdit (insertionLine lines) 0 (headerText headersToAdd)).

(** The header a line includes, if the pattern of the first loop matches
    it. *)
Definition includedHeaderOf (line : jstring) : option value :=
  match exec includePattern line 0 with
  | Some (_, res) => Some (VStr (group line res 1))
  | None => None
  end.

(** The inner loop of the search for calls, for one line. *)
Definition scanLine (included : list value) (required : list value) (line : jstring)
  : list value :=
  fold_left (requireHeaderOf included) (callsIn (stripComment line)) required.


(* ================================================================== *)
(** * The semicolon heuristic *)

Module Semicolon.

(** [[{:\[]$] *)
Definition opensBlock : regex :=
  Seq (Set_ [One (ch "{"); One (ch ":"); One (ch "[")]) Eol.

(** [^[}]$] *)
Definition closingBrace : regex := Seqs [Bol; Set_ [One (ch "}")]; Eol].

(** [^#] *)
Definition preprocessor : regex := Seq Bol (Chr (ch "#")).

(** Comments: a line that starts with two slashes, or with a slash and a
    star, or ends with a star and a slash, or starts with a star. *)
Definition comment : regex :=
  Alts (Seq Bol (L "//"))
       [ Seq Bol (Seq (Chr (ch "/")) (Chr (ch "*")));
         Seq (Seq (Chr (ch "*")) (Chr (ch "/"))) Eol;
         Seq Bol (Chr (ch "*")) ].

(** [^ \s* (if|else if|else|while|for|do|switch) \s* \( .* \) \s* $] *)
Definition controlStructure : regex :=
  Seqs [ Bol; Star Space;
         Group 1 (Alts (L "if") [L "else if"; L "else"; L "while"; L "for"; L "do"; L "switch"]);
         Star Space; Chr (ch "("); Star Dot; Chr (ch ")"); Star Space; Eol ].

(** [^ \s* (int|void|char|float|double|long|short|unsigned|signed|static|const|auto|register)
     \s+ [\w\s\*]+ \( [^)]* \) \s* $] *)
Definition functionDefinition : regex :=
  Seqs [ Bol; Star Space;
         Group 1 (Alts (L "int")
                    [ L "void"; L "char"; L "float"; L "double"; L "long"; L "short";
                      L "unsigned"; L "signed"; L "static"; L "const"; L "auto";
                      L "register" ]);
         Plus Space; Plus (Set_ [ClsWord; ClsSpace; One (ch "*")]);
         Chr (ch "("); Star (NSet [One (ch ")")]); Chr (ch ")"); Star Space; Eol ].

(** [^ \s* (struct|union|enum|typedef) \b] *)
Definition aggregate : regex :=
  Seqs [ Bol; Star Space;
         Group 1 (Alts (L "struct") [L "union"; L "enum"; L "typedef"]); WordB ].

(** [^ \s* (case \s+ .+ |default) \s* : \s* $] *)
Definition label : regex :=
  Seqs [ Bol; Star Space;
         Group 1 (Alt (Seqs [L "case"; Plus Space; Plus Dot]) (L "default"));
         Star Space; Chr (ch ":"); Star Space; Eol ].

Definition shouldAddSemicolon (text : jstring) : bool :=
  let trimmed := trim text in
  (* Empty line or already has semicolon *)
  if (length trimmed =? 0) || endsWith trimmed (lit ";") then false
  (* Don't add to lines ending with opening brace or colon *)
  else if test opensBlock trimmed then false
  (* Don't add to lines that are just closing braces *)
  else if test closingBrace trimmed then false
  (* Preprocessor directives *)
  else if test preprocessor trimmed then false
  (* Comments *)
  else if test comment trimmed then false
  (* Control structure lines that end with ) and nothing else *)
  else if test controlStructure trimmed then false
  (* Function definitions (no body on same line) *)
  else if test functionDefinition trimmed then false
  (* struct/union/enum/typedef definitions *)
  else if test aggregate trimmed then false
  (* Labels (case/default) *)
  else if test label trimmed then false
  else true.

End Semicolon.

Export Semicolon.

(* ================================================================== *)
(** * Automatic prototype generation *)

Module Prototypes.

(** Find the last #include directive: the loop from index [i] on, with
    the value [acc] of [lastIncludeLine] so far. *)
Fixpoint lastIncludeLineFrom (lines : list jstring) (i acc : Z) : Z :=
  match lines with
  | [] => acc
  | l :: ls => lastIncludeLineFrom ls (i + 1)%Z (if isIncludeLine l then i else acc)
  end.

Definition lastIncludeLine (lines : list jstring) : Z :=
  lastIncludeLineFrom lines 0%Z (-1)%Z.

(** [^ \s* (int|void) \s+ main \s* \(] *)
Definition mainPattern : regex :=
  Seqs [ Bol; Star Space; Group 1 (Alt (L "int") (L "void")); Plus Space;
         L "main"; Star Space; Chr (ch "(") ].

(** Find the main function: the loop over the lines from index [i] on. *)
Fixpoint mainLineFrom (lines : list jstring) (i : Z) : Z :=
  match lines with
  | [] => (-1)%Z
  | l :: ls => if test mainPattern l then i else mainLineFrom ls (i + 1)%Z
  end.

Definition mainLine (lines : list jstring) (lastInclude : Z) : Z :=
  mainLineFrom (skipn (Z.to_nat (lastInclude + 1)) lines) (lastInclude + 1)%Z.

(** [^ \s* (int|void|char|float|double|long|short|unsigned|signed) \s+
     ( [a-zA-Z_] \w* ) \s* \( ( [^)]* ) \) \s* \{] *)
Definition functionPattern : regex :=
  Seqs [ Bol; Star Space;
         Group 1 (Alts (L "int")
                    [ L "void"; L "char"; L "float"; L "double"; L "long"; L "short";
                      L "unsigned"; L "signed" ]);
         Plus Space; Group 2 (Seq identStart (Star Word)); Star Space;
         Chr (ch "("); Group 3 (Star (NSet [One (ch ")")])); Chr (ch ")");
         Star Space; Chr (ch "{") ].

Record FoundFunction := mkFound {
  name : jstring;
  prototype : jstring
}.

(** The body of the loop over the lines after [main]. *)
Definition functionOfLine (line : jstring) : list FoundFunction :=
  match exec functionPattern line 0 with
  | Some (_, res) =>
      let returnType := group line res 1 in
      let functionName := group line res 2 in
      let parameters := trim (group line res 3) in
      if negb (str_eqb functionName (lit "main")) then
        [ mkFound functionName
            (returnType ++ lit " " ++ functionName ++ lit "(" ++ parameters ++ lit ");") ]
      else []
  | None => []
  end.

(** Find all user-defined functions after main. *)
Definition foundFunctions (lines : list jstring) (main : Z) : list FoundFunction :=
  flat_map functionOfLine (skipn (Z.to_nat (main + 1)) lines).

(** [new RegExp(`\\b${name}\\s*\\([^)]*\\)\\s*;`)]; the name is made of
    word characters, so it stands for itself in the pattern. *)
Definition prototypePattern (name : jstring) : regex :=
  Seqs [ WordB; Str name; Star Space; Chr (ch "("); Star (NSet [One (ch ")")]);
         Chr (ch ")"); Star Space; Chr (ch ";") ].

Definition prototypeArea (lines : list jstring) (lastInclude main : Z) : jstring :=
  join [NL] (slice lines (Z.to_nat (lastInclude + 1)) (Z.to_nat main)).

(** Check which prototypes are missing. *)
Definition missingPrototypes (area : jstring) (found : list FoundFunction)
  : list FoundFunction :=
  filter (fun func => negb (test (prototypePattern (name func)) area)) found.

(** ['\n' + missingPrototypes.map(f => f.prototype).join('\n') + '\n'] *)
Definition prototypesText (missing : list FoundFunction) : jstring :=
  [NL] ++ join [NL] (map prototype missing) ++ [NL].

(** [autoGeneratePrototypes]: the edit it issues, if any. *)
Definition autoGeneratePrototypes
  (isProcessingChange editorShowsDocument : bool) (text : jstring) : option Edit :=
  if isProcessingChange then None
  else if negb editorShowsDocument then None
  else
    let lines := documentLines text in
    let lastInclude := lastIncludeLine lines in
    if (lastInclude =? -1)%Z then None
    else
      let main := mainLine lines lastInclude in
      if (main =? -1)%Z then None
      else
        let found := foundFunctions lines main in
        if length found =? 0 then None
        else
          let missing := missingPrototypes (prototypeArea lines lastInclude main) found in
          if 0 <? length missing then
            Some (mkEdit (Z.to_nat (lastInclude + 1)) 0 (prototypesText missing))
          else None.

End Prototypes.

Export Prototypes.

(* ================================================================== *)
(** * Diagnostics (warnings and suggestions) *)

Module Diagnostics.

Inductive DiagnosticSeverity := Warning | Information.

(** [new vscode.Range(startLine, startCharacter, endLine, endCharacter)] *)
Record Range := mkRange {
  startLine : Z;
  startCharacter : Z;
  endLine : Z;
  endCharacter : Z
}.

Record Diagnostic := mkDiagnostic {
  range : Range;
  message : jstring;
  severity : DiagnosticSeverity
}.

Definition len (s : jstring) : Z := Z.of_nat (length s).

(** [`Unsafe function '${unsafeFunc}'. Consider using '${safeFunc}' instead.`] *)
Definition unsafeMessage (unsafeFunc safeFunc : jstring) : jstring :=
  lit "Unsafe function '" ++ unsafeFunc ++ lit "'. Consider using '" ++ safeFunc
  ++ lit "' instead.".

(** The body of the loop over [Object.entries(UNSAFE_FUNCTIONS)]. *)
Definition checkUnsafeEntry (line : jstring) (lineNumber : Z)
  (diagnostics : list Diagnostic) (entry : jstring * jstring) : list Diagnostic :=
  let (unsafeFunc, safeFunc) := entry in
  if includes line (unsafeFunc ++ lit "(") then
    (* Make sure it's not in a comment *)
    let commentIndex := indexOf line (lit "//") in
    let funcIndex := indexOf line unsafeFunc in
    if negb (commentIndex =? -1)%Z && (funcIndex >? commentIndex)%Z then
      diagnostics (* Skip if in comment *)
    else
      diagnostics ++
      [ mkDiagnostic
          (mkRange lineNumber funcIndex lineNumber (funcIndex + len unsafeFunc))
          (unsafeMessage unsafeFunc safeFunc)
          Warning ]
  else diagnostics.

(** [checkUnsafeFunctions]: the array [diagnostics] after the call. *)
Definition checkUnsafeFunctions (line : jstring) (lineNumber : Z)
  (diagnostics : list Diagnostic) : list Diagnostic :=
  (* Skip comments and strings *)
  let trimmed := trim line in
  if startsWith trimmed (lit "//") || startsWith trimmed (lit "/*")
     || startsWith trimmed (lit "*")
  then diagnostics
  else fold_left (checkUnsafeEntry line lineNumber) UNSAFE_FUNCTIONS diagnostics.

(** [if \s* \( [^)]* [^=!<>] = (?!=) [^)]* \)] *)
Definition assignmentPattern : regex :=
  Seqs [ L "if"; Star Space; Chr (ch "("); Star (NSet [One (ch ")")]);
         NSet [One (ch "="); One (ch "!"); One (ch "<"); One (ch ">")];
         Chr (ch "="); NotAhead (Chr (ch "=")); Star (NSet [One (ch ")")]);
         Chr (ch ")") ].

Definition checkAssignmentInConditional (line : jstring) (lineNumber : Z)
  (diagnostics : list Diagnostic) : list Diagnostic :=
  let checkLine := stripComment line in
  if test assignmentPattern checkLine then
    let index := indexOf checkLine (lit "if") in
    diagnostics ++
    [ mkDiagnostic (mkRange lineNumber index lineNumber (len checkLine))
        (lit "Possible assignment instead of comparison in conditional statement")
        Warning ]
  else diagnostics.

(** [ (malloc|calloc|realloc)] *)
Definition allocatorPattern : regex :=
  Seq WordB (Group 1 (Alts (L "malloc") [L "calloc"; L "realloc"])).

(** [ (malloc|calloc|realloc) \s* \(] *)
Definition allocationPattern : regex :=
  Seqs [ allocatorPattern; Star Space; Chr (ch "(") ].

Definition checkMemoryAllocation (line : jstring) (lineNumber : Z)
  (diagnostics : list Diagnostic) : list Diagnostic :=
  let checkLine := stripComment line in
  if test allocationPattern checkLine then
    match exec allocatorPattern checkLine 0 with
    | Some (start, res) =>
        let index := indexOf checkLine (substr checkLine start (fst res)) in
        diagnostics ++
        [ mkDiagnostic (mkRange lineNumber index lineNumber (len checkLine))
            (lit "Remember to free allocated memory to prevent memory leaks")
            Information ]
    | None => diagnostics
    end
  else diagnostics.

(** [ NULL ] *)
Definition nullToken : regex := Seqs [WordB; L "NULL"; WordB].

(** [ != \s* NULL | == \s* NULL ] *)
Definition nullComparison : regex :=
  Alt (Seqs [WordB; L "!="; Star Space; L "NULL"])
      (Seqs [L "=="; Star Space; L "NULL"; WordB]).

(** [ if \s* \(] *)
Definition ifPattern : regex := Seqs [WordB; L "if"; Star Space; Chr (ch "(")].

(** [perror] *)
Definition perrorPattern : regex := L "perror".

(** [lines.slice(lineNumber + 1, Math.min(lineNumber + 5, lines.length)).join('\n')] *)
Definition nextLinesOf (lines : list jstring) (lineNumber : nat) : jstring :=
  join [NL] (slice lines (lineNumber + 1) (Nat.min (lineNumber + 5) (length lines))).

Definition hasNullCheck (nextLines : jstring) : bool :=
  test nullToken nextLines || test nullComparison nextLines.

Definition hasErrorHandling (nextLines : jstring) : bool :=
  test ifPattern nextLines || test perrorPattern nextLines.

Definition fopenMessage : jstring :=
  lit "Consider checking if fopen() returned NULL before using the file pointer".

Definition checkFopenWithoutNullCheck (lines : list jstring) (line : jstring)
  (lineNumber : nat) (diagnostics : list Diagnostic) : list Diagnostic :=
  let checkLine := stripComment line in
  if includes checkLine (lit "fopen(") then
    let nextLines := nextLinesOf lines lineNumber in
    (* Check for NULL check or error handling *)
    if negb (hasNullCheck nextLines) && negb (hasErrorHandling nextLines) then
      let index := indexOf checkLine (lit "fopen") in
      diagnostics ++
      [ mkDiagnostic
          (mkRange (Z.of_nat lineNumber) index (Z.of_nat lineNumber) (len checkLine))
          fopenMessage Information ]
    else diagnostics
  else diagnostics.

(** The body of the loop of [runDiagnostics] for line [i]. *)
Definition checkLineAt (lines : list jstring) (diagnostics : list Diagnostic)
  (i : nat) : list Diagnostic :=
  let line := nth i lines [] in
  let d1 := checkUnsafeFunctions line (Z.of_nat i) diagnostics in
  let d2 := checkAssignmentInConditional line (Z.of_nat i) d1 in
  let d3 := checkMemoryAllocation line (Z.of_nat i) d2 in
  checkFopenWithoutNullCheck lines line i d3.

(** [runDiagnostics]: the diagnostics set for the document (the
    diagnostic collection being initialised). *)
Definition runDiagnostics (text : jstring) : list Diagnostic :=
  let lines := documentLines text in
  fold_left (checkLineAt lines) (seq 0 (length lines)) [].

End Diagnostics.

Export Diagnostics.

(* ================================================================== *)
(** * The library reference *)

Module Reference.

(** An entry of [LIBRARY_DATABASE]: the fields the search reads.  (The
    fields [prototype], [parameters], [returnValue], [example], [notes]
    and [relatedFunctions] are only displayed.) *)
Record LibraryFunction := mkFunction {
  name : jstring;
  header : jstring;
  description : jstring
}.

Definition func (n h d : string) : LibraryFunction := mkFunction (lit n) (lit h) (lit d).
Arguments func (n h d)%_string.

(** [Object.values(LIBRARY_DATABASE)], in the order of the declaration. *)
Definition LIBRARY_DATABASE : list LibraryFunction :=
  [ func "printf" "stdio.h"
      "Prints formatted output to stdout";
    func "scanf" "stdio.h"
      "Reads formatted input from stdin";
    func "fprintf" "stdio.h"
      "Prints formatted output to a file stream";
    func "sprintf" "stdio.h"
      "Prints formatted output to a string buffer";
    func "fgets" "stdio.h"
      "Reads a line from a file stream into a buffer";
    func "fputs" "stdio.h"
      "Writes a string to a file stream";
    func "fread" "stdio.h"
      "Reads binary data from a file stream";
    func "fwrite" "stdio.h"
      "Writes binary data to a file stream";
    func "malloc" "stdlib.h"
      "Allocates memory dynamically on the heap";
    func "calloc" "stdlib.h"
      "Allocates memory and initializes it to zero";
    func "realloc" "stdlib.h"
      "Changes the size of previously allocated memory";
    func "free" "stdlib.h"
      "Frees dynamically allocated memory";
    func "strlen" "string.h"
      "Returns the length of a string (excluding null terminator)";
    func "strcmp" "string.h"
      "Compares two strings lexicographically";
    func "strncmp" "string.h"
      "Compares first n characters of two strings";
    func "strcpy" "string.h"
      "Copies a string from source to destination";
    func "strncpy" "string.h"
      "Safely copies up to n characters from source to destination";
    func "strcat" "string.h"
      "Concatenates two strings";
    func "strncat" "string.h"
      "Safely concatenates up to n characters";
    func "strchr" "string.h"
      "Finds the first occurrence of a character in a string";
    func "strstr" "string.h"
      "Finds the first occurrence of a substring in a string";
    func "atoi" "stdlib.h"
      "Converts a string to an integer";
    func "atof" "stdlib.h"
      "Converts a string to a floating point number";
    func "fopen" "stdio.h"
      "Opens a file and returns a FILE pointer";
    func "fclose" "stdio.h"
      "Closes a file stream";
    func "abs" "stdlib.h"
      "Returns the absolute value of an integer";
    func "sqrt" "math.h"
      "Calculates the square root";
    func "pow" "math.h"
      "Calculates x raised to the power of y";
    func "ceil" "math.h"
      "Rounds up to the nearest integer";
    func "floor" "math.h"
      "Rounds down to the nearest integer";
    func "round" "math.h"
      "Rounds to the nearest integer";
    func "isdigit" "ctype.h"
      "Checks if a character is a digit (0-9)";
    func "isalpha" "ctype.h"
      "Checks if a character is alphabetic (a-z, A-Z)";
    func "isalnum" "ctype.h"
      "Checks if a character is alphanumeric";
    func "isspace" "ctype.h"
      "Checks if a character is whitespace";
    func "toupper" "ctype.h"
      "Converts a character to uppercase";
    func "tolower" "ctype.h"
      "Converts a character to lowercase";
    func "memcpy" "string.h"
      "Copies n bytes from source to destination";
    func "memset" "string.h"
      "Sets n bytes of memory to a value";
    func "time" "time.h"
      "Gets the current calendar time";
    func "rand" "stdlib.h"
      "Generates a pseudo-random number";
    func "srand" "stdlib.h"
      "Seeds the random number generator";
    func "exit" "stdlib.h"
      "Terminates the program";
    func "getchar" "stdio.h"
      "Reads a single character from stdin";
    func "putchar" "stdio.h"
      "Writes a single character to stdout";
    func "perror" "stdio.h"
      "Prints error message based on errno" ].

(** The search box of both views, [performSearch]: a blank input shows
    the prompt and sends nothing. *)
Inductive ClientAction :=
| ShowPrompt                         (* the placeholder text *)
| PostSearch (query : jstring).      (* [{command: 'search', query}] *)

Definition performSearch (searchInputValue : jstring) : ClientAction :=
  let query := trim searchInputValue in
  if length query =? 0 then ShowPrompt else PostSearch query.

(** The filter of the side bar view, [_handleWebviewMessage]. *)
Definition matchesSidebar (searchTerm : jstring) (f : LibraryFunction) : bool :=
  (* Search by function name *)
  if negb (length (name f) =? 0) && includes (toLowerCase (name f)) searchTerm then true
  (* Search by header file (e.g., "stdio.h" or just "stdio") *)
  else if negb (length (header f) =? 0) then
    let headerTerm :=
      if endsWith searchTerm (lit ".h") then searchTerm else searchTerm ++ lit ".h" in
    includes (toLowerCase (header f)) headerTerm
    || includes (toLowerCase (header f)) searchTerm
  else false.

(** [_handleWebviewMessage] for a message [{command, query}] with a
    string [query]: the [results] of the [searchResults] message it
    posts, if it posts one. *)
Definition handleWebviewMessage (command query : jstring) : option (list LibraryFunction) :=
  if str_eqb command (lit "search") then
    let searchTerm := trim (toLowerCase query) in
    Some (filter (matchesSidebar searchTerm) LIBRARY_DATABASE)
  else None.

(** The filter of the reference panel, [handleSearchMessage]. *)
Definition matchesPanel (query : jstring) (f : LibraryFunction) : bool :=
  includes (toLowerCase (name f)) query
  || includes (toLowerCase (description f)) query
  || includes (toLowerCase (header f)) query.

(** [handleSearchMessage] for a message [{command, query}] with a string
    [query], the panel being open. *)
Definition handleSearchMessage (command query : jstring) : option (list LibraryFunction) :=
  if str_eqb command (lit "search") && negb (length query =? 0) then
    let query' := trim (toLowerCase query) in
    if length query' =? 0 then None
    else Some (filter (matchesPanel query') LIBRARY_DATABASE)
  else None.

(** Three entries of the catalog. *)
Definition printfEntry : LibraryFunction :=
  func "printf" "stdio.h" "Prints formatted output to stdout".
Definition fprintfEntry : LibraryFunction :=
  func "fprintf" "stdio.h" "Prints formatted output to a file stream".
Definition sprintfEntry : LibraryFunction :=
  func "sprintf" "stdio.h" "Prints formatted output to a string buffer".

End Reference.

Export Reference.

(* ================================================================== *)
(** * A search, end to end *)

(** What a view shows after [performSearch] has run on the text of its
    search box: the prompt, when the script returns at once; the
    [results] of the [searchResults] message that the handler of the view
    posts back for the [search] message of the script; or what was there
    before, when the handler posts nothing. *)
Inductive SearchView :=
| PromptShown
| ResultsShown (results : list LibraryFunction)
| ViewUnchanged.

Definition searchWith (handler : jstring -> jstring -> option (list LibraryFunction))
  (searchInputValue : jstring) : SearchView :=
  match performSearch searchInputValue with
  | ShowPrompt => PromptShown
  | PostSearch query =>
      match handler (lit "search") query with
      | Some results => ResultsShown results
      | None => ViewUnchanged
      end
  end.

(** The side bar view and the reference panel. *)
Definition sidebarSearch : jstring -> SearchView := searchWith handleWebviewMessage.
Definition panelSearch : jstring -> SearchView := searchWith handleSearchMessage.

(* ================================================================== *)
(** * The search command *)
(** [searchReference], the command of the command palette: the entries
    whose lower-cased name holds the lower-cased query are posted to the
    reference panel (opened for it); when there is none, an information
    message names the query instead. *)
Inductive SearchOutcome :=
| PostResults (results : list Reference.LibraryFunction)
| NoFunctionsFound (query : jstring).

Definition searchReference (query : jstring) : SearchOutcome :=
  let results :=
    filter (fun f => includes (toLowerCase (Reference.name f)) (toLowerCase query))
      Reference.LIBRARY_DATABASE in
  if 0 <? length results then PostResults results else NoFunctionsFound query.

(** The command [c-helper.searchReference]: the input box gives a text,
    or nothing when it is dismissed; the search runs for a text that is
    not empty. *)
Definition searchReferenceCommand (input : option jstring) : option SearchOutcome :=
  match input with
  | Some query => if 0 <? length query then Some (searchReference query) else None
  | None => None
  end.

(* ================================================================== *)
(** * Semicolon insertion *)

(** [editBuilder.insert(new Position(line, character), text)] on the
    lines of a document: inside the document the text goes into line
    [line] at column [character] (a column behind the end of the line is
    the end of the line); a position past the last line is moved by the
    editor to the end of the document. *)
Definition applyInsertAt (lines : list jstring) (line character : nat) (text : jstring)
  : list jstring :=
  if line <? length lines then
    let l := nth line lines [] in
    firstn line lines
    ++ split NL (firstn character l ++ text ++ skipn character l)
    ++ skipn (S line) lines
  else
    removelast lines ++ split NL (last lines [] ++ text).

Definition applyEditAt (lines : list jstring) (e : option Edit) : list jstring :=
  match e with
  | Some ed => applyInsertAt lines (insertLine ed) (insertCharacter ed) (insertText ed)
  | None => lines
  end.

(** [addSemicolonIfNeeded(document, lineNum)] on the lines of the
    document: the edit it issues, if any; the semicolon goes to
    [line.range.end]. *)
Definition addSemicolonIfNeeded (isProcessingChange editorShowsDocument : bool)
  (lines : list jstring) (lineNum : Z) : option Edit :=
  if isProcessingChange || (lineNum <? 0)%Z || (Z.of_nat (length lines) <=? lineNum)%Z
  then None
  else if negb editorShowsDocument then None
  else
    let line := nth (Z.to_nat lineNum) lines [] in
    let text := trimEnd line in
    (* Check if this line should have a semicolon added *)
    if shouldAddSemicolon text then
      Some (mkEdit (Z.to_nat lineNum) (length line) (lit ";"))
    else None.

(* ================================================================== *)
(** * The template of a new file *)

Definition TAB : char := 9%N.     (* '\t' *)

(** [initialTemplate] *)
Definition initialTemplate : jstring :=
  lit "#include <stdio.h>" ++ [NL] ++ lit "#include <stdlib.h>" ++ [NL] ++ [NL] ++ [NL]
  ++ lit "int main() {" ++ [NL] ++ [TAB] ++ [NL] ++ [TAB] ++ lit "return 0;" ++ [NL]
  ++ lit "}".

(** [setupNewCFile] and the handler of opened documents: a document
    whose text is blank gets the template at its start. *)
Definition setupNewCFile (text : jstring) : option Edit :=
  if length (trim text) =? 0 then Some (mkEdit 0 0 initialTemplate) else None.

(* ================================================================== *)
(** * Documentation comments *)

(** [(\w+) \s+ (\w+) \s* \( ( [^)]* ) \)] *)
Definition declarationPattern : regex :=
  Seqs [ Group 1 (Plus Word); Plus Space; Group 2 (Plus Word); Star Space;
         Chr (ch "("); Group 3 (Star (NSet [One (ch ")")])); Chr (ch ")") ].

Fixpoint takeWhile (p : char -> bool) (s : jstring) : jstring :=
  match s with
  | c :: s' => if p c then c :: takeWhile p s' else []
  | [] => []
  end.

(** [param.split(/\s+/).pop() || '']: the text behind the last white
    space character. *)
Definition lastPiece (param : jstring) : jstring :=
  rev (takeWhile (fun c => negb (isWhiteSpace c)) (rev param)).

(** [params.split(',').map(p => p.trim()).filter(p => p)] *)
Definition parameterList (params : jstring) : list jstring :=
  filter (fun p => negb (length p =? 0)) (map trim (split (ch ",") params)).

(** The body of the loop over the parameters. *)
Definition paramDoc (documentation param : jstring) : jstring :=
  let paramName := lastPiece param in
  documentation ++ lit " * @param " ++ paramName ++ lit " Description of " ++ paramName
  ++ [NL].

(** The text of the documentation comment. *)
Definition documentationOf (returnType functionName params : jstring) : jstring :=
  let documentation := lit "/**" ++ [NL] in
  let documentation :=
    documentation ++ lit " * @brief Brief description of " ++ functionName ++ [NL] in
  let documentation := documentation ++ lit " *" ++ [NL] in
  let documentation := fold_left paramDoc (parameterList params) documentation in
  let documentation :=
    if negb (str_eqb returnType (lit "void"))
    then documentation ++ lit " * @return Description of return value" ++ [NL]
    else documentation in
  documentation ++ lit " */" ++ [NL].

Inductive DocOutcome :=
| DocNothing                       (* no active editor *)
| DocError (message : jstring)     (* [showErrorMessage] *)
| DocInsert (edit : Edit).

(** [generateFunctionDoc], with the cursor on line [positionLine] of the
    document shown by the active editor. *)
Definition generateFunctionDoc (activeEditor : bool) (lines : list jstring)
  (positionLine : nat) : DocOutcome :=
  if negb activeEditor then DocNothing
  else
    let text := nth positionLine lines [] in
    match exec declarationPattern text 0 with
    | None =>
        DocError (lit "Place cursor on a function declaration to generate documentation")
    | Some (_, functionMatch) =>
        let returnType := group text functionMatch 1 in
        let functionName := group text functionMatch 2 in
        let params := group text functionMatch 3 in
        DocInsert (mkEdit positionLine 0 (documentationOf returnType functionName params))
    end.

(* ================================================================== *)
(** * The handler of document changes *)

(** [\w+ \s* \(] *)
Definition callTypedPattern : regex := Seqs [Plus Word; Star Space; Chr (ch "(")].

(** What the handler asks for. *)
Inductive Request :=
| SemicolonFor (lineNum : nat)   (* [addSemicolonIfNeeded(event.document, lineNum)], after 10 ms *)
| HeadersNow                     (* [autoAddRequiredHeaders(event.document)] *)
| PrototypesLater.               (* the timer of [autoGeneratePrototypes], 1500 ms *)

(** A content change: its text and [change.range.start.line]. *)
Record Change := mkChange {
  changeText : jstring;
  changeStartLine : nat
}.

(** The body of the loop over [event.contentChanges]. *)
Definition requestsOfChange (change : Change) : list Request :=
  (* Handle semicolon insertion on newline *)
  (if includes (changeText change) [NL] then [SemicolonFor (changeStartLine change)] else [])
  (* Auto-add headers when functions are typed *)
  ++ (if test callTypedPattern (changeText change) then [HeadersNow] else []).

(** The handler of [onDidChangeTextDocument]. *)
Definition onDidChangeTextDocument (languageIsC isProcessingChange : bool)
  (contentChanges : list Change) : list Request :=
  if negb languageIsC || isProcessingChange then []
  else flat_map requestsOfChange contentChanges ++ [PrototypesLater].

(* ================================================================== *)
(** * Patterns as sets of words

    For a pattern without assertions the declarative reading depends
    only on the characters it consumes: [Lang r w] says that [r] matches
    exactly the word [w]. *)

(** Patterns without [^], [$], [\b] and look-ahead. *)
Fixpoint plain (r : regex) : bool :=
  match r with
  | Eps | Chr _ | Dot | Set_ _ | NSet _ => true
  | Seq r1 r2 | Alt r1 r2 => plain r1 && plain r2
  | Star r1 | LazyStar r1 | Group _ r1 => plain r1
  | NotAhead _ | Bol | Eol | WordB => false
  end.

(** Patterns without capturing groups. *)
Fixpoint groupFree (r : regex) : bool :=
  match r with
  | Eps | Chr _ | Dot | Set_ _ | NSet _ | Bol | Eol | WordB => true
  | Seq r1 r2 | Alt r1 r2 => groupFree r1 && groupFree r2
  | Star r1 | LazyStar r1 | NotAhead r1 => groupFree r1
  | Group _ _ => false
  end.

Fixpoint Lang (r : regex) (w : jstring) : Prop :=
  match r with
  | Eps => w = []
  | Chr a => w = [a]
  | Dot => exists x, w = [x] /\ isLineTerminator x = false
  | Set_ items => exists x, w = [x] /\ class_matches items x = true
  | NSet items => exists x, w = [x] /\ class_matches items x = false
  | Seq r1 r2 => exists w1 w2, w = w1 ++ w2 /\ Lang r1 w1 /\ Lang r2 w2
  | Alt r1 r2 => Lang r1 w \/ Lang r2 w
  | Star r1 | LazyStar r1 =>
      exists ws, w = concat ws /\ Forall (fun v => Lang r1 v /\ v <> []) ws
  | Group _ r1 => Lang r1 w
  | NotAhead _ | Bol | Eol | WordB => False
  end.

(* ================================================================== *)
(** * Predicates of the statements *)

(** The type keywords of a function definition, and the first character
    of an identifier. *)
Definition typeKeywords : list jstring :=
  [ lit "int"; lit "void"; lit "char"; lit "float"; lit "double"; lit "long";
    lit "short"; lit "unsigned"; lit "signed" ].

Definition isIdentStart (c : char) : bool :=
  class_matches
    [RegExp.Range (ch "a") (ch "z"); RegExp.Range (ch "A") (ch "Z"); One (ch "_")] c.

(** The shape of a synthesized prototype: a type keyword, one blank, an
    identifier other than main, and a parameter list without a closing
    parenthesis, closed by a parenthesis and a semicolon. *)
Definition PrototypeShape (f : FoundFunction) : Prop :=
  exists kw x nm params,
    In kw typeKeywords /\
    Prototypes.name f = x :: nm /\ isIdentStart x = true /\
    Forall (fun y => isWordChar y = true) nm /\
    Prototypes.name f <> lit "main" /\
    ~ In (ch ")") params /\
    prototype f = kw ++ lit " " ++ Prototypes.name f ++ lit "(" ++ params ++ lit ");".

(** A diagnostic that marks a non-empty range of the line [line], which
    is line number [ln]. *)
Definition inLine (line : jstring) (ln : Z) (d : Diagnostic) : Prop :=
  startLine (range d) = ln /\ endLine (range d) = ln /\
  (0 <= startCharacter (range d) < endCharacter (range d))%Z /\
  (endCharacter (range d) <= len line)%Z.

(** The names of the allocators that [checkMemoryAllocation] looks for. *)
Definition allocators : list jstring := [lit "malloc"; lit "calloc"; lit "realloc"].

(** The lines of the template in front of its closing brace. *)
Definition templateLines : list jstring :=
  [ lit "#include <stdio.h>"; lit "#include <stdlib.h>"; []; []; lit "int main() {";
    [TAB]; TAB :: lit "return 0;" ].

(** The lines behind the lines of the template, when the template was
    put in front of a blank text: the closing brace followed by white
    space, and white space. *)
Definition braceOrBlank (l : jstring) : Prop :=
  exists a b, l = a ++ b /\ (a = [] \/ a = lit "}") /\
    Forall (fun x => isWhiteSpace x = true) b.

(** The lines of the documentation comment. *)
Definition documentationLines (returnType functionName params : jstring) : list jstring :=
  [ lit "/**"; lit " * @brief Brief description of " ++ functionName; lit " *" ]
  ++ map (fun param => lit " * @param " ++ lastPiece param ++ lit " Description of "
                       ++ lastPiece param) (parameterList params)
  ++ (if negb (str_eqb returnType (lit "void"))
      then [lit " * @return Description of return value"] else [])
  ++ [ lit " */" ].

(* ================================================================== *)
(** * Properties of the string operations *)

Section StringFacts.

Lemma char_eqb_eq (a b : char) : char_eqb a b = true <-> a = b.
Proof. apply N.eqb_eq. Qed.

Lemma char_eqb_refl (a : char) : char_eqb a a = true.
Proof. apply N.eqb_refl. Qed.

Lemma str_eqb_eq (a b : jstring) : str_eqb a b = true <-> a = b.
Proof.
  revert b; induction a as [|x a IH]; intros [|y b]; simpl; split; intros H;
    try reflexivity; try discriminate.
  - apply andb_true_iff in H as [H1 H2].
    apply char_eqb_eq in H1. apply IH in H2. congruence.
  - injection H as -> ->. rewrite char_eqb_refl. simpl. now apply IH.
Qed.

Lemma str_eqb_refl (a : jstring) : str_eqb a a = true.
Proof. now apply str_eqb_eq. Qed.

Lemma startsWith_app (p t : jstring) : startsWith (p ++ t) p = true.
Proof.
  induction p as [|x p IH]; simpl.
  - reflexivity.
  - now rewrite char_eqb_refl.
Qed.

Lemma startsWith_spec (s p : jstring) :
  startsWith s p = true <-> exists t, s = p ++ t.
Proof.
  split.
  - revert s; induction p as [|x p IH]; intros s H.
    + now exists s.
    + destruct s as [|y s]; simpl in H; [discriminate|].
      apply andb_true_iff in H as [H1 H2].
      apply char_eqb_eq in H1; subst y.
      destruct (IH _ H2) as [t ->]. now exists t.
  - intros [t ->]. apply startsWith_app.
Qed.

Lemma startsWith_nil (s : jstring) : startsWith s [] = true.
Proof. now destruct s. Qed.

Lemma includes_spec (s p : jstring) :
  includes s p = true <-> exists a b, s = a ++ p ++ b.
Proof.
  split.
  - induction s as [|x s IH]; simpl; intros H.
    + rewrite orb_false_r in H. apply startsWith_spec in H as [t Ht].
      now exists [], t.
    + apply orb_true_iff in H as [H|H].
      * apply startsWith_spec in H as [t Ht]. now exists [], t.
      * destruct (IH H) as (a & b & ->). now exists (x :: a), b.
  - intros (a & b & ->). induction a as [|x a IH].
    + simpl app. destruct (p ++ b) eqn:E; simpl; rewrite <- E, startsWith_app;
        reflexivity.
    + simpl. rewrite IH. apply orb_true_r.
Qed.

Lemma includes_nil (s : jstring) : includes s [] = true.
Proof. apply includes_spec. now exists [], s. Qed.

(** [indexOf] finds an occurrence; nothing occurs before it. *)
Lemma indexOfFrom_spec (s p : jstring) (i : Z) :
  (indexOfFrom s p i = -1 /\ includes s p = false)%Z \/
  (exists a b, s = a ++ p ++ b /\ indexOfFrom s p i = (i + Z.of_nat (length a))%Z /\
     forall a' b', s = a' ++ p ++ b' -> length a <= length a').
Proof.
  revert i; induction s as [|x s IH]; intros i; simpl.
  - destruct (startsWith [] p) eqn:E.
    + right. apply startsWith_spec in E as [t Ht]. exists [], t. simpl.
      repeat split; auto; [lia | intros; lia].
    + left. now rewrite orb_false_r.
  - destruct (startsWith (x :: s) p) eqn:E.
    + right. apply startsWith_spec in E as [t Ht]. exists [], t. simpl.
      repeat split; auto; [lia | intros; lia].
    + destruct (IH (i + 1)%Z) as [[H1 H2]|(a & b & H1 & H2 & H3)].
      * left. now rewrite H2.
      * right. exists (x :: a), b. subst s. repeat split; auto.
        -- rewrite H2. simpl length. lia.
        -- intros a' b' Ha'. destruct a' as [|y a'].
           ++ simpl in Ha'. exfalso.
              assert (startsWith (x :: a ++ p ++ b) p = true)
                by (apply startsWith_spec; now exists b').
              congruence.
           ++ simpl in Ha'. injection Ha' as _ Ha'.
              specialize (H3 _ _ Ha'). simpl. lia.
Qed.

Lemma indexOf_spec (s p : jstring) :
  (indexOf s p = -1 /\ includes s p = false)%Z \/
  (exists a b, s = a ++ p ++ b /\ indexOf s p = Z.of_nat (length a) /\
     forall a' b', s = a' ++ p ++ b' -> length a <= length a').
Proof.
  unfold indexOf. destruct (indexOfFrom_spec s p 0) as [H|(a & b & H1 & H2 & H3)].
  - now left.
  - right. exists a, b. repeat split; auto.
Qed.

Lemma indexOf_found (s p : jstring) :
  includes s p = true ->
  exists a b, s = a ++ p ++ b /\ indexOf s p = Z.of_nat (length a) /\
     forall a' b', s = a' ++ p ++ b' -> length a <= length a'.
Proof.
  intros H. destruct (indexOf_spec s p) as [[_ H1]|H1]; [congruence|assumption].
Qed.

Lemma indexOf_absent (s p : jstring) :
  indexOf s p = (-1)%Z <-> includes s p = false.
Proof.
  destruct (indexOf_spec s p) as [[H1 H2]|(a & b & H1 & H2 & H3)].
  - tauto.
  - split; intros H.
    + lia.
    + assert (includes s p = true) by (apply includes_spec; eauto). congruence.
Qed.

Lemma indexOf_nonneg (s p : jstring) : (-1 <= indexOf s p)%Z.
Proof.
  destruct (indexOf_spec s p) as [[H1 H2]|(a & b & H1 & H2 & H3)]; lia.
Qed.

Lemma substr_app (a p b : jstring) :
  substr (a ++ p ++ b) (length a) (length a + length p) = p.
Proof.
  unfold substr. rewrite skipn_app, skipn_all, Nat.sub_diag. simpl.
  replace (length a + length p - length a) with (length p) by lia.
  rewrite firstn_app, firstn_all, Nat.sub_diag. simpl. apply app_nil_r.
Qed.

Lemma endsWith_spec (s p : jstring) :
  endsWith s p = true <-> exists t, s = t ++ p.
Proof.
  unfold endsWith. rewrite startsWith_spec. split.
  - intros [t Ht]. exists (rev t).
    rewrite <- (rev_involutive s), Ht, rev_app_distr, rev_involutive. reflexivity.
  - intros [t ->]. exists (rev t). apply rev_app_distr.
Qed.

End StringFacts.

(* ================================================================== *)
(** * Lower case *)

Ltac bprop H :=
  repeat (rewrite orb_true_iff in H || rewrite andb_true_iff in H
          || rewrite orb_false_iff in H || rewrite andb_false_iff in H
          || rewrite N.leb_le in H || rewrite N.leb_gt in H
          || rewrite N.eqb_eq in H || rewrite N.eqb_neq in H).

Section LowerCaseFacts.

(** The model on some strings: the Kelvin sign, the dotted capital I, a
    sigma at the end of a word and inside one, a letter outside the
    Basic Multilingual Plane. *)
Lemma toLowerCase_samples :
  toLowerCase (lit "Printf") = lit "printf" /\
  toLowerCase [8490]%N = lit "k" /\
  toLowerCase [304]%N = [105; 775]%N /\
  toLowerCase [927; 916; 931]%N = [959; 948; 962]%N /\
  toLowerCase [931]%N = [963]%N /\
  toLowerCase [65; 931; 46; 66]%N = [97; 963; 46; 98]%N /\
  toLowerCase [65; 46; 931; 32; 66]%N = [97; 46; 962; 32; 98]%N /\
  toLowerCase [55297; 56320]%N = [55297; 56360]%N /\
  toLowerCase [7838]%N = [223]%N.
Proof. vm_compute. repeat split. Qed.

Lemma whiteSpace_cases (c : char) :
  isWhiteSpace c = true ->
  In c [9; 10; 11; 12; 13; 32; 160; 5760; 8192; 8193; 8194; 8195; 8196; 8197;
        8198; 8199; 8200; 8201; 8202; 8232; 8233; 8239; 8287; 12288; 65279]%N.
Proof.
  intros H. unfold isWhiteSpace in H. bprop H. unfold char in *. simpl. lia.
Qed.

(** White space has no case: it is no surrogate, it is its own lower
    case, it is no cased letter, and it is one code unit. *)
Lemma whiteSpace_caseless (c : char) :
  isWhiteSpace c = true ->
  isLeadSurrogate c = false /\ isTrailSurrogate c = false /\
  (forall before after, lowerCodePoint before after c = [c]) /\
  isCaseIgnorable c || negb (isCased c) = true /\
  codeUnits c = [c].
Proof.
  intros H. apply whiteSpace_cases in H. simpl in H.
  repeat (destruct H as [<- | H]; [vm_compute; repeat split|]).
  contradiction.
Qed.

Lemma blank_not_followed (ws : list N) : Forall (fun x => isWhiteSpace x = true) ws -> followedByCasedLetter ws = false.
Proof.
  induction 1 as [|c ws Hc _ IH]; simpl; [reflexivity|].
  destruct (whiteSpace_caseless c Hc) as (_ & _ & _ & H & _).
  destruct (isCaseIgnorable c); [exact IH|].
  simpl in H. now destruct (isCased c).
Qed.

Lemma followedByCasedLetter_blank_suffix (l ws : list N) :
  Forall (fun x => isWhiteSpace x = true) ws -> followedByCasedLetter (l ++ ws) = followedByCasedLetter l.
Proof.
  intros H. induction l as [|c l IH]; simpl.
  - now apply blank_not_followed.
  - now rewrite IH.
Qed.

(** The text in front matters only through the final-sigma condition. *)
Lemma lowerFrom_ext (l b1 b2 : list N) :
  followedByCasedLetter b1 = followedByCasedLetter b2 -> lowerFrom b1 l = lowerFrom b2 l.
Proof.
  revert b1 b2. induction l as [|c l IH]; intros b1 b2 H; simpl; [reflexivity|].
  unfold lowerCodePoint, isFinalSigma. rewrite H. f_equal.
  apply IH. simpl. now rewrite H.
Qed.

Lemma lowerFrom_blank (ws before : list N) : Forall (fun x => isWhiteSpace x = true) ws -> lowerFrom before ws = ws.
Proof.
  intros H. revert before. induction H as [|c ws Hc _ IH]; intros before; simpl; [reflexivity|].
  destruct (whiteSpace_caseless c Hc) as (_ & _ & E & _).
  now rewrite E, IH.
Qed.

Lemma lowerFrom_blank_prefix (ws l before : list N) :
  Forall (fun x => isWhiteSpace x = true) ws -> followedByCasedLetter before = false ->
  lowerFrom before (ws ++ l) = ws ++ lowerFrom before l.
Proof.
  unfold char in *.
  intros H. revert before. induction H as [|c ws Hc Hws IH]; intros before Hb;
    [reflexivity|]. cbn [app lowerFrom].
  destruct (whiteSpace_caseless c Hc) as (_ & _ & E & Hcase & _).
  assert (Hcb : followedByCasedLetter (c :: before) = false).
  { simpl. destruct (isCaseIgnorable c); [exact Hb|]. simpl in Hcase.
    now destruct (isCased c). }
  rewrite E, (IH _ Hcb). cbn [app]. f_equal. f_equal.
  apply lowerFrom_ext. now rewrite Hcb, Hb.
Qed.

Lemma lowerFrom_blank_suffix (l ws before : list N) :
  Forall (fun x => isWhiteSpace x = true) ws -> lowerFrom before (l ++ ws) = lowerFrom before l ++ ws.
Proof.
  intros H. revert before. induction l as [|c l IH]; intros before; simpl.
  - now apply lowerFrom_blank.
  - rewrite IH, <- app_assoc. f_equal.
    unfold lowerCodePoint, isFinalSigma.
    now rewrite (followedByCasedLetter_blank_suffix l ws H).
Qed.

Lemma lowerFrom_app (l1 l2 before : list N) :
  exists x, lowerFrom before (l1 ++ l2) = x ++ lowerFrom (rev l1 ++ before) l2.
Proof.
  revert before. induction l1 as [|c l1 IH]; intros before; simpl.
  - now exists [].
  - destruct (IH (c :: before)) as [x Hx]. rewrite Hx.
    exists (lowerCodePoint before (l1 ++ l2) c ++ x).
    now rewrite <- !app_assoc.
Qed.

Lemma codePoints_pair (c d : char) (t : jstring) :
  codePoints (c :: d :: t)
  = if isLeadSurrogate c && isTrailSurrogate d
    then surrogatePair c d :: codePoints t
    else c :: codePoints (d :: t).
Proof. reflexivity. Qed.

Lemma codePoints_cons (c : char) (t : jstring) :
  isLeadSurrogate c = false -> codePoints (c :: t) = c :: codePoints t.
Proof.
  intros H. destruct t as [|d t]; [reflexivity|]. now rewrite codePoints_pair, H.
Qed.

Lemma codePoints_blank_prefix (ws s : jstring) :
  Forall (fun x => isWhiteSpace x = true) ws -> codePoints (ws ++ s) = ws ++ codePoints s.
Proof.
  induction 1 as [|c ws Hc _ IH]; [reflexivity|].
  destruct (whiteSpace_caseless c Hc) as (E & _).
  simpl app. now rewrite (codePoints_cons c _ E), IH.
Qed.

Lemma codePoints_blank (ws : jstring) : Forall (fun x => isWhiteSpace x = true) ws -> codePoints ws = ws.
Proof.
  intros H. rewrite <- (app_nil_r ws) at 1.
  rewrite (codePoints_blank_prefix ws [] H). apply app_nil_r.
Qed.

(** A string may be cut in front of any code unit that is no trail
    surrogate. *)
Lemma codePoints_app (s t : jstring) :
  match t with d :: _ => isTrailSurrogate d | [] => false end = false ->
  codePoints (s ++ t) = codePoints s ++ codePoints t.
Proof.
  intros Ht.
  assert (H : forall n s, length s <= n -> codePoints (s ++ t) = codePoints s ++ codePoints t).
  { induction n as [|n IH]; intros u Hn.
    - destruct u; [reflexivity|simpl in Hn; lia].
    - destruct u as [|c [|d u]]; [reflexivity| |].
      + destruct t as [|d t]; [reflexivity|].
        cbn [app]. rewrite codePoints_pair, Ht, andb_false_r. reflexivity.
      + cbn [app]. rewrite !codePoints_pair.
        destruct (isLeadSurrogate c && isTrailSurrogate d).
        * rewrite (IH u) by (cbn [length] in Hn; lia). reflexivity.
        * change (d :: u ++ t) with ((d :: u) ++ t).
          rewrite (IH (d :: u)) by (cbn [length] in *; lia). reflexivity. }
  now apply (H (length s)).
Qed.

Lemma astral_not_whiteSpace (c : N) : (65536 <= c)%N -> isWhiteSpace c = false.
Proof.
  intros H. destruct (isWhiteSpace c) eqn:E; [exfalso|reflexivity].
  unfold isWhiteSpace in E. bprop E. lia.
Qed.

Lemma surrogatePair_not_whiteSpace (c d : char) : isWhiteSpace (surrogatePair c d) = false.
Proof. apply astral_not_whiteSpace. unfold surrogatePair. lia. Qed.

Lemma codePoints_head (c : char) (t : jstring) :
  isWhiteSpace c = false ->
  exists p l, codePoints (c :: t) = p :: l /\ isWhiteSpace p = false.
Proof.
  intros Hc. destruct t as [|d t]; [now exists c, []|].
  rewrite codePoints_pair. destruct (_ && _).
  - exists (surrogatePair c d), (codePoints t).
    split; [reflexivity|apply surrogatePair_not_whiteSpace].
  - now exists c, (codePoints (d :: t)).
Qed.

Lemma codePoints_last (s : jstring) (c : char) :
  isWhiteSpace c = false ->
  exists l p, codePoints (s ++ [c]) = l ++ [p] /\ isWhiteSpace p = false.
Proof.
  intros Hc.
  assert (H : forall n s, length s <= n ->
              exists l p, codePoints (s ++ [c]) = l ++ [p] /\ isWhiteSpace p = false).
  { induction n as [|n IH]; intros u Hn.
    - destruct u; [now exists [], c|simpl in Hn; lia].
    - destruct u as [|a [|d u]]; [now exists [], c| |].
      + cbn [app]. rewrite codePoints_pair. destruct (_ && _).
        * exists [], (surrogatePair a c).
          split; [reflexivity|apply surrogatePair_not_whiteSpace].
        * now exists [a], c.
      + cbn [app]. rewrite codePoints_pair. destruct (_ && _).
        * destruct (IH u) as (l & p & E & Hp); [cbn [length] in Hn; lia|].
          rewrite E. exists (surrogatePair a d :: l), p. now split.
        * destruct (IH (d :: u)) as (l & p & E & Hp); [cbn [length] in *; lia|].
          cbn [app] in E. rewrite E. exists (a :: l), p. now split. }
  now apply (H (length s)).
Qed.

(** A range of code points that lies off every white-space character. *)
Lemma range_not_whiteSpace (a b x : N) :
  forallb (fun '(p, q) => (b <? p) || (q <? a))%N
    [(9, 13); (32, 32); (160, 160); (5760, 5760); (8192, 8202); (8232, 8232);
     (8233, 8233); (8239, 8239); (8287, 8287); (12288, 12288); (65279, 65279)]%N = true ->
  (a <= x <= b)%N -> isWhiteSpace x = false.
Proof.
  intros H Hx. cbn [forallb] in H.
  repeat (apply andb_true_iff in H as [?H H]).
  destruct (isWhiteSpace x) eqn:E; [exfalso|reflexivity].
  unfold isWhiteSpace in E. bprop E.
  repeat (destruct E as [E|E]);
    match goal with
    | K : (_ <? ?p)%N || (_ <? _)%N = true |- _ =>
        apply orb_true_iff in K; rewrite !N.ltb_lt in K;
        solve [unfold char in *; lia]
    end.
Qed.

(** Every lower-case mapping yields a code point that is no white
    space. *)
Lemma lower_targets :
  forallb (fun '(lo, hi, _, target) =>
             let last := target + (hi - lo) in
             (last <=? 1114111) &&
             forallb (fun '(p, q) => (last <? p) || (q <? target))
               [(9, 13); (32, 32); (160, 160); (5760, 5760); (8192, 8202);
                (8232, 8232); (8233, 8233); (8239, 8239); (8287, 8287);
                (12288, 12288); (65279, 65279)])%N
    LOWERCASE_MAPPING = true.
Proof. vm_compute. reflexivity. Qed.

Lemma simpleLower_cases (c : N) :
  simpleLower c = c \/
  (isWhiteSpace (simpleLower c) = false /\ (simpleLower c <= 1114111)%N).
Proof.
  unfold simpleLower. generalize lower_targets.
  induction LOWERCASE_MAPPING as [|[[[lo hi] step] target] table IH]; [now left|].
  intros H. cbn [forallb] in H. apply andb_true_iff in H as [He Ht].
  cbn [lookupLower].
  destruct (c <? lo)%N eqn:E1; [now left|].
  destruct (c <=? hi)%N eqn:E2; [|exact (IH Ht)].
  destruct (_ =? 0)%N; [|now left].
  right. apply N.ltb_ge in E1. apply N.leb_le in E2.
  cbv zeta in He. apply andb_true_iff in He as [Hmax Hws].
  apply N.leb_le in Hmax. split; [|lia].
  apply (range_not_whiteSpace target (target + (hi - lo))%N); [exact Hws|lia].
Qed.

(** The code units of a code point that is no white space start and end
    with a code unit that is no white space. *)
Lemma codeUnits_ends (c : N) :
  isWhiteSpace c = false ->
  exists x u y,
    codeUnits c = x :: u /\ codeUnits c = removelast (x :: u) ++ [y] /\
    isWhiteSpace x = false /\ isWhiteSpace y = false.
Proof.
  intros Hc. unfold codeUnits.
  destruct (c <? 65536)%N; [now exists c, [], c|].
  destruct (c <=? 1114111)%N eqn:E; [|now exists c, [], c].
  apply N.leb_le in E.
  assert (H1 : ((c - 65536) / 1024 < 1024)%N) by (apply N.Div0.div_lt_upper_bound; lia).
  assert (H2 : ((c - 65536) mod 1024 < 1024)%N) by (apply N.mod_upper_bound; lia).
  eexists _, _, _. split; [reflexivity|]. split; [reflexivity|].
  split; [apply (range_not_whiteSpace 55296 56319)|apply (range_not_whiteSpace 56320 57343)].
  - reflexivity.
  - revert H1. generalize ((c - 65536) / 1024)%N. intros q Hq. lia.
  - reflexivity.
  - revert H2. generalize ((c - 65536) mod 1024)%N. intros r Hr. lia.
Qed.

(** The code units of a lowered code point start and end with a code
    unit that is no white space. *)
Lemma lowerCodePoint_ends (before after : list N) (c : N) :
  isWhiteSpace c = false ->
  exists x u y,
    flat_map codeUnits (lowerCodePoint before after c) = x :: u /\
    flat_map codeUnits (lowerCodePoint before after c) = removelast (x :: u) ++ [y] /\
    isWhiteSpace x = false /\ isWhiteSpace y = false.
Proof.
  intros Hc. unfold lowerCodePoint.
  destruct (c =? 931)%N.
  { destruct (isFinalSigma before after); now eexists _, _, _. }
  destruct (c =? 304)%N; [now eexists _, _, _|].
  cbn [flat_map]. rewrite app_nil_r. apply codeUnits_ends.
  destruct (simpleLower_cases c) as [E | [Hw _]]; [now rewrite E|exact Hw].
Qed.

(** ** Lower case and white space *)

Lemma flat_map_codeUnits_blank (ws : list N) :
  Forall (fun x => isWhiteSpace x = true) ws -> flat_map codeUnits ws = ws.
Proof.
  induction 1 as [|c ws Hc _ IH]; [reflexivity|].
  destruct (whiteSpace_caseless c Hc) as (_ & _ & _ & _ & E).
  cbn [flat_map]. now rewrite E, IH.
Qed.

Lemma toLowerCase_blank_prefix (ws s : jstring) :
  Forall (fun x => isWhiteSpace x = true) ws -> toLowerCase (ws ++ s) = ws ++ toLowerCase s.
Proof.
  intros H. unfold toLowerCase.
  rewrite (codePoints_blank_prefix ws s H).
  rewrite (lowerFrom_blank_prefix ws _ [] H eq_refl).
  rewrite flat_map_app. now rewrite (flat_map_codeUnits_blank ws H).
Qed.

Lemma toLowerCase_blank_suffix (s ws : jstring) :
  Forall (fun x => isWhiteSpace x = true) ws -> toLowerCase (s ++ ws) = toLowerCase s ++ ws.
Proof.
  intros H. unfold toLowerCase. rewrite codePoints_app.
  - rewrite (codePoints_blank ws H), (lowerFrom_blank_suffix _ ws [] H).
    rewrite flat_map_app. now rewrite (flat_map_codeUnits_blank ws H).
  - destruct H as [|c ws Hc _]; [reflexivity|].
    now destruct (whiteSpace_caseless c Hc) as (_ & E & _).
Qed.

(** The lower case of a text that starts with a character that is no
    white space starts with one. *)
Lemma toLowerCase_head (c : char) (t : jstring) :
  isWhiteSpace c = false ->
  exists x u, toLowerCase (c :: t) = x :: u /\ isWhiteSpace x = false.
Proof.
  intros Hc. unfold toLowerCase.
  destruct (codePoints_head c t Hc) as (p & l & E & Hp). rewrite E.
  cbn [lowerFrom]. rewrite flat_map_app.
  destruct (lowerCodePoint_ends [] l p Hp) as (x & u & _ & Ex & _ & Hx & _).
  rewrite Ex. now exists x, (u ++ flat_map codeUnits (lowerFrom [p] l)).
Qed.

(** The lower case of a text that ends with a character that is no
    white space ends with one. *)
Lemma toLowerCase_last (s : jstring) (c : char) :
  isWhiteSpace c = false ->
  exists u y, toLowerCase (s ++ [c]) = u ++ [y] /\ isWhiteSpace y = false.
Proof.
  intros Hc. unfold toLowerCase.
  destruct (codePoints_last s c Hc) as (l & p & E & Hp). rewrite E.
  destruct (lowerFrom_app l [p] []) as [z Ez]. rewrite Ez.
  cbn [lowerFrom]. rewrite app_nil_r, flat_map_app.
  destruct (lowerCodePoint_ends (rev l ++ []) [] p Hp) as (x & u & y & _ & Ey & _ & Hy).
  rewrite Ey. exists (flat_map codeUnits z ++ removelast (x :: u)), y.
  now rewrite app_assoc.
Qed.

(** Only the empty text has an empty lower case. *)
Lemma toLowerCase_nil (s : jstring) : toLowerCase s = [] -> s = [].
Proof.
  destruct s as [|c t]; [reflexivity|]. unfold toLowerCase.
  assert (E : exists p l, codePoints (c :: t) = p :: l).
  { destruct t as [|d t]; [now exists c, []|]. rewrite codePoints_pair.
    destruct (_ && _); now eexists _, _. }
  destruct E as (p & l & ->). cbn [lowerFrom]. rewrite flat_map_app.
  intros H. apply app_eq_nil in H as [H _]. exfalso. revert H.
  unfold lowerCodePoint.
  destruct (p =? 931)%N; [destruct (isFinalSigma [] l); discriminate|].
  destruct (p =? 304)%N; [discriminate|].
  cbn [flat_map]. unfold codeUnits.
  destruct (_ <? _)%N; [discriminate|]. destruct (_ <=? _)%N; discriminate.
Qed.

Lemma trimStart_first (s : jstring) :
  match trimStart s with x :: _ => isWhiteSpace x = false | [] => True end.
Proof.
  induction s as [|c s IH]; simpl; [exact I|].
  destruct (isWhiteSpace c) eqn:E; [exact IH|exact E].
Qed.

Lemma trimStart_decomp (s : jstring) :
  exists a, s = a ++ trimStart s /\ Forall (fun x => isWhiteSpace x = true) a.
Proof.
  induction s as [|c s (a & Hs & Ha)]; simpl.
  - exists []. split; [reflexivity|constructor].
  - destruct (isWhiteSpace c) eqn:E.
    + exists (c :: a). split; [simpl; now rewrite <- Hs|now constructor].
    + exists []. split; [reflexivity|constructor].
Qed.

Lemma trimStart_blank_prefix (a s : jstring) :
  Forall (fun x => isWhiteSpace x = true) a -> trimStart (a ++ s) = trimStart s.
Proof.
  intros Ha. induction Ha as [|x a Hx _ IH]; simpl; [reflexivity|]. now rewrite Hx.
Qed.

Lemma trimStart_toLowerCase (s : jstring) :
  trimStart (toLowerCase s) = toLowerCase (trimStart s).
Proof.
  destruct (trimStart_decomp s) as (a & Hs & Ha).
  rewrite Hs at 1. rewrite (toLowerCase_blank_prefix a _ Ha), (trimStart_blank_prefix a _ Ha).
  pose proof (trimStart_first s) as H.
  destruct (trimStart s) as [|x t]; [reflexivity|].
  destruct (toLowerCase_head x t H) as (y & u & E & Hy).
  rewrite E. simpl. now rewrite Hy.
Qed.

Lemma trimEnd_toLowerCase (s : jstring) :
  trimEnd (toLowerCase s) = toLowerCase (trimEnd s).
Proof.
  destruct (trimStart_decomp (rev s)) as (a & Hs & Ha).
  assert (Es : s = trimEnd s ++ rev a).
  { unfold trimEnd. rewrite <- rev_app_distr, <- Hs. symmetry. apply rev_involutive. }
  assert (Hb : Forall (fun x => isWhiteSpace x = true) (rev a)) by now apply Forall_rev.
  rewrite Es at 1. rewrite (toLowerCase_blank_suffix _ _ Hb).
  unfold trimEnd at 1. rewrite rev_app_distr, rev_involutive, (trimStart_blank_prefix a _ Ha).
  pose proof (trimStart_first (rev s)) as H. unfold trimEnd.
  destruct (trimStart (rev s)) as [|x t]; [reflexivity|].
  cbn [rev]. destruct (toLowerCase_last (rev t) x H) as (u & y & E & Hy).
  rewrite E, rev_app_distr. simpl. rewrite Hy. simpl. now rewrite rev_involutive.
Qed.

(** Lower-casing and trimming commute. *)
Lemma trim_toLowerCase (s : jstring) : trim (toLowerCase s) = toLowerCase (trim s).
Proof. unfold trim. now rewrite trimStart_toLowerCase, trimEnd_toLowerCase. Qed.

Lemma toLowerCase_blank (s : jstring) :
  forallb isWhiteSpace s = true -> toLowerCase s = s.
Proof.
  intros H. assert (Hs : Forall (fun x => isWhiteSpace x = true) s).
  { apply Forall_forall. now apply forallb_forall. }
  rewrite <- (app_nil_r s) at 1. rewrite (toLowerCase_blank_prefix s [] Hs).
  apply app_nil_r.
Qed.

End LowerCaseFacts.

(* ================================================================== *)
(** * What the matcher computes

    [Matches s r i c j c'] is the declarative reading of a pattern: [r]
    matches the characters of [s] from index [i] up to [j] and turns the
    captures [c] into [c'].  The backtracking matcher finds a match
    exactly when there is one. *)

Section MatcherFacts.

Variable s : jstring.

Lemma charAt_lt (i : nat) (x : char) : charAt s i = Some x -> i < length s.
Proof. intros H. apply nth_error_Some. unfold charAt in H. congruence. Qed.

Lemma Rounds_bounds R n :
  (forall i c j c', R i c j c' -> i <= j /\ (i < j -> j <= length s)) ->
  forall i c j c', Rounds R n i c j c' ->
    i + n <= j /\ (i < j -> j <= length s).
Proof.
  intros HR. induction n as [|n IH]; simpl; intros i c j c' H.
  - destruct H as [-> ->]. lia.
  - destruct H as (j1 & c1 & H1 & H2 & H3).
    apply HR in H1. apply IH in H3. lia.
Qed.

(** A match moves forward, and one that consumes something ends inside
    the string. *)
Lemma Matches_bounds (r : regex) :
  forall i c j c', Matches s r i c j c' -> i <= j /\ (i < j -> j <= length s).
Proof.
  induction r as [|a| |items|items|r1 IHr1 r2 IHr2|r1 IHr1 r2 IHr2|r IHr|r IHr|g r IHr|r IHr| | | ]; simpl; intros i c j c' H;
    try (destruct H as (x & Hx & _ & -> & _); apply charAt_lt in Hx; lia);
    try (destruct H as (_ & -> & _); lia).
  - destruct H as [-> _]. lia.
  - destruct H as (j1 & c1 & H1 & H2). apply IHr1 in H1. apply IHr2 in H2. lia.
  - destruct H as [H|H]; [apply IHr1 in H | apply IHr2 in H]; lia.
  - destruct H as [n H]. apply (@Rounds_bounds _ n IHr) in H. lia.
  - destruct H as [n H]. apply (@Rounds_bounds _ n IHr) in H. lia.
  - destruct H as (c1 & H & _). now apply IHr in H.
Qed.

Lemma step_sound p : Sound (step s p) (StepTo s p).
Proof.
  intros k i c res H. unfold step in H.
  destruct (charAt s i) as [x|] eqn:E; [|discriminate].
  destruct (p x) eqn:Ep; [|discriminate].
  exists (S i), c. split; [|assumption]. now exists x.
Qed.

Lemma step_complete p : Complete (step s p) (StepTo s p).
Proof.
  intros k i c j c' (x & Hx & Hp & -> & ->) Hk. unfold step. now rewrite Hx, Hp.
Qed.

Lemma iterStar_sound mr R k N :
  Sound mr R ->
  forall i c res, iterStar mr k N i c = Some res ->
    exists n j c', Rounds R n i c j c' /\ k j c' = Some res.
Proof.
  intros Hmr. induction N as [|N IH]; simpl; intros i c res H.
  - exists 0, i, c. simpl. auto.
  - destruct (mr _ i c) as [res'|] eqn:E.
    + injection H as ->. apply Hmr in E as (j1 & c1 & H1 & H2).
      destruct (i <? j1) eqn:Elt; [|discriminate].
      apply Nat.ltb_lt in Elt.
      apply IH in H2 as (n & j & c' & H2 & H3).
      exists (S n), j, c'. split; [|assumption]. simpl. eauto 6.
    + exists 0, i, c. simpl. auto.
Qed.

Lemma iterLazy_sound mr R k N :
  Sound mr R ->
  forall i c res, iterLazy mr k N i c = Some res ->
    exists n j c', Rounds R n i c j c' /\ k j c' = Some res.
Proof.
  intros Hmr. induction N as [|N IH]; simpl; intros i c res H.
  - exists 0, i, c. simpl. auto.
  - destruct (k i c) as [res'|] eqn:E.
    + injection H as ->. exists 0, i, c. simpl. auto.
    + apply Hmr in H as (j1 & c1 & H1 & H2).
      destruct (i <? j1) eqn:Elt; [|discriminate].
      apply Nat.ltb_lt in Elt.
      apply IH in H2 as (n & j & c' & H2 & H3).
      exists (S n), j, c'. split; [|assumption]. simpl. eauto 6.
Qed.

Lemma iterStar_complete mr R k :
  Complete mr R ->
  forall n N i c j c', Rounds R n i c j c' -> n < N -> k j c' <> None ->
    iterStar mr k N i c <> None.
Proof.
  intros Hmr. induction n as [|n IH]; intros N i c j c' H HN Hk.
  - destruct H as [-> ->]. destruct N as [|N]; [lia|]. simpl.
    destruct (mr _ i c); [discriminate|assumption].
  - destruct H as (j1 & c1 & H1 & H2 & H3).
    destruct N as [|N]; [lia|]. simpl.
    destruct (mr _ i c) eqn:E; [discriminate|]. exfalso.
    revert E. apply (Hmr _ i c j1 c1 H1).
    apply Nat.ltb_lt in H2. rewrite H2.
    apply (IH N j1 c1 j c'); auto. lia.
Qed.

Lemma iterLazy_complete mr R k :
  Complete mr R ->
  forall n N i c j c', Rounds R n i c j c' -> n < N -> k j c' <> None ->
    iterLazy mr k N i c <> None.
Proof.
  intros Hmr. induction n as [|n IH]; intros N i c j c' H HN Hk.
  - destruct H as [-> ->]. destruct N as [|N]; [lia|]. simpl.
    destruct (k i c); [discriminate|congruence].
  - destruct H as (j1 & c1 & H1 & H2 & H3).
    destruct N as [|N]; [lia|]. simpl.
    destruct (k i c) eqn:E; [discriminate|].
    apply (Hmr _ i c j1 c1 H1).
    apply Nat.ltb_lt in H2. rewrite H2.
    apply (IH N j1 c1 j c'); auto. lia.
Qed.

Lemma Rounds_count (r : regex) n i c j c' :
  Rounds (Matches s r) n i c j c' -> n < S (length s - i).
Proof.
  intros H. apply (@Rounds_bounds _ n (Matches_bounds r)) in H.
  destruct n; lia.
Qed.

(** The matcher is sound and complete for [Matches]. *)
Theorem m_correct (r : regex) : Sound (m s r) (Matches s r) /\ Complete (m s r) (Matches s r).
Proof.
  induction r as [|a| |items|items|r1 IHr1 r2 IHr2|r1 IHr1 r2 IHr2|r IHr|r IHr|g r IHr|r IHr| | | ]; simpl.
  - split.
    + intros k i c res H. exists i, c. simpl. auto.
    + intros k i c j c' [-> ->] Hk. assumption.
  - split; [apply step_sound | apply step_complete].
  - split; [apply step_sound | apply step_complete].
  - split; [apply step_sound | apply step_complete].
  - split; [apply step_sound | apply step_complete].
  - destruct IHr1 as [S1 C1], IHr2 as [S2 C2]. split.
    + intros k i c res H. simpl in H.
      apply S1 in H as (j1 & c1 & H1 & H2).
      apply S2 in H2 as (j & c' & H2 & H3).
      exists j, c'. split; [|assumption]. exists j1, c1. auto.
    + intros k i c j c' (j1 & c1 & H1 & H2) Hk. simpl.
      apply (C1 _ i c j1 c1 H1). apply (C2 _ j1 c1 j c' H2 Hk).
  - destruct IHr1 as [S1 C1], IHr2 as [S2 C2]. split.
    + intros k i c res H. simpl in H.
      destruct (m s r1 k i c) eqn:E.
      * injection H as ->. apply S1 in E as (j & c' & H1 & H2). eauto.
      * apply S2 in H as (j & c' & H1 & H2). eauto.
    + intros k i c j c' [H|H] Hk; simpl.
      * destruct (m s r1 k i c) eqn:E; [discriminate|].
        exfalso. revert E. now apply (C1 _ i c j c').
      * destruct (m s r1 k i c) eqn:E; [discriminate|].
        now apply (C2 _ i c j c').
  - destruct IHr as [S1 C1]. split.
    + intros k i c res H.
      change (iterStar (m s r) k (S (length s - i)) i c = Some res) in H.
      apply (@iterStar_sound _ _ k _ S1) in H as (n & j & c' & H1 & H2).
      exists j, c'. split; [|assumption]. now exists n.
    + intros k i c j c' [n H] Hk.
      change (iterStar (m s r) k (S (length s - i)) i c <> None).
      apply (@iterStar_complete _ _ k C1 n _ _ _ _ _ H); [|assumption].
      now apply Rounds_count in H.
  - destruct IHr as [S1 C1]. split.
    + intros k i c res H.
      change (iterLazy (m s r) k (S (length s - i)) i c = Some res) in H.
      apply (@iterLazy_sound _ _ k _ S1) in H as (n & j & c' & H1 & H2).
      exists j, c'. split; [|assumption]. now exists n.
    + intros k i c j c' [n H] Hk.
      change (iterLazy (m s r) k (S (length s - i)) i c <> None).
      apply (@iterLazy_complete _ _ k C1 n _ _ _ _ _ H); [|assumption].
      now apply Rounds_count in H.
  - destruct IHr as [S1 C1]. split.
    + intros k i c res H. simpl in H.
      apply S1 in H as (j & c1 & H1 & H2).
      exists j, ((g, (i, j)) :: c1). split; [|assumption]. now exists c1.
    + intros k i c j c' (c1 & H1 & ->) Hk. simpl.
      now apply (C1 _ i c j c1 H1).
  - destruct IHr as [S1 C1]. split.
    + intros k i c res H. simpl in H.
      destruct (m s r _ i c) eqn:E; [discriminate|].
      exists i, c. split; [|assumption]. split; [|auto].
      intros j1 c1 HM. revert E. now apply (C1 _ i c j1 c1 HM).
    + intros k i c j c' (HM & -> & ->) Hk. simpl.
      destruct (m s r _ i c) eqn:E; [|assumption].
      apply S1 in E as (j1 & c1 & H1 & _). now apply HM in H1.
  - split.
    + intros k i c res H. simpl in H.
      destruct (i =? 0) eqn:E; [|discriminate]. apply Nat.eqb_eq in E.
      exists i, c. simpl. auto.
    + intros k i c j c' (-> & -> & ->) Hk. simpl. assumption.
  - split.
    + intros k i c res H. simpl in H.
      destruct (i =? length s) eqn:E; [|discriminate]. apply Nat.eqb_eq in E.
      exists i, c. simpl. auto.
    + intros k i c j c' (-> & -> & ->) Hk. simpl. now rewrite Nat.eqb_refl.
  - split.
    + intros k i c res H. simpl in H.
      destruct (atWordBoundary s i) eqn:E; [|discriminate].
      exists i, c. simpl. auto.
    + intros k i c j c' (Hb & -> & ->) Hk. simpl. now rewrite Hb.
Qed.

Lemma matchAt_sound r i res :
  matchAt s r i = Some res -> Matches s r i [] (fst res) (snd res).
Proof.
  intros H. apply (proj1 (m_correct r)) in H as (j & c' & H1 & H2).
  unfold accept in H2. injection H2 as <-. assumption.
Qed.

Lemma matchAt_complete r i j c' :
  Matches s r i [] j c' -> matchAt s r i <> None.
Proof.
  intros H. apply (proj2 (m_correct r) _ i [] j c' H). discriminate.
Qed.

(** The search returns the leftmost start index that has a match. *)
Lemma searchFrom_sound r n i st res :
  searchFrom s r n i = Some (st, res) ->
  i <= st <= i + n /\ matchAt s r st = Some res /\
  forall j, i <= j < st -> matchAt s r j = None.
Proof.
  revert i; induction n as [|n IH]; intros i H; simpl in H.
  - destruct (matchAt s r i) eqn:E; [|discriminate].
    injection H as <- <-. repeat split; auto; lia.
  - destruct (matchAt s r i) eqn:E.
    + injection H as <- <-. repeat split; auto; lia.
    + apply IH in H as (H1 & H2 & H3). repeat split; auto; try lia.
      intros j Hj. destruct (Nat.eq_dec j i) as [->|]; [assumption|].
      apply H3. lia.
Qed.

Lemma searchFrom_complete r n i j :
  i <= j <= i + n -> matchAt s r j <> None -> searchFrom s r n i <> None.
Proof.
  revert i; induction n as [|n IH]; intros i Hj H; simpl.
  - assert (j = i) as -> by lia. destruct (matchAt s r i); [discriminate|congruence].
  - destruct (matchAt s r i) eqn:E; [discriminate|].
    apply IH; auto. destruct (Nat.eq_dec j i) as [->|]; [congruence|lia].
Qed.

End MatcherFacts.

(** [r.test(s)] says whether [r] matches somewhere in [s]. *)
Theorem test_spec (r : regex) (s : jstring) :
  test r s = true <-> exists i j c', i <= length s /\ Matches s r i [] j c'.
Proof.
  unfold test, exec. simpl. rewrite Nat.sub_0_r. split.
  - destruct (searchFrom s r (length s) 0) as [[st res]|] eqn:E; [|discriminate].
    intros _. apply searchFrom_sound in E as (H1 & H2 & _).
    apply matchAt_sound in H2. exists st, (fst res), (snd res). split; [lia|assumption].
  - intros (i & j & c' & Hi & HM).
    destruct (searchFrom s r (length s) 0) eqn:E; [reflexivity|].
    exfalso. revert E. apply searchFrom_complete with (j := i); [lia|].
    eapply matchAt_complete; eauto.
Qed.

Lemma exec_sound (r : regex) (s : jstring) (li st : nat) (res : result) :
  exec r s li = Some (st, res) ->
  li <= st <= length s /\ Matches s r st [] (fst res) (snd res).
Proof.
  unfold exec. destruct (li <=? length s) eqn:E; [|discriminate].
  apply Nat.leb_le in E. intros H.
  apply searchFrom_sound in H as (H1 & H2 & _).
  apply matchAt_sound in H2. split; [lia|assumption].
Qed.

(* ================================================================== *)
(** * Reference lookup *)

Section ReferenceFacts.

Lemma Some_inj (A : Type) (a b : A) : Some a = Some b -> a = b.
Proof. intros H. now injection H. Qed.

Lemma filter_all (A : Type) (f : A -> bool) (l : list A) :
  (forall x, In x l -> f x = true) -> filter f l = l.
Proof.
  induction l as [|x l IH]; intros H; simpl; [reflexivity|].
  rewrite (H x (or_introl eq_refl)), IH; [reflexivity|].
  intros y Hy. apply H. now right.
Qed.

(** Every entry of the catalog has a name and a header. *)
Lemma LIBRARY_DATABASE_named :
  forallb (fun f => negb (length (Reference.name f) =? 0) && negb (length (header f) =? 0))
    LIBRARY_DATABASE = true.
Proof. vm_compute. reflexivity. Qed.

(** The match predicate of the side bar: a case-insensitive substring
    match against the name, or against the header, with and without the
    suffix [.h] added to the term. *)
Lemma handleWebviewMessage_spec (query : jstring) (results : list LibraryFunction) :
  handleWebviewMessage (lit "search") query = Some results ->
  forall f, In f results <->
    In f LIBRARY_DATABASE /\
    let term := trim (toLowerCase query) in
    let headerTerm := if endsWith term (lit ".h") then term else term ++ lit ".h" in
    (includes (toLowerCase (Reference.name f)) term = true \/
     includes (toLowerCase (header f)) headerTerm = true \/
     includes (toLowerCase (header f)) term = true).
Proof.
  unfold handleWebviewMessage. change (str_eqb (lit "search") (lit "search")) with true.
  cbv iota. intros H f. apply Some_inj in H. rewrite <- H. rewrite filter_In.
  split; intros [Hin Hm]; split; auto.
  - pose proof LIBRARY_DATABASE_named as Hn. rewrite forallb_forall in Hn.
    specialize (Hn f Hin). apply andb_true_iff in Hn as [Hn1 Hn2].
    unfold matchesSidebar in Hm. rewrite Hn1, Hn2 in Hm. cbv zeta. simpl andb in Hm.
    destruct (includes (toLowerCase (Reference.name f)) _); [now left|].
    apply orb_true_iff in Hm. tauto.
  - pose proof LIBRARY_DATABASE_named as Hn. rewrite forallb_forall in Hn.
    specialize (Hn f Hin). apply andb_true_iff in Hn as [Hn1 Hn2].
    unfold matchesSidebar. rewrite Hn1, Hn2. simpl andb. cbv zeta in Hm.
    destruct (includes (toLowerCase (Reference.name f)) _); [reflexivity|].
    apply orb_true_iff. destruct Hm as [Hm|Hm]; [discriminate|tauto].
Qed.

(** A blank query reaches every entry of the side bar search: the empty
    term is a substring of every name. *)
Lemma handleWebviewMessage_blank (query : jstring) :
  trim (toLowerCase query) = [] ->
  handleWebviewMessage (lit "search") query = Some LIBRARY_DATABASE.
Proof.
  intros H. unfold handleWebviewMessage.
  change (str_eqb (lit "search") (lit "search")) with true. cbv iota zeta.
  rewrite H. apply f_equal. apply filter_all.
  intros f Hf. pose proof LIBRARY_DATABASE_named as Hn. rewrite forallb_forall in Hn.
  apply Hn, andb_true_iff in Hf as [Hf _].
  unfold matchesSidebar. now rewrite Hf, includes_nil.
Qed.

(** The panel posts nothing for a blank query. *)
Lemma handleSearchMessage_blank (query : jstring) :
  trim (toLowerCase query) = [] ->
  handleSearchMessage (lit "search") query = None.
Proof.
  intros H. unfold handleSearchMessage. rewrite H.
  destruct (_ && _); reflexivity.
Qed.

Lemma trimStart_blank (s : jstring) :
  forallb isWhiteSpace s = true -> trimStart s = [].
Proof.
  induction s as [|x s IH]; simpl; [reflexivity|].
  intros H. apply andb_true_iff in H as [-> H]. auto.
Qed.

Lemma trim_blank (s : jstring) : forallb isWhiteSpace s = true -> trim s = [].
Proof. intros H. unfold trim. now rewrite (trimStart_blank _ H). Qed.

(** The search box shows the prompt for a blank input, in both views. *)
Lemma performSearch_blank (input : jstring) :
  forallb isWhiteSpace input = true -> performSearch input = ShowPrompt.
Proof. intros H. unfold performSearch. now rewrite (trim_blank _ H). Qed.

End ReferenceFacts.

(** C2, as stated, fails: the side bar search for printf does not return
    the printf entry alone. *)
Lemma search_printf_not_single :
  handleWebviewMessage (lit "search") (lit "printf") <> Some [printfEntry].
Proof. vm_compute. discriminate. Qed.

(** C2, amended: for the query printf the search returns exactly the
    catalog entries whose name contains printf (printf, fprintf and
    sprintf, in catalog order), in the side bar and in the panel; the
    match is a case-insensitive substring match. *)
Theorem search_printf :
  handleWebviewMessage (lit "search") (lit "printf")
    = Some [printfEntry; fprintfEntry; sprintfEntry] /\
  handleSearchMessage (lit "search") (lit "PrintF")
    = Some [printfEntry; fprintfEntry; sprintfEntry] /\
  filter (fun f => includes (toLowerCase (Reference.name f)) (lit "printf")) LIBRARY_DATABASE
    = [printfEntry; fprintfEntry; sprintfEntry].
Proof. vm_compute. auto. Qed.

(** The handlers called directly with an empty or white-space query,
    which the search boxes never send: the side bar handler posts the
    whole catalog, the panel handler posts nothing. *)
Theorem blank_query_returns_catalog :
  handleWebviewMessage (lit "search") ([]) = Some LIBRARY_DATABASE /\
  handleWebviewMessage (lit "search") (lit "   ") = Some LIBRARY_DATABASE /\
  handleSearchMessage (lit "search") ([]) = None /\
  handleSearchMessage (lit "search") (lit "   ") = None /\
  performSearch (lit "   ") = ShowPrompt.
Proof. vm_compute. auto 6. Qed.

Lemma filter_none (A : Type) (p : A -> bool) (l : list A) :
  (forall x, In x l -> p x = false) -> filter p l = [].
Proof.
  induction l as [|x l IH]; intros H; simpl; [reflexivity|].
  rewrite (H x (or_introl eq_refl)). apply IH. intros y Hy. apply H. now right.
Qed.

(** No name of the catalog holds white space. *)
Lemma catalog_names_no_whiteSpace :
  forallb (fun f => forallb (fun x => negb (isWhiteSpace x)) (toLowerCase (Reference.name f)))
    LIBRARY_DATABASE = true.
Proof. vm_compute. reflexivity. Qed.

(** The command finds no entry for a text of white space. *)
Lemma searchReference_blank (query : jstring) :
  forallb isWhiteSpace query = true -> 0 < length query ->
  searchReference query = NoFunctionsFound query.
Proof.
  intros H Hlen. unfold searchReference. cbv zeta.
  rewrite (toLowerCase_blank query H). rewrite filter_none; [reflexivity|].
  intros f Hf. destruct (includes _ query) eqn:E; [exfalso|reflexivity].
  destruct query as [|c t]; [simpl in Hlen; lia|].
  apply includes_spec in E as (a & b & E).
  simpl in H. apply andb_true_iff in H as [Hc _].
  pose proof catalog_names_no_whiteSpace as Hn.
  rewrite forallb_forall in Hn. specialize (Hn f Hf).
  rewrite forallb_forall in Hn. specialize (Hn c).
  rewrite Hc in Hn. discriminate Hn.
  rewrite E. apply in_or_app. right. now left.
Qed.

(** C7: for every empty or white-space text of the search box, the
    search yields the prompt in both views: the script returns before it
    posts a message, so no result set is posted for such a query, and in
    particular not the whole catalog.  The command of the command
    palette does not search an empty text and finds no entry for white
    space, so it posts no results either. *)
Theorem blank_search_shows_prompt (input : jstring) :
  forallb isWhiteSpace input = true ->
  performSearch input = ShowPrompt /\
  sidebarSearch input = PromptShown /\
  panelSearch input = PromptShown /\
  sidebarSearch input <> ResultsShown LIBRARY_DATABASE /\
  searchReferenceCommand (Some input)
  = if 0 <? length input then Some (NoFunctionsFound input) else None.
Proof.
  intros H. pose proof (performSearch_blank input H) as E.
  unfold sidebarSearch, panelSearch, searchWith. rewrite E.
  repeat split; [discriminate|].
  unfold searchReferenceCommand.
  destruct (0 <? length input) eqn:El; [|reflexivity].
  apply Nat.ltb_lt in El. now rewrite (searchReference_blank input H El).
Qed.

Lemma blank_search_shows_prompt_witness :
  sidebarSearch (lit "   ") = PromptShown /\ panelSearch (lit "   ") = PromptShown /\
  searchReferenceCommand (Some (lit "   ")) = Some (NoFunctionsFound (lit "   ")).
Proof.
  destruct (blank_search_shows_prompt (lit "   ") eq_refl) as (_ & H1 & H2 & _ & H3).
  repeat split; assumption.
Defined.

(* ================================================================== *)
(** * The semicolon heuristic *)

Section SemicolonFacts.

Lemma charAt_app_last (t : jstring) (c : char) : charAt (t ++ [c]) (length t) = Some c.
Proof.
  unfold charAt. rewrite nth_error_app2, Nat.sub_diag by lia. reflexivity.
Qed.

(** A line that ends in one of the three characters matches [opensBlock]. *)
Lemma opensBlock_last (t : jstring) (c : char) :
  In c [ch "{"; ch ":"; ch "["] -> test opensBlock (t ++ [c]) = true.
Proof.
  intros Hc. apply test_spec.
  exists (length t), (S (length t)), []. split.
  - rewrite length_app. simpl. lia.
  - unfold opensBlock. simpl. exists (S (length t)), []. split.
    + exists c. rewrite charAt_app_last. repeat split.
      simpl in Hc. decompose [or] Hc; subst; try reflexivity. contradiction.
    + rewrite length_app. simpl. repeat split. lia.
Qed.

End SemicolonFacts.

(** C4, as stated, fails for a closing brace: an initializer line ends
    in a brace and gets a semicolon. *)
Lemma brace_line_gets_semicolon :
  endsWith (trim (lit "int a[2] = {1, 2}")) (lit "}") = true /\
  shouldAddSemicolon (lit "int a[2] = {1, 2}") = true.
Proof. vm_compute. auto. Qed.

(** C4, amended: for every line whose trimmed text ends in a semicolon,
    an opening brace, a colon or an opening bracket, or consists of a
    closing brace alone, [shouldAddSemicolon] returns false. *)
Theorem shouldAddSemicolon_terminated (text : jstring) :
  (exists c, In c [ch ";"; ch "{"; ch ":"; ch "["] /\ endsWith (trim text) [c] = true)
  \/ trim text = lit "}" ->
  shouldAddSemicolon text = false.
Proof.
  intros [(c & Hc & He)|H]; unfold shouldAddSemicolon; cbv zeta.
  - destruct Hc as [<-|Hc].
    + change [ch ";"] with (lit ";") in He. rewrite He, orb_true_r. reflexivity.
    + apply endsWith_spec in He as [t Ht]. rewrite Ht.
      rewrite (opensBlock_last t c Hc).
      destruct (_ || _); reflexivity.
  - rewrite H. vm_compute. reflexivity.
Qed.

Lemma shouldAddSemicolon_terminated_witness :
  shouldAddSemicolon (lit "  while (x) {  ") = false.
Proof.
  apply shouldAddSemicolon_terminated. left. exists (ch "{"). split.
  - simpl. auto.
  - vm_compute. reflexivity.
Defined.

(* ================================================================== *)
(** * The diagnostic scanner *)

Section DiagnosticFacts.

(** Every check only appends to the array it is handed. *)
Lemma checkUnsafeEntry_app line ln diags e :
  checkUnsafeEntry line ln diags e = diags ++ checkUnsafeEntry line ln [] e.
Proof.
  unfold checkUnsafeEntry. destruct e as [u sf].
  destruct (includes line _); [|now rewrite app_nil_r].
  destruct (_ && _); [now rewrite app_nil_r | reflexivity].
Qed.

Lemma fold_checkUnsafeEntry_app line ln (l : list (jstring * jstring)) diags :
  fold_left (checkUnsafeEntry line ln) l diags
  = diags ++ flat_map (checkUnsafeEntry line ln []) l.
Proof.
  revert diags; induction l as [|e l IH]; intros diags; simpl.
  - now rewrite app_nil_r.
  - rewrite IH, checkUnsafeEntry_app, <- app_assoc. reflexivity.
Qed.

Lemma checkUnsafeFunctions_app line ln diags :
  checkUnsafeFunctions line ln diags = diags ++ checkUnsafeFunctions line ln [].
Proof.
  unfold checkUnsafeFunctions. cbv zeta.
  destruct (_ || _); [now rewrite app_nil_r|].
  now rewrite (fold_checkUnsafeEntry_app _ _ _ diags), (fold_checkUnsafeEntry_app _ _ _ []).
Qed.

Lemma checkAssignmentInConditional_app line ln diags :
  checkAssignmentInConditional line ln diags
  = diags ++ checkAssignmentInConditional line ln [].
Proof.
  unfold checkAssignmentInConditional. cbv zeta.
  destruct (test _ _); [reflexivity | now rewrite app_nil_r].
Qed.

Lemma checkMemoryAllocation_app line ln diags :
  checkMemoryAllocation line ln diags = diags ++ checkMemoryAllocation line ln [].
Proof.
  unfold checkMemoryAllocation. cbv zeta.
  destruct (test _ _); [|now rewrite app_nil_r].
  destruct (exec _ _ _) as [[st res]|]; [reflexivity | now rewrite app_nil_r].
Qed.

Lemma checkFopenWithoutNullCheck_app lines line ln diags :
  checkFopenWithoutNullCheck lines line ln diags
  = diags ++ checkFopenWithoutNullCheck lines line ln [].
Proof.
  unfold checkFopenWithoutNullCheck. cbv zeta.
  destruct (includes _ _); [|now rewrite app_nil_r].
  destruct (_ && _); [reflexivity | now rewrite app_nil_r].
Qed.

(** The diagnostics of one line, by check. *)
Lemma checkLineAt_app lines diags i :
  checkLineAt lines diags i
  = diags ++ checkUnsafeFunctions (nth i lines []) (Z.of_nat i) []
          ++ checkAssignmentInConditional (nth i lines []) (Z.of_nat i) []
          ++ checkMemoryAllocation (nth i lines []) (Z.of_nat i) []
          ++ checkFopenWithoutNullCheck lines (nth i lines []) i [].
Proof.
  unfold checkLineAt. cbv zeta.
  rewrite checkFopenWithoutNullCheck_app, checkMemoryAllocation_app,
    checkAssignmentInConditional_app, checkUnsafeFunctions_app.
  now rewrite <- !app_assoc.
Qed.

Lemma fold_checkLineAt lines (l : list nat) diags :
  fold_left (checkLineAt lines) l diags = diags ++ flat_map (checkLineAt lines []) l.
Proof.
  revert diags; induction l as [|i l IH]; intros diags; simpl.
  - now rewrite app_nil_r.
  - rewrite IH, (checkLineAt_app lines diags), (checkLineAt_app lines []).
    simpl. now rewrite <- !app_assoc.
Qed.

(** The diagnostics of a document are those of its lines, in order. *)
Lemma runDiagnostics_lines text :
  runDiagnostics text
  = flat_map (checkLineAt (documentLines text) [])
      (seq 0 (length (documentLines text))).
Proof. unfold runDiagnostics. cbv zeta. now rewrite fold_checkLineAt. Qed.

Lemma runDiagnostics_In text d :
  In d (runDiagnostics text) <->
  exists i, i < length (documentLines text) /\
    (In d (checkUnsafeFunctions (nth i (documentLines text) []) (Z.of_nat i) []) \/
     In d (checkAssignmentInConditional (nth i (documentLines text) []) (Z.of_nat i) []) \/
     In d (checkMemoryAllocation (nth i (documentLines text) []) (Z.of_nat i) []) \/
     In d (checkFopenWithoutNullCheck (documentLines text)
             (nth i (documentLines text) []) i [])).
Proof.
  rewrite runDiagnostics_lines, in_flat_map. split.
  - intros (i & Hi & Hd). apply in_seq in Hi. exists i. split; [lia|].
    rewrite checkLineAt_app in Hd. simpl in Hd. rewrite !in_app_iff in Hd. tauto.
  - intros (i & Hi & Hd). exists i. split; [apply in_seq; lia|].
    rewrite checkLineAt_app. simpl. rewrite !in_app_iff. tauto.
Qed.




Lemma checkFopenWithoutNullCheck_In lines line i d :
  In d (checkFopenWithoutNullCheck lines line i []) ->
  d = mkDiagnostic
        (mkRange (Z.of_nat i) (indexOf (stripComment line) (lit "fopen")) (Z.of_nat i)
           (len (stripComment line)))
        fopenMessage Information
  /\ includes (stripComment line) (lit "fopen(") = true
  /\ hasNullCheck (nextLinesOf lines i) = false
  /\ hasErrorHandling (nextLinesOf lines i) = false.
Proof.
  unfold checkFopenWithoutNullCheck. cbv zeta.
  destruct (includes _ _); [|contradiction].
  destruct (hasNullCheck _), (hasErrorHandling _); simpl; try contradiction.
  intros [<-|[]]. auto.
Qed.

(** The entry of one unsafe function, when its name is followed by a
    parenthesis somewhere and its first occurrence is not behind the
    first comment marker. *)
Lemma checkUnsafeEntry_emits (line : jstring) (ln : Z) (u sf : jstring) :
  includes line (u ++ lit "(") = true ->
  (indexOf line (lit "//") = -1 \/ indexOf line u <= indexOf line (lit "//"))%Z ->
  checkUnsafeEntry line ln [] (u, sf)
  = [ mkDiagnostic (mkRange ln (indexOf line u) ln (indexOf line u + len u))
        (unsafeMessage u sf) Warning ].
Proof.
  intros Hinc Hpos. unfold checkUnsafeEntry. rewrite Hinc.
  destruct (negb _ && _) eqn:E; [|reflexivity].
  apply andb_true_iff in E as [E1 E2].
  apply negb_true_iff, Z.eqb_neq in E1. apply Z.gtb_lt in E2. lia.
Qed.

Lemma checkUnsafeFunctions_emits (line : jstring) (ln : Z) (u sf : jstring) :
  In (u, sf) UNSAFE_FUNCTIONS ->
  startsWith (trim line) (lit "//") || startsWith (trim line) (lit "/*")
    || startsWith (trim line) (lit "*") = false ->
  includes line (u ++ lit "(") = true ->
  (indexOf line (lit "//") = -1 \/ indexOf line u <= indexOf line (lit "//"))%Z ->
  In (mkDiagnostic (mkRange ln (indexOf line u) ln (indexOf line u + len u))
        (unsafeMessage u sf) Warning)
     (checkUnsafeFunctions line ln []).
Proof.
  intros Hin Hguard Hinc Hpos. unfold checkUnsafeFunctions. cbv zeta.
  rewrite Hguard, fold_checkUnsafeEntry_app, app_nil_l.
  pose proof (@checkUnsafeEntry_emits line ln u sf Hinc Hpos) as E.
  apply in_flat_map. exists (u, sf). split; [assumption|].
  rewrite E. now left.
Qed.

End DiagnosticFacts.

Section UnsafeFunctionFacts.

(** An occurrence that has no comment marker in front of it: the first
    occurrence of the name is then not behind the first marker. *)
Lemma occurrence_before_comment (line pre u rest : jstring) :
  line = pre ++ u ++ rest ->
  includes pre (lit "//") = false ->
  (forall x t, u = x :: t -> x <> ch "/") ->
  (indexOf line (lit "//") = -1 \/ indexOf line u <= indexOf line (lit "//"))%Z.
Proof.
  intros Hline Hpre Hu.
  destruct (indexOf_spec line (lit "//")) as [[H _]|(a & b & Ha & Hidx & _)];
    [now left | right].
  assert (Hin : includes line u = true) by (apply includes_spec; eauto).
  destruct (indexOf_found _ _ Hin) as (a2 & b2 & Ha2 & Hidx2 & Hmin).
  rewrite Hidx, Hidx2. apply Nat2Z.inj_le.
  destruct (Nat.le_gt_cases (length a2) (length a)) as [|Hlt]; [assumption|exfalso].
  pose proof (Hmin _ _ Hline) as Hle.
  rewrite Hline in Ha. symmetry in Ha.
  apply app_eq_app in Ha as [l [[H1 H2]|[H1 H2]]].
  - (* the marker starts behind the occurrence *)
    apply (f_equal (@length _)) in H1. rewrite length_app in H1. lia.
  - (* the marker starts inside [pre] *)
    destruct l as [|x [|y l]].
    + rewrite app_nil_r in H1. subst pre. lia.
    + (* its second slash would be the first character of the name *)
      simpl in H2. injection H2 as <- H2.
      destruct u as [|z u].
      * assert (Hnil : line = [] ++ [] ++ line) by reflexivity.
        apply Hmin in Hnil. simpl in Hnil. lia.
      * simpl in H2. injection H2 as <- _. now apply (Hu _ _ eq_refl).
    + simpl in H2. injection H2 as <- <- _.
      assert (includes pre (lit "//") = true)
        by (apply includes_spec; exists a, l; now rewrite H1).
      congruence.
Qed.

Lemma UNSAFE_FUNCTIONS_names (u sf : jstring) :
  In (u, sf) UNSAFE_FUNCTIONS -> forall x t, u = x :: t -> x <> ch "/".
Proof.
  intros H x t Hu. simpl in H.
  decompose [or] H; try contradiction;
    match goal with E : _ = (u, sf) |- _ => injection E as <- _ end;
    injection Hu as <- _; discriminate.
Qed.

Lemma nth_error_line (lines : list jstring) i line :
  nth_error lines i = Some line -> i < length lines /\ nth i lines [] = line.
Proof.
  intros H. split.
  - apply nth_error_Some. congruence.
  - now apply nth_error_nth.
Qed.

End UnsafeFunctionFacts.

(** C5, as stated, fails: a line that starts with a star is skipped as a
    comment, although it calls [gets] with no comment marker on the line. *)
Lemma unsafe_call_skipped :
  let line := lit "*p = gets(buf);" in
  includes line (lit "gets(") = true /\
  indexOf line (lit "//") = (-1)%Z /\
  runDiagnostics line = [].
Proof. vm_compute. auto. Qed.

(** The range of the warning starts at the first occurrence of the name,
    while the test looks for the name with its parenthesis: where an
    earlier occurrence of the name is no call, the warning marks that
    occurrence and not the call. *)
Lemma unsafe_range_first_occurrence :
  let line := lit "forgets = 1; gets(b);" in
  indexOf line (lit "gets(") = 13%Z /\
  runDiagnostics line
  = [ mkDiagnostic (mkRange 0 3 0 7) (unsafeMessage (lit "gets") (lit "fgets")) Warning ].
Proof. vm_compute. auto. Qed.

(** C5, amended: for every pair of the unsafe-function table and every
    line whose trimmed text does not start with two slashes, a slash and a
    star, or a star, and in which the first occurrence of the unsafe name
    is directly followed by an opening parenthesis and has no comment
    marker in front of it, the scanner emits a Warning whose range is the
    exact column span of that function name, with the message that names
    the unsafe function and its safe replacement.  (Lines on which an
    earlier occurrence of the name is no call are left out.) *)
Theorem unsafe_function_warning
  (text : jstring) (i : nat) (line pre post u sf : jstring) :
  nth_error (documentLines text) i = Some line ->
  In (u, sf) UNSAFE_FUNCTIONS ->
  startsWith (trim line) (lit "//") || startsWith (trim line) (lit "/*")
    || startsWith (trim line) (lit "*") = false ->
  line = pre ++ (u ++ lit "(") ++ post ->
  (forall pre' post', line = pre' ++ u ++ post' -> length pre <= length pre') ->
  includes pre (lit "//") = false ->
  let col := Z.of_nat (length pre) in
  In (mkDiagnostic
        (mkRange (Z.of_nat i) col (Z.of_nat i) (col + len u))
        (lit "Unsafe function '" ++ u ++ lit "'. Consider using '" ++ sf ++ lit "' instead.")
        Warning)
     (runDiagnostics text)
  /\ substr line (length pre) (length pre + length u) = u
  /\ substr line (length pre + length u) (length pre + length u + 1) = lit "(".
Proof.
  intros Hnth Hin Hguard Hline Hfirst Hpre col.
  apply nth_error_line in Hnth as [Hi Hnth].
  assert (Hinc : includes line (u ++ lit "(") = true)
    by (apply includes_spec; eauto).
  assert (Hline' : line = pre ++ u ++ (lit "(" ++ post))
    by (rewrite Hline, <- !app_assoc; reflexivity).
  pose proof (occurrence_before_comment line pre u (lit "(" ++ post) Hline' Hpre
                (UNSAFE_FUNCTIONS_names u sf Hin)) as Hpos.
  assert (Hu : includes line u = true) by (apply includes_spec; eauto).
  assert (Hcol : indexOf line u = col).
  { destruct (indexOf_found _ _ Hu) as (a & b & Ha & Hidx & Hmin).
    specialize (Hmin _ _ Hline'). specialize (Hfirst _ _ Ha).
    rewrite Hidx. unfold col. lia. }
  split; [|split].
  - apply runDiagnostics_In. exists i. split; [assumption|]. left. rewrite Hnth.
    rewrite <- Hcol.
    apply (checkUnsafeFunctions_emits line (Z.of_nat i) u sf Hin Hguard Hinc Hpos).
  - rewrite Hline' at 1. apply substr_app.
  - assert (E : line = (pre ++ u) ++ lit "(" ++ post)
      by (rewrite Hline', <- app_assoc; reflexivity).
    rewrite E at 1. rewrite <- length_app.
    exact (substr_app (pre ++ u) (lit "(") post).
Qed.

Lemma unsafe_function_warning_witness :
  let text := lit "int x;" ++ [NL] ++ lit "  strcpy(dst, src); // copy" in
  In (mkDiagnostic (mkRange 1 2 1 8)
        (lit "Unsafe function 'strcpy'. Consider using 'strncpy' instead.") Warning)
     (runDiagnostics text).
Proof.
  cbv zeta.
  refine (proj1 (unsafe_function_warning
            (lit "int x;" ++ [NL] ++ lit "  strcpy(dst, src); // copy") 1
            (lit "  strcpy(dst, src); // copy") (lit "  ") (lit "dst, src); // copy")
            (lit "strcpy") (lit "strncpy") _ _ _ _ _ _)).
  - reflexivity.
  - simpl. auto.
  - vm_compute. reflexivity.
  - reflexivity.
  - intros pre' post' E. destruct pre' as [|x [|y pre']]; [| |simpl; lia];
      vm_compute in E; discriminate E.
  - vm_compute. reflexivity.
Defined.

(** C10: every line that holds a call of [fgets], whose trimmed text does
    not start with two slashes, a slash and a star, or a star, and where
    the first occurrence of gets is not behind a comment marker, receives
    the Warning against [gets]: the safe function is flagged as unsafe. *)
Theorem fgets_flagged_as_gets (text : jstring) (i : nat) (line : jstring) :
  nth_error (documentLines text) i = Some line ->
  includes line (lit "fgets(") = true ->
  startsWith (trim line) (lit "//") || startsWith (trim line) (lit "/*")
    || startsWith (trim line) (lit "*") = false ->
  (indexOf line (lit "//") = -1 \/ indexOf line (lit "gets") <= indexOf line (lit "//"))%Z ->
  In (mkDiagnostic
        (mkRange (Z.of_nat i) (indexOf line (lit "gets")) (Z.of_nat i)
           (indexOf line (lit "gets") + 4))
        (lit "Unsafe function 'gets'. Consider using 'fgets' instead.")
        Warning)
     (runDiagnostics text).
Proof.
  intros Hnth Hinc Hguard Hpos.
  apply nth_error_line in Hnth as [Hi Hnth].
  apply runDiagnostics_In. exists i. split; [assumption|]. left. rewrite Hnth.
  apply (checkUnsafeFunctions_emits line (Z.of_nat i) (lit "gets") (lit "fgets")).
  - simpl. auto.
  - assumption.
  - apply includes_spec in Hinc as (a & b & ->).
    apply includes_spec. exists (a ++ lit "f"), b. rewrite <- app_assoc. reflexivity.
  - assumption.
Qed.

Lemma fgets_flagged_as_gets_witness :
  let text := lit "fgets(buf, 10, stdin);" in
  In (mkDiagnostic (mkRange 0 1 0 5)
        (lit "Unsafe function 'gets'. Consider using 'fgets' instead.") Warning)
     (runDiagnostics text).
Proof.
  cbv zeta.
  refine (fgets_flagged_as_gets (lit "fgets(buf, 10, stdin);") 0
            (lit "fgets(buf, 10, stdin);") _ _ _ _).
  - reflexivity.
  - vm_compute. reflexivity.
  - vm_compute. reflexivity.
  - left. vm_compute. reflexivity.
Defined.

Section FopenFacts.

(** A literal pattern matches its own text. *)
Lemma Matches_Str (s p : jstring) (a b : jstring) (c : captures) :
  s = a ++ p ++ b -> Matches s (Str p) (length a) c (length a + length p) c.
Proof.
  revert a; induction p as [|x p IH]; intros a Hs; simpl.
  - split; [lia|reflexivity].
  - exists (S (length a)), c. split.
    + exists x. split; [|split; [apply char_eqb_refl | auto]].
      unfold charAt. rewrite Hs, nth_error_app2, Nat.sub_diag by lia. reflexivity.
    + specialize (IH (a ++ [x])). rewrite length_app in IH. simpl in IH.
      replace (length a + S (length p)) with (length a + 1 + length p) by lia.
      replace (S (length a)) with (length a + 1) by lia.
      apply IH. rewrite Hs, <- app_assoc. reflexivity.
Qed.

Lemma test_Str_includes (s p : jstring) :
  includes s p = true -> test (Str p) s = true.
Proof.
  intros H. apply includes_spec in H as (a & b & Hs).
  apply test_spec. exists (length a), (length a + length p), []. split.
  - rewrite Hs, length_app. lia.
  - now apply (Matches_Str s p a b []).
Qed.

(** Any mention of perror counts as error handling. *)
Lemma hasErrorHandling_perror (block : jstring) :
  includes block (lit "perror") = true -> hasErrorHandling block = true.
Proof.
  intros H. unfold hasErrorHandling, perrorPattern, L.
  rewrite (test_Str_includes block (lit "perror") H). apply orb_true_r.
Qed.

Lemma isWordAt_app_l (a b : jstring) :
  isWordAt (a ++ b) (length a) = match b with [] => false | x :: _ => isWordChar x end.
Proof.
  unfold isWordAt, charAt. rewrite nth_error_app2, Nat.sub_diag by lia.
  destruct b; reflexivity.
Qed.

Lemma isWordAt_last (a b : jstring) (x : char) :
  isWordAt ((a ++ [x]) ++ b) (length a) = isWordChar x.
Proof.
  unfold isWordAt, charAt. rewrite <- app_assoc, nth_error_app2, Nat.sub_diag by lia.
  reflexivity.
Qed.

(** A word starts at the end of [a] when [a] does not end in a word
    character. *)
Lemma boundary_before (a b : jstring) (x : char) :
  notWordBefore a -> isWordChar x = true ->
  atWordBoundary (a ++ x :: b) (length a) = true.
Proof.
  intros Ha Hx. unfold atWordBoundary. rewrite isWordAt_app_l, Hx.
  destruct (length a) eqn:E; [reflexivity|].
  destruct (rev a) as [|y ra] eqn:Er.
  - apply (f_equal (@length _)) in Er. rewrite length_rev in Er. simpl in Er. lia.
  - unfold notWordBefore in Ha. rewrite Er in Ha.
    assert (a = rev ra ++ [y]) as Hay
      by (rewrite <- (rev_involutive a), Er; reflexivity).
    assert (n = length (rev ra))
      by (rewrite Hay, length_app in E; simpl in E; lia).
    subst n. rewrite Hay at 1. rewrite isWordAt_last, Ha. reflexivity.
Qed.

(** A word ends in front of [b] when [b] does not start with a word
    character. *)
Lemma boundary_after (a b : jstring) (x : char) :
  notWordAfter b -> isWordChar x = true ->
  atWordBoundary ((a ++ [x]) ++ b) (S (length a)) = true.
Proof.
  intros Hb Hx. unfold atWordBoundary. rewrite isWordAt_last, Hx.
  replace (S (length a)) with (length (a ++ [x])) by (rewrite length_app; simpl; lia).
  rewrite isWordAt_app_l. destruct b; [reflexivity|].
  unfold notWordAfter in Hb. now rewrite Hb.
Qed.

(** A NULL token in the block counts as a null check, compared or not. *)
Lemma hasNullCheck_token (a b : jstring) :
  notWordBefore a -> notWordAfter b ->
  hasNullCheck (a ++ lit "NULL" ++ b) = true.
Proof.
  intros Ha Hb. unfold hasNullCheck.
  replace (test nullToken _) with true; [reflexivity|]. symmetry.
  apply test_spec. exists (length a), (length a + 4), []. split.
  - rewrite !length_app. lia.
  - assert (H1 : atWordBoundary (a ++ lit "NULL" ++ b) (length a) = true)
      by exact (boundary_before a (lit "ULL" ++ b) (ch "N") Ha eq_refl).
    assert (H2 : atWordBoundary (a ++ lit "NULL" ++ b) (length a + 4) = true).
    { replace (a ++ lit "NULL" ++ b) with (((a ++ lit "NUL") ++ [ch "L"]) ++ b)
        by (rewrite <- !app_assoc; reflexivity).
      replace (length a + 4) with (S (length (a ++ lit "NUL")))
        by (rewrite length_app; simpl; lia).
      now apply boundary_after. }
    pose proof (Matches_Str (a ++ lit "NULL" ++ b) (lit "NULL") a b [] eq_refl) as H3.
    change (length (lit "NULL")) with 4 in H3.
    remember (a ++ lit "NULL" ++ b) as s eqn:Hs.
    change (Matches s (Seq WordB (Seq (L "NULL") WordB)) (length a) [] (length a + 4) []).
    exists (length a), []. split; [repeat split; assumption|].
    exists (length a + 4), []. split; [exact H3|repeat split; assumption].
Qed.

End FopenFacts.




(* ================================================================== *)
(** * Lines and edits *)

Section LineFacts.

Lemma split_nonempty (s : jstring) : split NL s <> [].
Proof.
  destruct s as [|c s]; simpl; [discriminate|].
  destruct (char_eqb c NL); [discriminate|].
  destruct (split NL s); discriminate.
Qed.

Lemma split_noNL (s : jstring) : Forall noNL (split NL s).
Proof.
  induction s as [|c s IH]; simpl.
  - constructor; [intros []|constructor].
  - destruct (char_eqb c NL) eqn:E.
    + constructor; [intros []|assumption].
    + destruct (split NL s) as [|l ls]; [constructor; [|constructor]|].
      * intros [H|[]]. subst c. now rewrite char_eqb_refl in E.
      * inversion IH; subst. constructor; [|assumption].
        intros [H|H]; [|contradiction]. subst c. now rewrite char_eqb_refl in E.
Qed.

(** Splitting a line followed by a newline and more text. *)
Lemma split_line (a b : jstring) :
  noNL a -> split NL (a ++ NL :: b) = a :: split NL b.
Proof.
  induction a as [|c a IH]; intros Ha; simpl.
  - reflexivity.
  - destruct (char_eqb c NL) eqn:E.
    + apply char_eqb_eq in E. subst c. exfalso. apply Ha. now left.
    + rewrite IH; [reflexivity|]. intros H. apply Ha. now right.
Qed.

Lemma split_single (a : jstring) : noNL a -> split NL a = [a].
Proof.
  induction a as [|c a IH]; intros Ha; simpl.
  - reflexivity.
  - destruct (char_eqb c NL) eqn:E.
    + apply char_eqb_eq in E. subst c. exfalso. apply Ha. now left.
    + rewrite IH; [reflexivity|]. intros H. apply Ha. now right.
Qed.

(** Lines, each closed by a newline, in front of a last line. *)
Lemma split_block (ts : list jstring) (l : jstring) :
  Forall noNL ts -> noNL l ->
  split NL (concat (map (fun t => t ++ [NL]) ts) ++ l) = ts ++ [l].
Proof.
  intros Hts Hl. induction Hts as [|t ts Ht Hts IH]; simpl.
  - now apply split_single.
  - rewrite <- !app_assoc. simpl. rewrite split_line by assumption. now rewrite IH.
Qed.

Lemma join_block (ts : list jstring) :
  ts <> [] -> join [NL] ts ++ [NL] = concat (map (fun t => t ++ [NL]) ts).
Proof.
  induction ts as [|t ts IH]; intros H; [congruence|].
  destruct ts as [|t' ts].
  - simpl. now rewrite app_nil_r.
  - change (join [NL] (t :: t' :: ts)) with (t ++ [NL] ++ join [NL] (t' :: ts)).
    rewrite <- !app_assoc, IH by discriminate.
    change (concat (map (fun t0 => t0 ++ [NL]) (t :: t' :: ts)))
      with ((t ++ [NL]) ++ concat (map (fun t0 => t0 ++ [NL]) (t' :: ts))).
    now rewrite <- app_assoc.
Qed.

Lemma split_join (ls : list jstring) :
  ls <> [] -> Forall noNL ls -> split NL (join [NL] ls) = ls.
Proof.
  intros Hne Hls. induction Hls as [|l ls Hl Hls IH]; [congruence|].
  destruct ls as [|l' ls].
  - simpl. now apply split_single.
  - change (join [NL] (l :: l' :: ls)) with (l ++ NL :: join [NL] (l' :: ls)).
    rewrite split_line by assumption. rewrite IH by discriminate. reflexivity.
Qed.

Lemma documentLines_noNL (text : jstring) : Forall noNL (documentLines text).
Proof. apply split_noNL. Qed.

Lemma nth_noNL (lines : list jstring) (n : nat) :
  Forall noNL lines -> noNL (nth n lines []).
Proof.
  intros H. destruct (Nat.lt_ge_cases n (length lines)) as [Hn|Hn].
  - rewrite Forall_forall in H. apply H. now apply nth_In.
  - rewrite nth_overflow by assumption. intros [].
Qed.

Lemma skipn_nth (lines : list jstring) (n : nat) :
  n < length lines -> skipn n lines = nth n lines [] :: skipn (S n) lines.
Proof.
  revert n; induction lines as [|l ls IH]; intros n Hn; simpl in *; [lia|].
  destruct n; [reflexivity|]. apply IH. lia.
Qed.

(** Inserting a block of whole lines in front of a line of the
    document. *)
Lemma applyInsert_block (lines ts : list jstring) (n : nat) :
  Forall noNL lines -> Forall noNL ts -> n < length lines ->
  applyInsert lines n (concat (map (fun t => t ++ [NL]) ts))
  = firstn n lines ++ ts ++ skipn n lines.
Proof.
  intros Hl Hts Hn. unfold applyInsert.
  apply Nat.ltb_lt in Hn as Hn'. rewrite Hn'.
  rewrite split_block by (auto using nth_noNL).
  rewrite <- !app_assoc. simpl. now rewrite <- skipn_nth.
Qed.

End LineFacts.

(* ================================================================== *)
(** * Prototype synthesis *)

Section PrototypeFacts.

(** The loop for the last include line: the value so far when no line
    from here on is an include line, and otherwise the index of the last
    one. *)
Lemma lastIncludeLineFrom_spec (lines : list jstring) (i acc : Z) :
  (lastIncludeLineFrom lines i acc = acc /\
   Forall (fun l => isIncludeLine l = false) lines)
  \/
  (exists k, k < length lines /\
     lastIncludeLineFrom lines i acc = (i + Z.of_nat k)%Z /\
     isIncludeLine (nth k lines []) = true /\
     forall j, k < j < length lines -> isIncludeLine (nth j lines []) = false).
Proof.
  revert i acc; induction lines as [|l ls IH]; intros i acc; simpl.
  - left. split; [reflexivity|constructor].
  - destruct (isIncludeLine l) eqn:E.
    + right. destruct (IH (i + 1)%Z i) as [[H1 H2]|(k & Hk & H1 & H2 & H3)].
      * exists 0. split; [lia|]. split; [rewrite H1; lia|]. split; [assumption|].
        intros j Hj. destruct j as [|j]; [lia|].
        rewrite Forall_forall in H2. apply H2. apply nth_In. lia.
      * exists (S k). split; [lia|]. split; [rewrite H1; lia|]. split; [assumption|].
        intros j Hj. destruct j as [|j]; [lia|]. apply H3. lia.
    + destruct (IH (i + 1)%Z acc) as [[H1 H2]|(k & Hk & H1 & H2 & H3)].
      * left. split; [assumption|]. now constructor.
      * right. exists (S k). split; [lia|]. split; [rewrite H1; lia|].
        split; [assumption|].
        intros j Hj. destruct j as [|j]; [lia|]. apply H3. lia.
Qed.

Lemma lastIncludeLine_none (lines : list jstring) :
  Forall (fun l => isIncludeLine l = false) lines -> lastIncludeLine lines = (-1)%Z.
Proof.
  intros H. unfold lastIncludeLine.
  destruct (lastIncludeLineFrom_spec lines 0 (-1)) as [[H1 _]|(k & Hk & _ & H2 & _)];
    [assumption|].
  rewrite Forall_forall in H. rewrite H in H2; [discriminate|]. now apply nth_In.
Qed.

(** The last include line, when there is one. *)
Lemma lastIncludeLine_some (lines : list jstring) :
  lastIncludeLine lines <> (-1)%Z ->
  exists k, lastIncludeLine lines = Z.of_nat k /\ k < length lines /\
    isIncludeLine (nth k lines []) = true /\
    forall j, k < j < length lines -> isIncludeLine (nth j lines []) = false.
Proof.
  intros H. unfold lastIncludeLine in *.
  destruct (lastIncludeLineFrom_spec lines 0 (-1)) as [[H1 _]|(k & Hk & H1 & H2 & H3)];
    [congruence|].
  exists k. repeat split; auto.
Qed.

Lemma mainLineFrom_spec (lines : list jstring) (i : Z) :
  (mainLineFrom lines i = (-1)%Z /\
   Forall (fun l => test mainPattern l = false) lines)
  \/
  (exists k, k < length lines /\ mainLineFrom lines i = (i + Z.of_nat k)%Z /\
     test mainPattern (nth k lines []) = true).
Proof.
  revert i; induction lines as [|l ls IH]; intros i; simpl.
  - left. split; [reflexivity|constructor].
  - destruct (test mainPattern l) eqn:E.
    + right. exists 0. split; [lia|]. split; [lia|assumption].
    + destruct (IH (i + 1)%Z) as [[H1 H2]|(k & Hk & H1 & H2)].
      * left. split; [assumption|]. now constructor.
      * right. exists (S k). split; [lia|]. split; [rewrite H1; lia|assumption].
Qed.

(** No main line behind the last include line: the search gives -1. *)
Lemma mainLine_none (lines : list jstring) (k : nat) :
  (forall j line, k < j -> nth_error lines j = Some line ->
     test mainPattern line = false) ->
  mainLine lines (Z.of_nat k) = (-1)%Z.
Proof.
  intros H. unfold mainLine.
  destruct (mainLineFrom_spec (skipn (Z.to_nat (Z.of_nat k + 1)) lines) (Z.of_nat k + 1))
    as [[H1 _]|(j & Hj & _ & H2)]; [assumption|exfalso].
  replace (Z.to_nat (Z.of_nat k + 1)) with (S k) in * by lia.
  rewrite length_skipn in Hj.
  rewrite nth_skipn in H2.
  rewrite (H (S k + j) (nth (S k + j) lines [])) in H2; [discriminate|lia|].
  apply List.nth_error_nth'. lia.
Qed.

(** The main line lies behind the last include line, inside the
    document. *)
Lemma mainLine_some (lines : list jstring) (k : nat) :
  mainLine lines (Z.of_nat k) <> (-1)%Z ->
  exists n, mainLine lines (Z.of_nat k) = Z.of_nat n /\ k < n < length lines.
Proof.
  unfold mainLine. intros H.
  destruct (mainLineFrom_spec (skipn (Z.to_nat (Z.of_nat k + 1)) lines) (Z.of_nat k + 1))
    as [[H1 _]|(j & Hj & H1 & _)]; [congruence|].
  replace (Z.to_nat (Z.of_nat k + 1)) with (S k) in * by lia.
  rewrite length_skipn in Hj.
  exists (S k + j). split; [rewrite H1|]; lia.
Qed.

Lemma In_firstn (A : Type) (n : nat) (l : list A) (x : A) :
  In x (firstn n l) -> In x l.
Proof.
  intros H. rewrite <- (firstn_skipn n l). apply in_or_app. now left.
Qed.

Lemma In_skipn (A : Type) (n : nat) (l : list A) (x : A) :
  In x (skipn n l) -> In x l.
Proof.
  intros H. rewrite <- (firstn_skipn n l). apply in_or_app. now right.
Qed.

Lemma substr_In (l : jstring) (a b : nat) (x : char) : In x (substr l a b) -> In x l.
Proof.
  unfold substr. intros H. apply In_firstn in H. now apply In_skipn in H.
Qed.

Lemma group_In (l : jstring) (res : result) (n : nat) (x : char) :
  In x (group l res n) -> In x l.
Proof.
  unfold group. destruct (lookupCap _ _) as [[a b]|]; [apply substr_In|intros []].
Qed.

Lemma trimStart_In (s : jstring) (x : char) : In x (trimStart s) -> In x s.
Proof.
  induction s as [|c s IH]; simpl; [auto|].
  destruct (isWhiteSpace c); [intros H; right; auto|auto].
Qed.

Lemma trim_In (s : jstring) (x : char) : In x (trim s) -> In x s.
Proof.
  unfold trim, trimEnd. intros H.
  apply in_rev, trimStart_In, in_rev in H. now apply trimStart_In.
Qed.

(** A prototype is one line and ends in a semicolon. *)
Lemma functionOfLine_prototype (line : jstring) (f : FoundFunction) :
  noNL line -> In f (functionOfLine line) ->
  noNL (prototype f) /\ endsWith (prototype f) (lit ";") = true.
Proof.
  unfold functionOfLine. intros Hl Hf.
  destruct (exec functionPattern line 0) as [[st res]|]; [|contradiction].
  destruct (negb _); [|contradiction].
  destruct Hf as [<-|[]]. cbn [prototype]. split.
  - intros H. rewrite !in_app_iff in H.
    destruct H as [H|[H|[H|[H|[H|H]]]]].
    + now apply group_In in H.
    + simpl in H. destruct H as [H|[]]. discriminate.
    + now apply group_In in H.
    + simpl in H. destruct H as [H|[]]. discriminate.
    + now apply trim_In, group_In in H.
    + simpl in H. destruct H as [H|[H|[]]]; discriminate.
  - apply endsWith_spec.
    exists (group line res 1 ++ lit " " ++ group line res 2 ++ lit "("
            ++ trim (group line res 3) ++ lit ")").
    rewrite <- !app_assoc. reflexivity.
Qed.

Lemma foundFunctions_prototype (lines : list jstring) (main : Z) (f : FoundFunction) :
  Forall noNL lines -> In f (foundFunctions lines main) ->
  noNL (prototype f) /\ endsWith (prototype f) (lit ";") = true.
Proof.
  unfold foundFunctions. intros Hl Hf.
  apply in_flat_map in Hf as (line & Hline & Hf).
  apply functionOfLine_prototype with (line := line); [|assumption].
  rewrite Forall_forall in Hl. apply Hl. now apply In_skipn in Hline.
Qed.

End PrototypeFacts.

(** C9: a document without an include line (a line whose text starts,
    after leading white space, with #include), and a document without a
    main definition header behind its last include line, are left as they
    are: no edit is issued. *)
Theorem prototypes_abort (isProcessingChange editorShowsDocument : bool) (text : jstring) :
  let lines := documentLines text in
  Forall (fun l => isIncludeLine l = false) lines \/
  (forall j line, (lastIncludeLine lines < Z.of_nat j)%Z ->
     nth_error lines j = Some line -> test mainPattern line = false) ->
  autoGeneratePrototypes isProcessingChange editorShowsDocument text = None /\
  applyEdit lines (autoGeneratePrototypes isProcessingChange editorShowsDocument text)
    = lines.
Proof.
  intros lines H.
  assert (autoGeneratePrototypes isProcessingChange editorShowsDocument text = None)
    as E; [|now rewrite E].
  unfold autoGeneratePrototypes.
  destruct isProcessingChange; [reflexivity|].
  destruct editorShowsDocument; [|reflexivity].
  cbv zeta. fold lines. simpl negb. cbv iota.
  destruct H as [H|H].
  - now rewrite (lastIncludeLine_none lines H).
  - destruct (Z.eqb_spec (lastIncludeLine lines) (-1)) as [|Hne]; [reflexivity|].
    destruct (lastIncludeLine_some lines Hne) as (k & Hk & _).
    rewrite Hk in *. rewrite mainLine_none; [reflexivity|].
    intros j line Hj. apply H. lia.
Qed.

Lemma prototypes_abort_witness :
  let text := lit "#include <stdio.h>" ++ [NL] ++ lit "int add(int a) {" ++ [NL] ++ lit "}" in
  autoGeneratePrototypes false true text = None.
Proof.
  cbv zeta.
  refine (proj1 (prototypes_abort false true
            (lit "#include <stdio.h>" ++ [NL] ++ lit "int add(int a) {" ++ [NL] ++ lit "}") _)).
  right. intros j line Hj Hnth.
  destruct j as [|[|[|j]]]; vm_compute in Hj, Hnth; try discriminate;
    try (injection Hnth as <-; vm_compute; reflexivity).
  destruct j; discriminate.
Defined.

Section PrototypeEdit.

Lemma prototypesText_block (missing : list FoundFunction) :
  missing <> [] ->
  prototypesText missing
  = concat (map (fun t => t ++ [NL]) ([] :: map prototype missing)).
Proof.
  intros H. unfold prototypesText.
  change (concat (map (fun t => t ++ [NL]) ([] :: map prototype missing)))
    with ([NL] ++ concat (map (fun t => t ++ [NL]) (map prototype missing))).
  rewrite join_block; [reflexivity|].
  destruct missing; [congruence|discriminate].
Qed.

Lemma missingPrototypes_In (area : jstring) (found : list FoundFunction) (f : FoundFunction) :
  In f (missingPrototypes area found) -> In f found.
Proof. unfold missingPrototypes. intros H. now apply filter_In in H. Qed.

End PrototypeEdit.

(** C3, as stated, fails: no blank line follows the inserted block; the
    line that came after the last include line follows it directly. *)
Lemma prototypes_no_blank_line_after :
  let text := lit "#include <stdio.h>" ++ [NL] ++ lit "int main() {" ++ [NL] ++ lit "}"
              ++ [NL] ++ lit "int add(int a, int b) {" ++ [NL] ++ lit "}" in
  applyEdit (documentLines text) (autoGeneratePrototypes false true text)
  = [ lit "#include <stdio.h>"; []; lit "int add(int a, int b);";
      lit "int main() {"; lit "}"; lit "int add(int a, int b) {"; lit "}" ]
  /\
  applyEdit (documentLines text) (autoGeneratePrototypes false true text)
  <> [ lit "#include <stdio.h>"; []; lit "int add(int a, int b);"; [];
       lit "int main() {"; lit "}"; lit "int add(int a, int b) {"; lit "}" ].
Proof. vm_compute. split; [reflexivity|discriminate]. Qed.

(** C3, amended: whenever at least one candidate prototype is missing
    from the prototype area (and no other pass is being processed), all
    missing prototypes are inserted as one block directly behind the last
    include line: a blank line, then one prototype per line, each ending
    in a semicolon, in the order in which their definitions were found;
    the line that followed the last include line comes right after the
    block. *)
Theorem prototypes_inserted (text : jstring) :
  let lines := documentLines text in
  let lastInclude := lastIncludeLine lines in
  let main := mainLine lines lastInclude in
  let found := foundFunctions lines main in
  let missing := missingPrototypes (prototypeArea lines lastInclude main) found in
  lastInclude <> (-1)%Z -> main <> (-1)%Z -> missing <> [] ->
  let at_ := Z.to_nat (lastInclude + 1) in
  autoGeneratePrototypes false true text
    = Some (mkEdit at_ 0 ([NL] ++ join [NL] (map prototype missing) ++ [NL]))
  /\ isIncludeLine (nth (at_ - 1) lines []) = true
  /\ applyEdit lines (autoGeneratePrototypes false true text)
     = firstn at_ lines ++ [[]] ++ map prototype missing ++ skipn at_ lines
  /\ Forall (fun p => noNL p /\ endsWith p (lit ";") = true) (map prototype missing)
  /\ missing = filter (fun f => negb (test (prototypePattern (Prototypes.name f))
                                        (prototypeArea lines lastInclude main)))
                 (flat_map functionOfLine (skipn (Z.to_nat (main + 1)) lines)).
Proof.
  intros lines lastInclude main found missing Hinc Hmain Hmiss at_.
  destruct (lastIncludeLine_some lines Hinc) as (k & Hk & Hklt & Hkinc & _).
  fold lastInclude in Hk.
  assert (Hmain' : mainLine lines (Z.of_nat k) <> (-1)%Z)
    by (rewrite <- Hk; exact Hmain).
  destruct (mainLine_some lines k Hmain') as (n & Hn & Hkn).
  assert (Hat : at_ = S k) by (unfold at_; rewrite Hk; lia).
  assert (Hedit : autoGeneratePrototypes false true text
                  = Some (mkEdit at_ 0 ([NL] ++ join [NL] (map prototype missing) ++ [NL]))).
  { unfold autoGeneratePrototypes. cbv zeta. simpl negb. cbv iota.
    fold lines. fold lastInclude.
    destruct (Z.eqb_spec lastInclude (-1)) as [|_]; [contradiction|].
    fold main. destruct (Z.eqb_spec main (-1)) as [|_]; [contradiction|].
    fold found. fold missing.
    destruct (length found =? 0) eqn:Ef.
    - apply Nat.eqb_eq in Ef. exfalso. apply Hmiss.
      destruct found; [reflexivity|discriminate].
    - destruct (0 <? length missing) eqn:Em; [reflexivity|].
      apply Nat.ltb_ge in Em. exfalso. apply Hmiss.
      destruct missing; [reflexivity|simpl in Em; lia]. }
  assert (Hprotos : Forall (fun p => noNL p /\ endsWith p (lit ";") = true)
                      (map prototype missing)).
  { apply Forall_forall. intros p Hp. apply in_map_iff in Hp as (f & <- & Hf).
    apply missingPrototypes_In in Hf.
    apply (foundFunctions_prototype lines main f (documentLines_noNL text) Hf). }
  split; [exact Hedit|]. split; [|split; [|split; [exact Hprotos|reflexivity]]].
  - rewrite Hat. simpl. now rewrite Nat.sub_0_r.
  - rewrite Hedit. unfold applyEdit. cbn [insertLine insertText].
    change ([NL] ++ join [NL] (map prototype missing) ++ [NL])
      with (prototypesText missing).
    rewrite (prototypesText_block missing Hmiss).
    rewrite applyInsert_block.
    + reflexivity.
    + apply documentLines_noNL.
    + constructor; [intros []|].
      apply Forall_forall. intros p Hp. rewrite Forall_forall in Hprotos.
      now apply Hprotos.
    + rewrite Hat. fold lines. lia.
Qed.

Lemma prototypes_inserted_witness :
  let text := lit "#include <stdio.h>" ++ [NL] ++ lit "int main() {" ++ [NL] ++ lit "}"
              ++ [NL] ++ lit "int add(int a, int b) {" ++ [NL] ++ lit "}" in
  autoGeneratePrototypes false true text
  = Some (mkEdit 1 0 ([NL] ++ lit "int add(int a, int b);" ++ [NL])).
Proof.
  cbv zeta.
  refine (proj1 (prototypes_inserted
            (lit "#include <stdio.h>" ++ [NL] ++ lit "int main() {" ++ [NL] ++ lit "}"
              ++ [NL] ++ lit "int add(int a, int b) {" ++ [NL] ++ lit "}") _ _ _)).
  - vm_compute. discriminate.
  - vm_compute. discriminate.
  - vm_compute. discriminate.
Defined.

(* ================================================================== *)
(** * Header inference *)

Section SetFacts.

Lemma value_eqb_eq (a b : value) : value_eqb a b = true <-> a = b.
Proof.
  destruct a, b; simpl; try rewrite str_eqb_eq;
    split; intros H; try discriminate; try congruence; reflexivity.
Qed.

Lemma has_In (set : list value) (v : value) : has set v = true <-> In v set.
Proof.
  unfold has. rewrite existsb_exists. split.
  - intros (w & Hw & E). apply value_eqb_eq in E. now subst.
  - intros H. exists v. split; [assumption|]. now apply value_eqb_eq.
Qed.

Lemma add_In (set : list value) (v w : value) :
  In w (add set v) <-> In w set \/ w = v.
Proof.
  unfold add. destruct (has set v) eqn:E.
  - apply has_In in E. split; [tauto|]. intros [H|H]; [assumption|now subst].
  - rewrite in_app_iff. simpl. intuition congruence.
Qed.


Lemma fold_left_In_mono (A B : Type) (f : list A -> B -> list A) (l : list B) :
  (forall acc x v, In v acc -> In v (f acc x)) ->
  forall acc v, In v acc -> In v (fold_left f l acc).
Proof.
  intros Hf. induction l as [|x l IH]; intros acc v H; simpl; [assumption|].
  apply IH. now apply Hf.
Qed.

Lemma fold_left_In_emit (A B : Type) (f : list A -> B -> list A) (l : list B)
  (x : B) (v : A) :
  (forall acc x v, In v acc -> In v (f acc x)) ->
  In x l -> (forall acc, In v (f acc x)) ->
  forall acc, In v (fold_left f l acc).
Proof.
  intros Hf Hx Hv. induction l as [|y l IH]; intros acc; simpl; [contradiction|].
  destruct Hx as [->|Hx].
  - apply fold_left_In_mono; [assumption|apply Hv].
  - now apply IH.
Qed.

Lemma fold_left_invariant (A B : Type) (P : A -> Prop) (f : A -> B -> A) (l : list B) :
  (forall acc x, In x l -> P acc -> P (f acc x)) ->
  forall acc, P acc -> P (fold_left f l acc).
Proof.
  induction l as [|x l IH]; intros Hf acc H; simpl; [assumption|].
  apply IH.
  - intros acc' y Hy. apply Hf. now right.
  - apply Hf; [now left|assumption].
Qed.

End SetFacts.

Section OrderFacts.

Lemma str_ltb_irrefl (a : jstring) : str_ltb a a = false.
Proof.
  induction a as [|x a IH]; simpl; [reflexivity|].
  now rewrite N.ltb_irrefl.
Qed.






Lemma insert_Permutation (v : value) (l : list value) :
  Permutation (insert v l) (v :: l).
Proof.
  induction l as [|w l IH]; simpl; [reflexivity|].
  destruct (str_leb _ _); [reflexivity|].
  rewrite IH. apply perm_swap.
Qed.

Lemma sort_Permutation (l : list value) : Permutation (sort l) l.
Proof.
  induction l as [|v l IH]; simpl; [reflexivity|].
  rewrite insert_Permutation. now constructor.
Qed.



End OrderFacts.

Section HeaderFacts.

Lemma assoc_In (A : Type) (l : list (jstring * A)) (k : jstring) (v : A) :
  assoc l k = Some v -> In (k, v) l.
Proof.
  induction l as [|[k' v'] l IH]; simpl; [discriminate|].
  destruct (str_eqb k' k) eqn:E.
  - intros H. injection H as ->. apply str_eqb_eq in E. subst. now left.
  - intros H. right. now apply IH.
Qed.

Lemma noNLb_noNL (s : jstring) : noNLb s = true -> noNL s.
Proof.
  unfold noNLb, noNL. intros H Hin. apply negb_true_iff in H.
  assert (existsb (char_eqb NL) s = true); [|congruence].
  apply existsb_exists. exists NL. split; [assumption|apply char_eqb_refl].
Qed.

(** Whatever a lookup in the header table gives prints as one line. *)
Lemma get_noNL (k : jstring) (v : value) :
  get FUNCTION_TO_HEADER k = Some v -> noNL (toString v).
Proof.
  unfold get. destruct (assoc FUNCTION_TO_HEADER k) as [h|] eqn:E.
  - intros H. injection H as <-. apply assoc_In in E.
    assert (Hall : forallb (fun e => noNLb (snd e)) FUNCTION_TO_HEADER = true)
      by (vm_compute; reflexivity).
    rewrite forallb_forall in Hall. apply noNLb_noNL. apply (Hall _ E).
  - intros H. apply assoc_In in H.
    assert (Hall : forallb (fun e => noNLb (toString (snd e))) Object_prototype = true)
      by (vm_compute; reflexivity).
    rewrite forallb_forall in Hall. apply noNLb_noNL. apply (Hall _ H).
Qed.

(** The headers of the table are not empty. *)
Lemma FUNCTION_TO_HEADER_truthy (k h : jstring) :
  assoc FUNCTION_TO_HEADER k = Some h -> truthy (VStr h) = true.
Proof.
  intros E. apply assoc_In in E.
  assert (Hall : forallb (fun e => truthy (VStr (snd e))) FUNCTION_TO_HEADER = true)
    by (vm_compute; reflexivity).
  rewrite forallb_forall in Hall. apply (Hall _ E).
Qed.

Lemma requireHeaderOf_mono (included required : list value) (f : jstring) (v : value) :
  In v required -> In v (requireHeaderOf included required f).
Proof.
  intros H. unfold requireHeaderOf.
  destruct (get FUNCTION_TO_HEADER f) as [header|]; [|assumption].
  destruct (_ && _); [|assumption]. apply add_In. now left.
Qed.

Lemma requireHeaderOf_inv (included required : list value) (f : jstring) (v : value) :
  In v (requireHeaderOf included required f) ->
  In v required \/
  (get FUNCTION_TO_HEADER f = Some v /\ has included v = false).
Proof.
  unfold requireHeaderOf.
  destruct (get FUNCTION_TO_HEADER f) as [header|]; [|now left].
  destruct (truthy header && negb (has included header)) eqn:E; [|now left].
  intros H. apply add_In in H as [H | ->]; [now left|right].
  apply andb_true_iff in E as [_ E]. apply negb_true_iff in E. auto.
Qed.


Lemma scanLine_mono (included required : list value) (line : jstring) (v : value) :
  In v required -> In v (scanLine included required line).
Proof.
  apply fold_left_In_mono. intros acc x w. apply requireHeaderOf_mono.
Qed.

(** A call of a function of the table whose header is not included puts
    the header into the result set. *)
Lemma requiredHeadersFrom_complete (included : list value) (lines : list jstring)
  (line fname h : jstring) :
  In line lines -> In fname (callsIn (stripComment line)) ->
  assoc FUNCTION_TO_HEADER fname = Some h ->
  has included (VStr h) = false ->
  In (VStr h) (requiredHeadersFrom included lines).
Proof.
  intros Hline Hcall Hh Hinc. unfold requiredHeadersFrom.
  apply (fold_left_In_emit _ _ (scanLine included) lines line (VStr h)).
  - intros acc x v. apply scanLine_mono.
  - assumption.
  - intros acc. unfold scanLine.
    apply (fold_left_In_emit _ _ (requireHeaderOf included) _ fname (VStr h)).
    + intros acc' x v. apply requireHeaderOf_mono.
    + assumption.
    + intros acc'. unfold requireHeaderOf, get. rewrite Hh.
      rewrite (FUNCTION_TO_HEADER_truthy fname h Hh), Hinc. simpl.
      apply add_In. now right.
Qed.

(** Every header of the result set comes from a call and is not
    included yet. *)
Lemma requiredHeadersFrom_sound (included : list value) (lines : list jstring)
  (v : value) :
  In v (requiredHeadersFrom included lines) ->
  exists line fname, In line lines /\ In fname (callsIn (stripComment line)) /\
    get FUNCTION_TO_HEADER fname = Some v /\ has included v = false.
Proof.
  unfold requiredHeadersFrom.
  assert (G : forall ls acc,
             (forall x, In x ls -> In x lines) ->
             In v (fold_left (scanLine included) ls acc) ->
             In v acc \/
             exists line fname, In line lines /\ In fname (callsIn (stripComment line)) /\
               get FUNCTION_TO_HEADER fname = Some v /\ has included v = false).
  { induction ls as [|l ls IH]; intros acc Hsub H; simpl in H; [now left|].
    apply IH in H; [|intros x Hx; apply Hsub; now right].
    destruct H as [H|H]; [|now right].
    assert (L : forall cs acc',
               (forall c, In c cs -> In c (callsIn (stripComment l))) ->
               In v (fold_left (requireHeaderOf included) cs acc') ->
               In v acc' \/
               exists fname, In fname (callsIn (stripComment l)) /\
                 get FUNCTION_TO_HEADER fname = Some v /\ has included v = false).
    { induction cs as [|c cs IHc]; intros acc' Hc Hv; simpl in Hv; [now left|].
      apply IHc in Hv; [|intros c' Hc'; apply Hc; now right].
      destruct Hv as [Hv|Hv]; [|now right].
      apply requireHeaderOf_inv in Hv as [Hv|Hv]; [now left|right].
      exists c. split; [apply Hc; now left|assumption]. }
    apply L in H; [|auto].
    destruct H as [H|(fname & H1 & H2)]; [now left|right].
    exists l, fname. split; [apply Hsub; now left|]. auto. }
  intros H. apply G in H; [|auto]. destruct H as [[]|H]. exact H.
Qed.


(** The two loops over the include lines agree: the insertion line is
    the line behind the last include line. *)
Lemma insertionLineFrom_last (lines : list jstring) (i acc : nat) :
  Z.of_nat (insertionLineFrom lines i acc)
  = (lastIncludeLineFrom lines (Z.of_nat i) (Z.of_nat acc - 1) + 1)%Z.
Proof.
  revert i acc; induction lines as [|l ls IH]; intros i acc; simpl.
  - lia.
  - rewrite IH. destruct (isIncludeLine l).
    + replace (Z.of_nat (S i) - 1)%Z with (Z.of_nat i) by lia.
      replace (Z.of_nat i + 1)%Z with (Z.of_nat (S i)) by lia. reflexivity.
    + replace (Z.of_nat i + 1)%Z with (Z.of_nat (S i)) by lia. reflexivity.
Qed.

Lemma insertionLine_last (lines : list jstring) :
  insertionLine lines = Z.to_nat (lastIncludeLine lines + 1).
Proof.
  unfold insertionLine, lastIncludeLine.
  pose proof (insertionLineFrom_last lines 0 0) as H. simpl in H.
  rewrite <- H. now rewrite Nat2Z.id.
Qed.


Lemma headerText_block (headers : list value) :
  headers <> [] ->
  headerText headers
  = concat (map (fun t => t ++ [NL]) (map includeDirective headers)).
Proof.
  intros H. unfold headerText. apply join_block.
  destruct headers; [congruence|discriminate].
Qed.

Lemma includeDirective_noNL (v : value) : noNL (toString v) -> noNL (includeDirective v).
Proof.
  unfold includeDirective, noNL. intros H Hin. rewrite !in_app_iff in Hin.
  destruct Hin as [Hin|[Hin|Hin]].
  - revert Hin. apply noNLb_noNL. vm_compute. reflexivity.
  - contradiction.
  - revert Hin. apply noNLb_noNL. vm_compute. reflexivity.
Qed.

End HeaderFacts.




Section Idempotence.

Lemma includedHeaders_fold (lines : list jstring) (acc : list value) (v : value) :
  In v (fold_left
          (fun included line =>
             match exec includePattern line 0 with
             | Some (_, res) => add included (VStr (group line res 1))
             | None => included
             end) lines acc)
  <-> In v acc \/ exists line, In line lines /\ includedHeaderOf line = Some v.
Proof.
  revert acc; induction lines as [|l ls IH]; intros acc; simpl.
  - split; [now left|]. intros [H|(line & [] & _)]. exact H.
  - rewrite IH. unfold includedHeaderOf at 2.
    destruct (exec includePattern l 0) as [[st res]|] eqn:E.
    + rewrite add_In. split.
      * intros [[H|H]|(line & H1 & H2)].
        -- now left.
        -- right. exists l. split; [now left|]. unfold includedHeaderOf. rewrite E.
           now subst.
        -- right. exists line. split; [now right|assumption].
      * intros [H|(line & [<-|H1] & H2)].
        -- left. now left.
        -- left. right. unfold includedHeaderOf in H2. rewrite E in H2. congruence.
        -- right. exists line. auto.
    + split.
      * intros [H|(line & H1 & H2)]; [now left|].
        right. exists line. split; [now right|assumption].
      * intros [H|(line & [<-|H1] & H2)]; [now left| |].
        -- unfold includedHeaderOf in H2. rewrite E in H2. discriminate.
        -- right. exists line. auto.
Qed.

(** The set of included headers: the headers of the include lines. *)
Lemma includedHeaders_In (lines : list jstring) (v : value) :
  In v (includedHeaders lines)
  <-> exists line, In line lines /\ includedHeaderOf line = Some v.
Proof.
  unfold includedHeaders. rewrite includedHeaders_fold. split.
  - intros [[]|H]. exact H.
  - now right.
Qed.

Lemma requiredHeadersFrom_none (included : list value) (lines : list jstring) :
  (forall line fname, In line lines -> In fname (callsIn (stripComment line)) ->
     requireHeaderOf included [] fname = []) ->
  requiredHeadersFrom included lines = [].
Proof.
  intros H. unfold requiredHeadersFrom.
  apply (fold_left_invariant _ _ (fun acc => acc = [])); [|reflexivity].
  intros acc line Hline ->.
  apply (fold_left_invariant _ _ (fun acc => acc = [])); [|reflexivity].
  intros acc fname Hf ->. now apply (H line).
Qed.

(** An include line written by the extension for a header of the table
    holds no call and includes that header. *)
Lemma includeDirective_table (fname h : jstring) :
  assoc FUNCTION_TO_HEADER fname = Some h ->
  callsIn (stripComment (includeDirective (VStr h))) = [] /\
  includedHeaderOf (includeDirective (VStr h)) = Some (VStr h).
Proof.
  intros H. apply assoc_In in H.
  assert (Hall :
    forallb (fun e =>
               match callsIn (stripComment (includeDirective (VStr (snd e)))) with
               | [] => true
               | _ => false
               end &&
               match includedHeaderOf (includeDirective (VStr (snd e))) with
               | Some (VStr s) => str_eqb s (snd e)
               | _ => false
               end) FUNCTION_TO_HEADER = true)
    by (vm_compute; reflexivity).
  rewrite forallb_forall in Hall. specialize (Hall _ H). simpl snd in Hall.
  apply andb_true_iff in Hall as [H1 H2]. split.
  - destruct (callsIn _); [reflexivity|discriminate].
  - destruct (includedHeaderOf _) as [[s| |]|]; try discriminate.
    apply str_eqb_eq in H2. now subst.
Qed.

Lemma autoAddRequiredHeaders_none (text : jstring) :
  requiredHeaders (documentLines text) = [] ->
  autoAddRequiredHeaders true text = None.
Proof.
  intros H. unfold autoAddRequiredHeaders. simpl negb. cbv iota zeta.
  now rewrite H.
Qed.

Lemma get_own (fname : jstring) (v : value) :
  assoc Object_prototype fname = None ->
  get FUNCTION_TO_HEADER fname = Some v ->
  exists h, v = VStr h /\ assoc FUNCTION_TO_HEADER fname = Some h.
Proof.
  unfold get. intros Hp. destruct (assoc FUNCTION_TO_HEADER fname) as [h|].
  - intros H. injection H as <-. now exists h.
  - congruence.
Qed.

End Idempotence.

(** X1: idempotence of header inference, where it holds: when no call in
    the document names a property that the header table inherits from
    [Object.prototype], and the insertion line lies inside the document,
    a second pass over the result of the first finds no missing header
    and issues no edit. *)
Theorem header_inference_idempotent (text : jstring) :
  let lines := documentLines text in
  (forall line fname, In line lines -> In fname (callsIn (stripComment line)) ->
     assoc Object_prototype fname = None) ->
  insertionLine lines < length lines ->
  let text' := join [NL] (applyEdit lines (autoAddRequiredHeaders true text)) in
  autoAddRequiredHeaders true text' = None.
Proof.
  intros lines Hown Hin text'.
  assert (Hlines : Forall noNL lines) by apply documentLines_noNL.
  destruct (requiredHeaders lines) as [|r0 rs] eqn:Ereq.
  - (* nothing was missing: the document is unchanged *)
    assert (E : autoAddRequiredHeaders true text = None)
      by now apply autoAddRequiredHeaders_none.
    unfold text'. rewrite E. simpl applyEdit.
    apply autoAddRequiredHeaders_none. unfold documentLines at 1.
    rewrite split_join; [exact Ereq| |exact Hlines].
    unfold lines, documentLines. apply split_nonempty.
  - (* the first pass inserted the block *)
    set (required := requiredHeaders lines) in *.
    assert (Hreq : forall v, In v required ->
              exists fname h, v = VStr h /\ assoc FUNCTION_TO_HEADER fname = Some h).
    { intros v Hv. apply requiredHeadersFrom_sound in Hv as (l & f & H1 & H2 & H3 & _).
      destruct (get_own f v (Hown l f H1 H2) H3) as (h & -> & Hh). eauto. }
    assert (Hperm := sort_Permutation required).
    assert (Hne : sort required <> []).
    { intros E. rewrite E in Hperm. apply Permutation_nil in Hperm.
      rewrite Hperm in Ereq. discriminate. }
    assert (Hedit : autoAddRequiredHeaders true text
                    = Some (mkEdit (insertionLine lines) 0 (headerText (sort required)))).
    { unfold autoAddRequiredHeaders. simpl negb. cbv iota zeta. fold lines.
      fold required. rewrite Ereq. reflexivity. }
    assert (Hdir : Forall noNL (map includeDirective (sort required))).
    { apply Forall_forall. intros d Hd. apply in_map_iff in Hd as (v & <- & Hv).
      apply includeDirective_noNL. apply (Permutation_in _ Hperm) in Hv.
      apply requiredHeadersFrom_sound in Hv as (l & f & _ & _ & Hget & _).
      now apply get_noNL in Hget. }
    assert (Hnew : applyEdit lines (autoAddRequiredHeaders true text)
                   = firstn (insertionLine lines) lines
                     ++ map includeDirective (sort required)
                     ++ skipn (insertionLine lines) lines).
    { rewrite Hedit. unfold applyEdit. cbn [insertLine insertText].
      rewrite (headerText_block _ Hne). now apply applyInsert_block. }
    set (lines' := applyEdit lines (autoAddRequiredHeaders true text)) in *.
    assert (Hmem : forall l, In l lines' <->
              In l lines \/ In l (map includeDirective (sort required))).
    { intros l. rewrite Hnew, !in_app_iff. split.
      - intros [H|[H|H]].
        + left. now apply In_firstn in H.
        + now right.
        + left. now apply In_skipn in H.
      - intros [H|H]; [|right; now left].
        rewrite <- (firstn_skipn (insertionLine lines) lines) in H.
        apply in_app_iff in H as [H|H]; [now left|right; now right]. }
    assert (Hdoc : documentLines text' = lines').
    { unfold text', documentLines. apply split_join.
      - rewrite Hnew. destruct (sort required) as [|v vs]; [congruence|].
        intros E. apply app_eq_nil in E as [_ E]. discriminate.
      - apply Forall_forall. intros l Hl. apply Hmem in Hl as [Hl|Hl].
        + rewrite Forall_forall in Hlines. now apply Hlines.
        + rewrite Forall_forall in Hdir. now apply Hdir. }
    apply autoAddRequiredHeaders_none. rewrite Hdoc.
    unfold requiredHeaders. apply requiredHeadersFrom_none.
    intros l fname Hl Hcall.
    apply Hmem in Hl as [Hl|Hl].
    + (* a line of the document *)
      unfold requireHeaderOf.
      destruct (get FUNCTION_TO_HEADER fname) as [v|] eqn:Eget; [|reflexivity].
      destruct (get_own fname v (Hown l fname Hl Hcall) Eget) as (h & -> & Hh).
      assert (Hhas : has (includedHeaders lines') (VStr h) = true).
      { apply has_In, includedHeaders_In.
        destruct (has (includedHeaders lines) (VStr h)) eqn:E.
        - apply has_In, includedHeaders_In in E as (l0 & Hl0 & E).
          exists l0. split; [apply Hmem; now left|exact E].
        - exists (includeDirective (VStr h)). split.
          + apply Hmem. right. apply in_map.
            apply (Permutation_in _ (Permutation_sym Hperm)).
            apply (requiredHeadersFrom_complete _ lines l fname h Hl Hcall Hh E).
          + apply (includeDirective_table fname h Hh). }
      rewrite Hhas. now rewrite andb_false_r.
    + (* an inserted include line holds no call *)
      apply in_map_iff in Hl as (v & <- & Hv).
      apply (Permutation_in _ Hperm) in Hv.
      destruct (Hreq v Hv) as (f & h & -> & Hh).
      rewrite (proj1 (includeDirective_table f h Hh)) in Hcall. contradiction.
Qed.

Lemma header_inference_idempotent_witness :
  let text := lit "#include <stdio.h>" ++ [NL] ++ lit "int main(){ sqrt(x); strlen(s); }" in
  autoAddRequiredHeaders true
    (join [NL] (applyEdit (documentLines text) (autoAddRequiredHeaders true text)))
  = None.
Proof.
  cbv zeta.
  refine (header_inference_idempotent
            (lit "#include <stdio.h>" ++ [NL] ++ lit "int main(){ sqrt(x); strlen(s); }")
            _ _).
  - intros line fname Hline Hcall.
    vm_compute in Hline. destruct Hline as [<-|[<-|[]]]; vm_compute in Hcall.
    + contradiction.
    + destruct Hcall as [<-|[<-|[<-|[]]]]; reflexivity.
  - vm_compute. lia.
Defined.

(** C8: a call of a function named like a property that every object
    inherits makes the inference insert a line for that property's value,
    and the next pass inserts it again: the second run is not empty. *)
Theorem header_inference_not_idempotent :
  let text := lit "int toString(int x);" in
  let text' := join [NL] (applyEdit (documentLines text) (autoAddRequiredHeaders true text)) in
  documentLines text'
  = [ lit "#include <function toString() { [native code] }>"; lit "int toString(int x);" ]
  /\ requiredHeaders (documentLines text') = [VFun (lit "toString")]
  /\ autoAddRequiredHeaders true text'
     = Some (mkEdit 1 0 (lit "#include <function toString() { [native code] }>" ++ [NL])).
Proof. vm_compute. auto. Qed.

(** The same happens when the document ends in its last include line:
    the position of the edit lies past the last line, the editor moves it
    to the end of the document, and the next pass does not find the
    header. *)
Lemma header_inference_past_last_line :
  let text := lit "int f() { return strlen(s); }" ++ [NL] ++ lit "#include <stdio.h>" in
  let text' := join [NL] (applyEdit (documentLines text) (autoAddRequiredHeaders true text)) in
  autoAddRequiredHeaders true text = Some (mkEdit 2 0 (lit "#include <string.h>" ++ [NL]))
  /\ length (documentLines text) = 2
  /\ documentLines text'
     = [ lit "int f() { return strlen(s); }"; lit "#include <stdio.h>#include <string.h>"; [] ]
  /\ autoAddRequiredHeaders true text'
     = Some (mkEdit 2 0 (lit "#include <string.h>" ++ [NL])).
Proof. vm_compute. auto. Qed.

Section LoopFacts.

(** Every match of the call pattern holds a parenthesis: it is not
    empty. *)
Lemma functionCallPattern_progress (s : jstring) (i j : nat) (c c' : captures) :
  Matches s functionCallPattern i c j c' -> i < j /\ j <= length s.
Proof.
  unfold functionCallPattern. simpl Seqs.
  intros (j1 & c1 & H1 & j2 & c2 & H2 & j3 & c3 & H3 & H4).
  apply Matches_bounds in H1, H2, H3.
  change (StepTo s (char_eqb (ch "(")) j3 c3 j c') in H4.
  destruct H4 as (x & Hx & _ & -> & _). apply charAt_lt in Hx. lia.
Qed.

(** The loop over the matches of a pattern whose matches are never
    empty ends by itself: more fuel than the characters that are left
    changes nothing. *)
Lemma execAll_fuel (r : regex) (s : jstring) :
  (forall i c j c', Matches s r i c j c' -> i < j /\ j <= length s) ->
  forall fuel1 fuel2 lastIndex,
    length s - lastIndex < fuel1 -> length s - lastIndex < fuel2 ->
    execAll fuel1 r s lastIndex = execAll fuel2 r s lastIndex.
Proof.
  intros Hr. induction fuel1 as [|fuel1 IH]; intros fuel2 li H1 H2; [lia|].
  destruct fuel2 as [|fuel2]; [lia|]. simpl.
  destruct (exec r s li) as [[st res]|] eqn:E; [|reflexivity].
  apply exec_sound in E as [Hst HM]. apply Hr in HM.
  f_equal. apply IH; lia.
Qed.

(** X2: [S (length s)] rounds are enough for the calls of a line. *)
Theorem execAll_functionCall_fuel (s : jstring) (fuel : nat) :
  S (length s) <= fuel ->
  execAll fuel functionCallPattern s 0 = execAll (S (length s)) functionCallPattern s 0.
Proof.
  intros H. apply execAll_fuel; [|lia|lia].
  intros i c j c'. apply functionCallPattern_progress.
Qed.

Lemma firstn_S_nth (s : jstring) (i : nat) (x : char) :
  nth_error s i = Some x -> firstn (S i) s = firstn i s ++ [x].
Proof.
  revert i; induction s as [|y s IH]; intros [|i] H; simpl in *; try discriminate.
  - now injection H as ->.
  - f_equal. now apply IH.
Qed.

(** A literal pattern matches only its own text. *)
Lemma Matches_Str_inv (s p : jstring) (i j : nat) (c c' : captures) :
  Matches s (Str p) i c j c' -> i <= length s ->
  exists b, s = firstn i s ++ p ++ b.
Proof.
  revert i c; induction p as [|x p IH]; intros i c H Hi; simpl in H.
  - exists (skipn i s). simpl. now rewrite firstn_skipn.
  - destruct H as (j1 & c1 & (y & Hy & Hxy & -> & ->) & H).
    apply char_eqb_eq in Hxy. subst y.
    pose proof (charAt_lt s i x Hy) as Hlt.
    destruct (IH (S i) c H) as [b Hb]; [lia|].
    exists b. rewrite (firstn_S_nth s i x Hy) in Hb.
    rewrite <- app_assoc in Hb. exact Hb.
Qed.

(** Testing a literal pattern is a substring test. *)
Theorem test_Str (s p : jstring) : test (Str p) s = includes s p.
Proof.
  destruct (includes s p) eqn:E.
  - now apply test_Str_includes.
  - destruct (test (Str p) s) eqn:T; [|reflexivity].
    apply test_spec in T as (i & j & c' & Hi & HM).
    apply Matches_Str_inv in HM as [b Hb]; [|assumption].
    assert (includes s p = true) by (apply includes_spec; eauto).
    congruence.
Qed.

(** The perror pattern of the fopen check is a plain substring test. *)
Lemma test_perrorPattern (block : jstring) :
  test perrorPattern block = includes block (lit "perror").
Proof. apply test_Str. Qed.

End LoopFacts.

(* ================================================================== *)
(** * The examples of the specification *)

Section Examples.

(** Blank queries, for every white-space query: the side bar handler
    posts the whole catalog, the panel handler posts nothing. *)
Lemma blank_query_handlers (query : jstring) :
  forallb isWhiteSpace query = true ->
  handleWebviewMessage (lit "search") query = Some LIBRARY_DATABASE /\
  handleSearchMessage (lit "search") query = None.
Proof.
  intros H.
  assert (E : trim (toLowerCase query) = [])
    by (rewrite (toLowerCase_blank query H); now apply trim_blank).
  split.
  - now apply handleWebviewMessage_blank.
  - now apply handleSearchMessage_blank.
Qed.

(** A run of characters of a class matches the starred class. *)
Lemma Matches_Star_class (items : list citem) (ws a b : jstring) (c : captures) :
  forallb (class_matches items) ws = true ->
  Matches (a ++ ws ++ b) (Star (Set_ items)) (length a) c (length a + length ws) c.
Proof.
  intros H. exists (length ws).
  revert a H; induction ws as [|x ws IH]; intros a H; simpl.
  - split; [lia|reflexivity].
  - apply andb_true_iff in H as [Hx H].
    exists (S (length a)), c. split; [|split; [lia|]].
    + exists x. split; [|auto].
      unfold charAt. rewrite nth_error_app2, Nat.sub_diag by lia. reflexivity.
    + specialize (IH (a ++ [x]) H). rewrite length_app in IH. simpl in IH.
      rewrite <- app_assoc in IH. simpl in IH.
      replace (length a + S (length ws)) with (length a + 1 + length ws) by lia.
      replace (S (length a)) with (length a + 1) by lia. exact IH.
Qed.

(** An [if] at the start of a word, then white space, then a
    parenthesis, counts as error handling. *)
Lemma hasErrorHandling_if (a ws b : jstring) :
  notWordBefore a -> forallb isWhiteSpace ws = true ->
  hasErrorHandling (a ++ lit "if" ++ ws ++ lit "(" ++ b) = true.
Proof.
  intros Ha Hws. unfold hasErrorHandling.
  replace (test ifPattern _) with true; [reflexivity|]. symmetry.
  apply test_spec. exists (length a), (length a + 2 + length ws + 1), []. split.
  - rewrite !length_app. lia.
  - assert (H1 : atWordBoundary (a ++ lit "if" ++ ws ++ lit "(" ++ b) (length a) = true)
      by exact (boundary_before a (lit "f" ++ ws ++ lit "(" ++ b) (ch "i") Ha eq_refl).
    pose proof (Matches_Str (a ++ lit "if" ++ ws ++ lit "(" ++ b) (lit "if") a
                  (ws ++ lit "(" ++ b) [] eq_refl) as H2.
    change (length (lit "if")) with 2 in H2.
    assert (Hclass : forallb (class_matches [ClsSpace]) ws = true).
    { rewrite forallb_forall in Hws. apply forallb_forall. intros x Hx.
      unfold class_matches. simpl. now rewrite (Hws x Hx). }
    pose proof (Matches_Star_class [ClsSpace] ws (a ++ lit "if") (lit "(" ++ b) []
                  Hclass) as H3.
    rewrite <- !app_assoc in H3. rewrite length_app in H3.
    change (length (lit "if")) with 2 in H3.
    assert (H4 : StepTo (a ++ lit "if" ++ ws ++ lit "(" ++ b) (char_eqb (ch "("))
                   (length a + 2 + length ws) [] (length a + 2 + length ws + 1) []).
    { exists (ch "("). split; [|split; [reflexivity|split; [lia|reflexivity]]].
      unfold charAt.
      replace (a ++ lit "if" ++ ws ++ lit "(" ++ b)
        with ((a ++ lit "if" ++ ws) ++ lit "(" ++ b)
        by (rewrite <- !app_assoc; reflexivity).
      rewrite nth_error_app2 by (rewrite !length_app; simpl; lia).
      replace (length a + 2 + length ws - length (a ++ lit "if" ++ ws)) with 0
        by (rewrite !length_app; simpl; lia).
      reflexivity. }
    remember (a ++ lit "if" ++ ws ++ lit "(" ++ b) as s eqn:Hs.
    change (Matches s (Seq WordB (Seq (L "if") (Seq (Star Space) (Chr (ch "(")))))
              (length a) [] (length a + 2 + length ws + 1) []).
    exists (length a), []. split; [repeat split; assumption|].
    exists (length a + 2), []. split; [exact H2|].
    exists (length a + 2 + length ws), []. split; [exact H3|].
    exact H4.
Qed.

(** The semicolon heuristic on the lines of the specification. *)
Example shouldAddSemicolon_examples :
  shouldAddSemicolon (lit "int x = 5") = true /\
  shouldAddSemicolon (lit "if (x > 0)") = false /\
  shouldAddSemicolon (lit "int add(int a, int b)") = false /\
  shouldAddSemicolon (lit "case 1:") = false.
Proof. vm_compute. auto. Qed.

(** Header inference on the buffer of the specification: stdio.h is
    present, string.h is missing, the insertion line is 1. *)
Example header_inference_example :
  let text := lit "#include <stdio.h>" ++ [NL]
              ++ lit "int main(){ printf(" ++ [DQ] ++ lit "x" ++ [DQ] ++ lit "); strlen("
              ++ [DQ] ++ lit "y" ++ [DQ] ++ lit "); return 0; }" in
  requiredHeaders (documentLines text) = [VStr (lit "string.h")] /\
  insertionLine (documentLines text) = 1.
Proof. vm_compute. auto. Qed.

(** Prototype synthesis: one candidate for a definition behind main, and
    none when the prototype already stands in front of main. *)
Example prototype_synthesis_example :
  autoGeneratePrototypes false true
    (lit "#include <stdio.h>" ++ [NL] ++ [NL] ++ [NL] ++ lit "int main() {" ++ [NL]
     ++ lit "}" ++ [NL] ++ lit "int add(int a,int b){ return a+b; }")
  = Some (mkEdit 1 0 ([NL] ++ lit "int add(int a,int b);" ++ [NL]))
  /\
  autoGeneratePrototypes false true
    (lit "#include <stdio.h>" ++ [NL] ++ lit "int add(int a,int b);" ++ [NL]
     ++ lit "int main() {" ++ [NL]
     ++ lit "}" ++ [NL] ++ lit "int add(int a,int b){ return a+b; }")
  = None.
Proof. vm_compute. auto. Qed.

(** The diagnostic scanner on the lines of the specification. *)
Example runDiagnostics_examples :
  map severity (runDiagnostics (lit "strcpy(dst, src);")) = [Warning] /\
  map severity (runDiagnostics (lit "if (x = 5) { }")) = [Warning] /\
  map severity (runDiagnostics (lit "malloc(10);")) = [Information] /\
  map severity (runDiagnostics (lit "fopen(f, r);" ++ [NL] ++ lit "x = 1;")) = [Information] /\
  runDiagnostics (lit "fopen(f, r);" ++ [NL] ++ lit "x = 1;" ++ [NL] ++ lit "if (x)") = [].
Proof. vm_compute. auto 6. Qed.

(** The search for stdio returns the entries of stdio.h, all of them. *)
Example search_stdio :
  handleWebviewMessage (lit "search") (lit "stdio")
  = Some (filter (fun f => str_eqb (header f) (lit "stdio.h")) LIBRARY_DATABASE).
Proof. vm_compute. reflexivity. Qed.

End Examples.

(* ================================================================== *)
(** * Further properties of the passes *)

(** ** The words of a pattern *)

(* ================================================================== *)
(** * Patterns without assertions *)

Lemma firstn_plus (A : Type) (n m : nat) (l : list A) :
  firstn (n + m) l = firstn n l ++ firstn m (skipn n l).
Proof.
  revert l; induction n as [|n IH]; intros l; simpl; [reflexivity|].
  destruct l as [|x l]; simpl.
  - now rewrite firstn_nil.
  - now rewrite IH.
Qed.

Section LangFacts.

Variable s : jstring.

Lemma substr_split (i j k : nat) :
  i <= j -> j <= k -> substr s i k = substr s i j ++ substr s j k.
Proof.
  intros Hij Hjk. unfold substr.
  replace (k - i) with ((j - i) + (k - j)) by lia.
  rewrite firstn_plus. f_equal. rewrite skipn_skipn.
  replace (j - i + i) with j by lia. reflexivity.
Qed.

Lemma substr_empty (i : nat) : substr s i i = [].
Proof. unfold substr. now rewrite Nat.sub_diag. Qed.

Lemma substr_char (i : nat) (x : char) :
  charAt s i = Some x -> substr s i (S i) = [x].
Proof.
  unfold substr, charAt. replace (S i - i) with 1 by lia.
  revert i; induction s as [|y t IH]; intros [|i] H; simpl in *; try discriminate.
  - now injection H as ->.
  - now apply IH.
Qed.

Lemma StepTo_Lang (p : char -> bool) (i j : nat) (c c' : captures) :
  StepTo s p i c j c' -> exists x, substr s i j = [x] /\ p x = true /\ j = S i /\ c' = c.
Proof.
  intros (x & Hx & Hp & -> & ->). exists x. now rewrite (substr_char i x Hx).
Qed.

Lemma Rounds_Lang (r : regex) :
  (forall i c j c', Matches s r i c j c' -> Lang r (substr s i j)) ->
  forall n i c j c', Rounds (Matches s r) n i c j c' ->
    exists ws, substr s i j = concat ws /\ Forall (fun v => Lang r v /\ v <> []) ws.
Proof.
  intros Hr. induction n as [|n IH]; intros i c j c' H.
  - destruct H as [-> ->]. exists []. rewrite substr_empty. split; [reflexivity|constructor].
  - destruct H as (j1 & c1 & H1 & Hlt & H2).
    pose proof (Matches_bounds s r i c j1 c1 H1) as B1.
    assert (B2 : j1 <= j).
    { clear - H2. revert j1 c1 H2. induction n as [|n IHn]; intros j1 c1 H2.
      - destruct H2 as [-> _]. lia.
      - destruct H2 as (j2 & c2 & Hm & Hl & Hr'). apply IHn in Hr'. lia. }
    destruct (IH _ _ _ _ H2) as (ws & Hws & Hall).
    exists (substr s i j1 :: ws). split.
    + simpl. rewrite <- Hws. apply substr_split; lia.
    + constructor; [|assumption]. split; [now apply Hr in H1|].
      intros E. apply (f_equal (@length _)) in E. unfold substr in E.
      rewrite length_firstn, length_skipn in E. simpl in E. lia.
Qed.

(** What a pattern without assertions matches is a word of its
    language. *)
Lemma Matches_Lang (r : regex) :
  plain r = true ->
  forall i c j c', Matches s r i c j c' -> Lang r (substr s i j).
Proof.
  induction r as [|a| |items|items|r1 IHr1 r2 IHr2|r1 IHr1 r2 IHr2|r IHr|r IHr|g r IHr|r IHr| | | ];
    simpl; intros Hp i c j c' H; try discriminate.
  - destruct H as [-> _]. apply substr_empty.
  - apply StepTo_Lang in H as (x & Hx & Hp' & _). apply char_eqb_eq in Hp'. now subst.
  - apply StepTo_Lang in H as (x & Hx & Hp' & _). exists x. split; [assumption|].
    now apply negb_true_iff in Hp'.
  - apply StepTo_Lang in H as (x & Hx & Hp' & _). now exists x.
  - apply StepTo_Lang in H as (x & Hx & Hp' & _). exists x. split; [assumption|].
    now apply negb_true_iff in Hp'.
  - apply andb_true_iff in Hp as [Hp1 Hp2].
    destruct H as (j1 & c1 & H1 & H2).
    pose proof (Matches_bounds s r1 i c j1 c1 H1) as B1.
    pose proof (Matches_bounds s r2 j1 c1 j c' H2) as B2.
    exists (substr s i j1), (substr s j1 j). split; [apply substr_split; lia|].
    split; [now apply (IHr1 Hp1 i c j1 c1) | now apply (IHr2 Hp2 j1 c1 j c')].
  - apply andb_true_iff in Hp as [Hp1 Hp2].
    destruct H as [H|H]; [left; now apply (IHr1 Hp1 i c j c') | right; now apply (IHr2 Hp2 i c j c')].
  - destruct H as [n H]. apply (Rounds_Lang r (IHr Hp) n i c j c' H).
  - destruct H as [n H]. apply (Rounds_Lang r (IHr Hp) n i c j c' H).
  - destruct H as (c1 & H & _). now apply (IHr Hp i c j c1).
Qed.

End LangFacts.

Lemma charAt_middle (a b : jstring) (x : char) : charAt (a ++ x :: b) (length a) = Some x.
Proof.
  unfold charAt. rewrite nth_error_app2, Nat.sub_diag by lia. reflexivity.
Qed.

Lemma Lang_Rounds (s : jstring) (r : regex) :
  (forall w a b, s = a ++ w ++ b -> Lang r w ->
     forall c, exists c', Matches s r (length a) c (length a + length w) c') ->
  forall ws a b, s = a ++ concat ws ++ b ->
    Forall (fun v => Lang r v /\ v <> []) ws ->
    forall c, exists c',
      Rounds (Matches s r) (length ws) (length a) c (length a + length (concat ws)) c'.
Proof.
  intros Hr. induction ws as [|v ws IH]; intros a b Hs Hall c.
  - exists c. simpl. split; [lia|reflexivity].
  - apply Forall_cons_iff in Hall as [[Hv Hne] Hall'].
    simpl in Hs. rewrite <- app_assoc in Hs.
    destruct (Hr v a (concat ws ++ b) Hs Hv c) as [c1 H1].
    assert (Hs' : s = (a ++ v) ++ concat ws ++ b) by (rewrite Hs, <- app_assoc; reflexivity).
    destruct (IH (a ++ v) b Hs' Hall' c1) as [c' H2].
    exists c'. simpl. exists (length a + length v), c1. split; [assumption|]. split.
    + destruct v; [congruence|simpl; lia].
    + rewrite length_app in H2. rewrite length_app.
      replace (length a + (length v + length (concat ws)))
        with (length a + length v + length (concat ws)) by lia.
      exact H2.
Qed.

(** A word of the language of a pattern without assertions is matched
    wherever it stands. *)
Lemma Lang_Matches (r : regex) :
  plain r = true ->
  forall s w a b, s = a ++ w ++ b -> Lang r w ->
    forall c, exists c', Matches s r (length a) c (length a + length w) c'.
Proof.
  induction r as [|x| |items|items|r1 IHr1 r2 IHr2|r1 IHr1 r2 IHr2|r IHr|r IHr|g r IHr|r IHr| | | ];
    simpl; intros Hp s w a b Hs H c; try discriminate.
  - subst w. exists c. simpl. split; [lia|reflexivity].
  - subst w. exists c. exists x. rewrite Hs. simpl app. rewrite charAt_middle.
    repeat split; [apply char_eqb_refl|simpl; lia].
  - destruct H as (y & -> & Hy). exists c. exists y. rewrite Hs. simpl app.
    rewrite charAt_middle. repeat split; [now rewrite Hy|simpl; lia].
  - destruct H as (y & -> & Hy). exists c. exists y. rewrite Hs. simpl app.
    rewrite charAt_middle. repeat split; [assumption|simpl; lia].
  - destruct H as (y & -> & Hy). exists c. exists y. rewrite Hs. simpl app.
    rewrite charAt_middle. repeat split; [now rewrite Hy|simpl; lia].
  - apply andb_true_iff in Hp as [Hp1 Hp2].
    destruct H as (w1 & w2 & -> & H1 & H2).
    rewrite <- app_assoc in Hs.
    destruct (IHr1 Hp1 s w1 a (w2 ++ b) Hs H1 c) as [c1 M1].
    assert (Hs' : s = (a ++ w1) ++ w2 ++ b) by (rewrite Hs, <- app_assoc; reflexivity).
    destruct (IHr2 Hp2 s w2 (a ++ w1) b Hs' H2 c1) as [c' M2].
    exists c'. exists (length a + length w1), c1. split; [assumption|].
    rewrite length_app in M2. rewrite length_app.
    replace (length a + (length w1 + length w2)) with (length a + length w1 + length w2)
      by lia.
    exact M2.
  - apply andb_true_iff in Hp as [Hp1 Hp2]. destruct H as [H|H].
    + destruct (IHr1 Hp1 s w a b Hs H c) as [c' M]. exists c'. now left.
    + destruct (IHr2 Hp2 s w a b Hs H c) as [c' M]. exists c'. now right.
  - destruct H as (ws & -> & Hall).
    destruct (Lang_Rounds s r (IHr Hp s) ws a b Hs Hall c) as [c' M].
    exists c'. now exists (length ws).
  - destruct H as (ws & -> & Hall).
    destruct (Lang_Rounds s r (IHr Hp s) ws a b Hs Hall c) as [c' M].
    exists c'. now exists (length ws).
  - destruct (IHr Hp s w a b Hs H c) as [c1 M].
    exists ((g, (length a, length a + length w)) :: c1). now exists c1.
Qed.

Lemma Rounds_caps (s : jstring) (r : regex) :
  (forall i c j c', Matches s r i c j c' -> c' = c) ->
  forall n i c j c', Rounds (Matches s r) n i c j c' -> c' = c.
Proof.
  intros Hr. induction n as [|n IH]; intros i c j c' H.
  - now destruct H.
  - destruct H as (j1 & c1 & H1 & _ & H2). apply Hr in H1. apply IH in H2. congruence.
Qed.

(** A pattern without groups leaves the captures alone. *)
Lemma Matches_caps (s : jstring) (r : regex) :
  groupFree r = true ->
  forall i c j c', Matches s r i c j c' -> c' = c.
Proof.
  induction r as [|x| |items|items|r1 IHr1 r2 IHr2|r1 IHr1 r2 IHr2|r IHr|r IHr|g r IHr|r IHr| | | ];
    simpl; intros Hg i c j c' H; try discriminate;
    try (destruct H as (y & _ & _ & _ & ->); reflexivity);
    try (destruct H as (_ & _ & ->); reflexivity).
  - now destruct H.
  - apply andb_true_iff in Hg as [Hg1 Hg2]. destruct H as (j1 & c1 & H1 & H2).
    apply (IHr1 Hg1) in H1. apply (IHr2 Hg2) in H2. congruence.
  - apply andb_true_iff in Hg as [Hg1 Hg2].
    destruct H as [H|H]; [now apply (IHr1 Hg1) in H|now apply (IHr2 Hg2) in H].
  - destruct H as [n H]. apply (Rounds_caps s r (IHr Hg) n i c j c' H).
  - destruct H as [n H]. apply (Rounds_caps s r (IHr Hg) n i c j c' H).
Qed.

(** The words of a starred class: the words made of its characters. *)
Lemma Lang_Star_class (p : char -> bool) (r : regex) (w : jstring) :
  (forall v, Lang r v <-> exists x, v = [x] /\ p x = true) ->
  (Lang (Star r) w <-> Forall (fun x => p x = true) w).
Proof.
  intros Hr. simpl. split.
  - intros (ws & -> & Hall). induction Hall as [|v ws [Hv _] _ IH]; simpl.
    + constructor.
    + apply Hr in Hv as (x & -> & Hx). simpl. now constructor.
  - intros H. exists (map (fun x => [x]) w). split.
    + clear H. induction w as [|x w IH]; simpl; [reflexivity|]. now rewrite <- IH.
    + induction H as [|x w Hx _ IH]; simpl; constructor; [|assumption].
      split; [apply Hr; now exists x|discriminate].
Qed.

Lemma Lang_Str (p w : jstring) : Lang (Str p) w <-> w = p.
Proof.
  revert w; induction p as [|x p IH]; intros w; simpl.
  - reflexivity.
  - split.
    + intros (w1 & w2 & -> & -> & H2). apply IH in H2. now subst.
    + intros ->. exists [x], p. repeat split. now apply IH.
Qed.

(** ** The shape of a prototype *)

Section ShapeFacts.

Lemma Matches_Seq_inv (s : jstring) (r1 r2 : regex) (i j : nat) (c c' : captures) :
  Matches s (Seq r1 r2) i c j c' ->
  exists j1 c1, Matches s r1 i c j1 c1 /\ Matches s r2 j1 c1 j c'.
Proof. intros H. exact H. Qed.

Lemma Matches_Group_inv (s : jstring) (g : nat) (r : regex) (i j : nat) (c c' : captures) :
  Matches s (Group g r) i c j c' ->
  exists c1, Matches s r i c j c1 /\ c' = (g, (i, j)) :: c1.
Proof. intros H. exact H. Qed.

Lemma Lang_Alts (r : regex) (rs : list regex) (w : jstring) :
  Lang (Alts r rs) w <-> Lang r w \/ Exists (fun r' => Lang r' w) rs.
Proof.
  revert r; induction rs as [|r' rs IH]; intros r; simpl.
  - split; [now left|]. intros [H|H]; [assumption|inversion H].
  - rewrite IH. rewrite Exists_cons. tauto.
Qed.

Lemma Lang_typeKeywords (w : jstring) :
  Lang (Alts (L "int") [L "void"; L "char"; L "float"; L "double"; L "long"; L "short";
                        L "unsigned"; L "signed"]) w ->
  In w typeKeywords.
Proof.
  intros H. apply Lang_Alts in H. unfold L in H.
  rewrite !Exists_cons, Exists_nil, !Lang_Str in H. unfold typeKeywords. simpl.
  intuition auto.
Qed.

Lemma Lang_Word_star (w : jstring) :
  Lang (Star Word) w <-> Forall (fun x => isWordChar x = true) w.
Proof.
  apply Lang_Star_class. intros v. unfold Word. simpl. unfold class_matches. simpl.
  split; intros (x & Hv & Hx); exists x; split; auto.
  - now rewrite orb_false_r in Hx.
  - now rewrite orb_false_r.
Qed.

Lemma Lang_notParen_star (w : jstring) :
  Lang (Star (NSet [One (ch ")")])) w -> ~ In (ch ")") w.
Proof.
  intros (ws & -> & Hall) Hin. apply in_concat in Hin as (v & Hv & Hin).
  rewrite Forall_forall in Hall. destruct (Hall v Hv) as [(x & -> & Hx) _].
  destruct Hin as [Hin|[]]. subst x. vm_compute in Hx. discriminate.
Qed.

(** What the definition pattern captures. *)
Lemma functionPattern_groups (line : jstring) (st : nat) (res : result) :
  exec functionPattern line 0 = Some (st, res) ->
  In (group line res 1) typeKeywords /\
  (exists x nm, group line res 2 = x :: nm /\ isIdentStart x = true /\
     Forall (fun y => isWordChar y = true) nm) /\
  ~ In (ch ")") (group line res 3).
Proof.
  intros H. apply exec_sound in H as [_ H]. destruct res as [e caps]. simpl fst in H.
  simpl snd in H. unfold functionPattern in H. cbn [Seqs] in H.
  apply Matches_Seq_inv in H as (j0 & c0 & H0 & H).
  destruct H0 as (_ & -> & ->).
  apply Matches_Seq_inv in H as (j1 & c1 & H1 & H).
  apply Matches_caps in H1; [|reflexivity]. subst c1.
  apply Matches_Seq_inv in H as (j2 & c2 & H2 & H).
  apply Matches_Group_inv in H2 as (c2' & H2 & ->).
  assert (E := H2). apply Matches_caps in E; [|reflexivity]. subst c2'.
  apply Matches_Lang in H2; [|reflexivity]. apply Lang_typeKeywords in H2.
  apply Matches_Seq_inv in H as (j3 & c3 & H3 & H).
  apply Matches_caps in H3; [|reflexivity]. subst c3.
  apply Matches_Seq_inv in H as (j4 & c4 & H4 & H).
  apply Matches_Group_inv in H4 as (c4' & H4 & ->).
  assert (E := H4). apply Matches_caps in E; [|reflexivity]. subst c4'.
  apply Matches_Lang in H4; [|reflexivity].
  destruct H4 as (w1 & w2 & Hw & (x & -> & Hx) & Hw2).
  apply Lang_Word_star in Hw2.
  apply Matches_Seq_inv in H as (j5 & c5 & H5 & H).
  apply Matches_caps in H5; [|reflexivity]. subst c5.
  apply Matches_Seq_inv in H as (j6 & c6 & H6 & H).
  apply Matches_caps in H6; [|reflexivity]. subst c6.
  apply Matches_Seq_inv in H as (j7 & c7 & H7 & H).
  apply Matches_Group_inv in H7 as (c7' & H7 & ->).
  assert (E := H7). apply Matches_caps in E; [|reflexivity]. subst c7'.
  apply Matches_Lang in H7; [|reflexivity]. apply Lang_notParen_star in H7.
  apply Matches_Seq_inv in H as (j8 & c8 & H8 & H).
  apply Matches_caps in H8; [|reflexivity]. subst c8.
  apply Matches_Seq_inv in H as (j9 & c9 & H9 & H).
  apply Matches_caps in H9; [|reflexivity]. subst c9.
  apply Matches_caps in H; [|reflexivity]. subst caps.
  unfold group. simpl snd. simpl lookupCap.
  split; [exact H2|]. split; [|exact H7].
  exists x, w2. rewrite Hw. auto.
Qed.

(** Every function found behind main has a prototype of the expected
    shape. *)
Lemma functionOfLine_shape (line : jstring) (f : FoundFunction) :
  In f (functionOfLine line) -> PrototypeShape f.
Proof.
  unfold functionOfLine.
  destruct (exec functionPattern line 0) as [[st res]|] eqn:E; [|contradiction].
  destruct (functionPattern_groups line st res E) as (H1 & (x & nm & H2 & Hx & Hnm) & H3).
  destruct (str_eqb (group line res 2) (lit "main")) eqn:Em; simpl; [contradiction|].
  intros [<-|[]].
  exists (group line res 1), x, nm, (trim (group line res 3)). cbn [Prototypes.name prototype].
  repeat split; auto.
  - intros Hmain. rewrite Hmain, str_eqb_refl in Em. discriminate.
  - intros Hin. apply trim_In in Hin. contradiction.
Qed.

End ShapeFacts.

Section CharFacts.

Lemma whiteSpace_not_word (x : char) : isWhiteSpace x = true -> isWordChar x = false.
Proof.
  intros Hx. destruct (isWordChar x) eqn:E; [exfalso|reflexivity].
  unfold isWhiteSpace in Hx. unfold isWordChar in E.
  bprop Hx. bprop E. unfold char in *. lia.
Qed.

Lemma identStart_word (x : char) : isIdentStart x = true -> isWordChar x = true.
Proof.
  intros Hx. destruct (isWordChar x) eqn:E; [reflexivity|exfalso].
  unfold isIdentStart, class_matches, existsb, citem_matches, char_eqb in Hx.
  change (ch "a") with 97%N in Hx. change (ch "z") with 122%N in Hx.
  change (ch "A") with 65%N in Hx. change (ch "Z") with 90%N in Hx.
  change (ch "_") with 95%N in Hx.
  unfold isWordChar in E.
  bprop Hx. bprop E. unfold char in *. lia.
Qed.

Lemma word_not_whiteSpace (x : char) : isWordChar x = true -> isWhiteSpace x = false.
Proof.
  intros H. destruct (isWhiteSpace x) eqn:E; [|reflexivity].
  apply whiteSpace_not_word in E. congruence.
Qed.

Lemma trimStart_snoc (l : jstring) (x : char) :
  isWhiteSpace x = false -> exists u, trimStart (l ++ [x]) = u ++ [x].
Proof.
  intros Hx. induction l as [|y l IH]; simpl.
  - rewrite Hx. now exists [].
  - destruct (isWhiteSpace y); [assumption|]. now exists (y :: l).
Qed.

(** Trimming keeps a first character that is not white space. *)
Lemma trim_head (x : char) (t : jstring) :
  isWhiteSpace x = false -> exists t', trim (x :: t) = x :: t'.
Proof.
  intros Hx. unfold trim. simpl trimStart. rewrite Hx. unfold trimEnd. simpl rev.
  destruct (trimStart_snoc (rev t) x Hx) as [u Hu]. rewrite Hu.
  exists (rev u). rewrite rev_app_distr. reflexivity.
Qed.

(** In two texts that agree, the leading words agree. *)
Lemma word_prefix_unique (a b x y : jstring) :
  Forall (fun c => isWordChar c = true) a ->
  Forall (fun c => isWordChar c = true) b ->
  notWordAfter x -> notWordAfter y ->
  a ++ x = b ++ y -> a = b.
Proof.
  intros Ha. revert b. induction Ha as [|c a Hc Ha IH]; intros b Hb Hx Hy E.
  - destruct Hb as [|d b Hd Hb]; [reflexivity|].
    simpl in E. subst x. simpl in Hx. congruence.
  - destruct Hb as [|d b Hd Hb].
    + simpl in E. subst y. simpl in Hy. congruence.
    + simpl in E. injection E as -> E. f_equal. now apply IH.
Qed.

End CharFacts.

Section PrototypeLines.

Lemma Lang_Seq_inv (r1 r2 : regex) (w : jstring) :
  Lang (Seq r1 r2) w -> exists w1 w2, w = w1 ++ w2 /\ Lang r1 w1 /\ Lang r2 w2.
Proof. intros H. exact H. Qed.

Lemma Lang_Space_star (w : jstring) :
  Lang (Star Space) w <-> Forall (fun x => isWhiteSpace x = true) w.
Proof.
  apply Lang_Star_class. intros v. unfold Space. simpl. unfold class_matches. simpl.
  split; intros (x & Hv & Hx); exists x; split; auto.
  - now rewrite orb_false_r in Hx.
  - now rewrite orb_false_r.
Qed.

Lemma substr_decompose (s : jstring) (i j : nat) :
  s = firstn i s ++ substr s i j ++ skipn (j - i) (skipn i s).
Proof.
  unfold substr. rewrite (firstn_skipn (j - i) (skipn i s)).
  now rewrite firstn_skipn.
Qed.

Lemma typeKeywords_word (kw : jstring) :
  In kw typeKeywords -> Forall (fun c => isWordChar c = true) kw /\ kw <> [].
Proof.
  intros H. simpl in H.
  repeat (destruct H as [<-|H];
          [split; [apply Forall_forall; intros c Hc; vm_compute in Hc;
                   repeat (destruct Hc as [<-|Hc]; [reflexivity|]); contradiction
                  |discriminate]|]).
  contradiction.
Qed.

(** A prototype starts with a word character. *)
Lemma PrototypeShape_head (f : FoundFunction) :
  PrototypeShape f -> exists c t, prototype f = c :: t /\ isWordChar c = true.
Proof.
  intros (kw & x & nm & params & Hkw & _ & _ & _ & _ & _ & Hp).
  apply typeKeywords_word in Hkw as [Hw Hne].
  destruct kw as [|c kw]; [congruence|].
  exists c, (kw ++ lit " " ++ Prototypes.name f ++ lit "(" ++ params ++ lit ");").
  split; [rewrite Hp; reflexivity|]. now inversion Hw.
Qed.

(** A prototype is no include line. *)
Lemma prototype_not_include (f : FoundFunction) :
  PrototypeShape f -> isIncludeLine (prototype f) = false.
Proof.
  intros H. destruct (PrototypeShape_head f H) as (c & t & -> & Hc).
  unfold isIncludeLine.
  destruct (trim_head c t (word_not_whiteSpace c Hc)) as [t' ->].
  change (lit "#include") with (ch "#" :: lit "include").
  cbn [startsWith]. apply andb_false_iff. left.
  unfold char_eqb. apply N.eqb_neq. intros <-. vm_compute in Hc. discriminate.
Qed.

(** A prototype is no header of a main definition. *)
Lemma prototype_not_main (f : FoundFunction) :
  PrototypeShape f -> test mainPattern (prototype f) = false.
Proof.
  intros (kw & x & nm & params & Hkw & Hname & Hx & Hnm & Hmain & _ & Hp).
  destruct (test mainPattern (prototype f)) eqn:E; [exfalso|reflexivity].
  apply test_spec in E as (i & j & c' & Hi & HM).
  unfold mainPattern in HM. cbn [Seqs] in HM.
  apply Matches_Seq_inv in HM as (j0 & c0 & H0 & HM).
  destruct H0 as (-> & -> & ->).
  apply Matches_Lang in HM; [|reflexivity].
  pose proof (substr_decompose (prototype f) 0 j) as Hd.
  cbn [firstn app] in Hd.
  remember (substr (prototype f) 0 j) as w eqn:Ew. clear Ew.
  remember (skipn (j - 0) (skipn 0 (prototype f))) as rest eqn:Er. clear Er.
  apply Lang_Seq_inv in HM as (w0 & u0 & -> & H0 & HM).
  apply Lang_Space_star in H0.
  apply Lang_Seq_inv in HM as (k & u1 & -> & H1 & HM).
  apply Lang_Seq_inv in HM as (w1 & u2 & -> & H2 & HM).
  destruct H2 as (y1 & w1' & -> & (y & -> & Hy) & H2).
  apply Lang_Space_star in H2.
  apply Lang_Seq_inv in HM as (mn & u3 & -> & H3 & HM).
  apply Lang_Str in H3. subst mn.
  apply Lang_Seq_inv in HM as (w2 & u4 & -> & H4 & HM).
  apply Lang_Space_star in H4.
  simpl in HM. subst u4.
  assert (Hyw : isWhiteSpace y = true).
  { unfold class_matches in Hy. simpl in Hy. now rewrite orb_false_r in Hy. }
  apply typeKeywords_word in Hkw as [Hkww Hkne].
  (* no leading white space *)
  destruct w0 as [|z w0].
  2:{ rewrite Hp in Hd. destruct kw as [|c kw]; [congruence|].
      simpl in Hd. injection Hd as -> _.
      apply Forall_inv in H0. apply Forall_inv in Hkww.
      apply whiteSpace_not_word in H0. congruence. }
  simpl in Hd. rewrite Hp in Hd. rewrite <- !app_assoc in Hd.
  (* the type keyword *)
  assert (Hk : Forall (fun c => isWordChar c = true) k).
  { destruct H1 as [H1|H1]; apply Lang_Str in H1; subst k;
      apply Forall_forall; intros c Hc; vm_compute in Hc;
      repeat (destruct Hc as [<-|Hc]; [reflexivity|]); contradiction. }
  assert (kw = k).
  { apply (word_prefix_unique kw k _ _ Hkww Hk) in Hd; [assumption| |].
    - reflexivity.
    - simpl. now apply whiteSpace_not_word. }
  subst k. apply app_inv_head in Hd.
  simpl in Hd. injection Hd as _ Hd.
  rewrite Hname in Hd.
  destruct w1' as [|z w1'].
  2:{ simpl in Hd. injection Hd as -> _. apply Forall_inv in H2.
      apply identStart_word in Hx. apply whiteSpace_not_word in H2. congruence. }
  simpl in Hd. apply Hmain. rewrite Hname.
  symmetry.
  apply (word_prefix_unique (lit "main") (x :: nm)
           (w2 ++ [ch "("] ++ rest) (lit "(" ++ params ++ lit ");")).
  - apply Forall_forall; intros c Hc; vm_compute in Hc;
      repeat (destruct Hc as [<-|Hc]; [reflexivity|]); contradiction.
  - constructor; [now apply identStart_word|assumption].
  - destruct w2 as [|z w2]; simpl; [reflexivity|].
    apply Forall_inv in H4. now apply whiteSpace_not_word.
  - reflexivity.
  - rewrite <- ?app_assoc in Hd. simpl in Hd. simpl. symmetry. exact Hd.
Qed.

End PrototypeLines.

(** ** A second run of the prototype synthesis *)

Section BlockFacts.

Lemma lastIncludeLineFrom_app (A B : list jstring) (i acc : Z) :
  lastIncludeLineFrom (A ++ B) i acc
  = lastIncludeLineFrom B (i + Z.of_nat (length A)) (lastIncludeLineFrom A i acc).
Proof.
  revert i acc. induction A as [|l A IH]; intros i acc; simpl app.
  - simpl. now rewrite Z.add_0_r.
  - cbn [lastIncludeLineFrom]. rewrite IH. f_equal. simpl length. lia.
Qed.

Lemma lastIncludeLineFrom_none (B : list jstring) (i acc : Z) :
  Forall (fun l => isIncludeLine l = false) B -> lastIncludeLineFrom B i acc = acc.
Proof.
  intros H. revert i. induction H as [|l B Hl _ IH]; intros i; simpl; [reflexivity|].
  now rewrite Hl, IH.
Qed.

(** Lines that are no include lines, put behind the last include line,
    leave the last include line where it is. *)
Lemma lastIncludeLine_insert (lines ins : list jstring) (k : nat) :
  lastIncludeLine lines = Z.of_nat k ->
  Forall (fun l => isIncludeLine l = false) ins ->
  lastIncludeLine (firstn (S k) lines ++ ins ++ skipn (S k) lines) = Z.of_nat k.
Proof.
  intros Hk Hins.
  assert (Hne : lastIncludeLine lines <> (-1)%Z) by lia.
  destruct (lastIncludeLine_some lines Hne) as (k' & Hk' & Hlt & _ & Hafter).
  assert (k' = k) by lia. subst k'. clear Hk'.
  assert (HB : Forall (fun l => isIncludeLine l = false) (skipn (S k) lines)).
  { apply Forall_forall. intros l Hl. apply In_nth with (d := []) in Hl as (j & Hj & <-).
    rewrite length_skipn in Hj. rewrite nth_skipn. apply Hafter. lia. }
  unfold lastIncludeLine in *.
  rewrite lastIncludeLineFrom_app.
  rewrite lastIncludeLineFrom_none by (apply Forall_app; split; assumption).
  rewrite <- Hk. rewrite <- (firstn_skipn (S k) lines) at 2.
  rewrite lastIncludeLineFrom_app.
  now rewrite (lastIncludeLineFrom_none (skipn (S k) lines)) by exact HB.
Qed.

Lemma mainLineFrom_skip (ins B : list jstring) (i : Z) :
  Forall (fun l => test mainPattern l = false) ins ->
  mainLineFrom (ins ++ B) i = mainLineFrom B (i + Z.of_nat (length ins)).
Proof.
  intros H. revert i. induction H as [|l ins Hl _ IH]; intros i.
  - simpl. now rewrite Z.add_0_r.
  - simpl app. cbn [mainLineFrom]. rewrite Hl, IH. f_equal. simpl length. lia.
Qed.

Lemma mainLineFrom_shift (B : list jstring) (i d : Z) :
  mainLineFrom B i <> (-1)%Z -> mainLineFrom B (i + d) = (mainLineFrom B i + d)%Z.
Proof.
  revert i. induction B as [|l B IH]; intros i; cbn [mainLineFrom].
  - congruence.
  - destruct (test mainPattern l); [reflexivity|]. intros H.
    replace (i + d + 1)%Z with (i + 1 + d)%Z by lia. now apply IH.
Qed.

Lemma skipn_app_length (A : Type) (a b : list A) (d : nat) :
  skipn (length a + d) (a ++ b) = skipn d b.
Proof.
  rewrite skipn_app. rewrite skipn_all2 by lia.
  replace (length a + d - length a) with d by lia. reflexivity.
Qed.

Lemma firstn_app_length (A : Type) (a b : list A) (d : nat) :
  firstn (length a + d) (a ++ b) = a ++ firstn d b.
Proof.
  rewrite firstn_app. rewrite firstn_all2 by lia.
  replace (length a + d - length a) with d by lia. reflexivity.
Qed.

(** The joined text of a list of lines holds each line. *)
Lemma join_In (p : jstring) (ls : list jstring) :
  In p ls -> exists X Y, join [NL] ls = X ++ p ++ Y.
Proof.
  induction ls as [|l ls IH]; [intros []|]. intros [->|H].
  - destruct ls as [|l' ls].
    + exists [], []. simpl. now rewrite app_nil_r.
    + exists [], ([NL] ++ join [NL] (l' :: ls)). reflexivity.
  - destruct (IH H) as (X & Y & E). destruct ls as [|l' ls]; [destruct H|].
    exists (l ++ [NL] ++ X), Y.
    change (join [NL] (l :: l' :: ls)) with (l ++ [NL] ++ join [NL] (l' :: ls)).
    rewrite E. now rewrite <- !app_assoc.
Qed.

(** The joined text of the lines behind a block ends the joined text of
    the whole, and what stands in front of it ends in a newline. *)
Lemma join_app_r (ls1 ls2 : list jstring) :
  ls2 <> [] ->
  exists X, join [NL] (ls1 ++ ls2) = X ++ join [NL] ls2 /\ notWordBefore X.
Proof.
  intros Hne. induction ls1 as [|l ls1 (X & E & HX)].
  - exists []. split; [reflexivity|exact I].
  - exists (l ++ [NL] ++ X). split.
    + simpl app at 1. destruct (ls1 ++ ls2) as [|l' ls] eqn:E'.
      * apply app_eq_nil in E' as [_ ?]. contradiction.
      * change (join [NL] (l :: l' :: ls)) with (l ++ [NL] ++ join [NL] (l' :: ls)).
        rewrite E. now rewrite <- !app_assoc.
    + unfold notWordBefore in *. rewrite !rev_app_distr. simpl rev at 2.
      destruct (rev X) as [|z t]; [reflexivity|exact HX].
Qed.

End BlockFacts.

Section PrototypePatternFacts.

Lemma plain_Str (p : jstring) : plain (Str p) = true.
Proof. induction p as [|x p IH]; simpl; [reflexivity|assumption]. Qed.

Lemma isWordAt_shift (X s : jstring) (i : nat) :
  isWordAt (X ++ s) (length X + i) = isWordAt s i.
Proof.
  unfold isWordAt, charAt. rewrite nth_error_app2 by lia.
  now replace (length X + i - length X) with i by lia.
Qed.

(** Text put in front of a text that does not end in a word character
    keeps the word boundaries of the text. *)
Lemma atWordBoundary_shift (X s : jstring) (i : nat) :
  notWordBefore X -> atWordBoundary (X ++ s) (length X + i) = atWordBoundary s i.
Proof.
  intros HX. unfold atWordBoundary. rewrite isWordAt_shift. f_equal.
  destruct i as [|i].
  - rewrite Nat.add_0_r.
    destruct (rev X) as [|y ra] eqn:Er.
    + assert (X = []) as -> by (rewrite <- (rev_involutive X), Er; reflexivity).
      reflexivity.
    + unfold notWordBefore in HX. rewrite Er in HX.
      assert (X = rev ra ++ [y]) as -> by (rewrite <- (rev_involutive X), Er; reflexivity).
      rewrite length_app. simpl length. rewrite Nat.add_1_r.
      now rewrite isWordAt_last.
  - rewrite Nat.add_succ_r. apply isWordAt_shift.
Qed.

(** The pattern of a prototype never matches in the empty text. *)
Lemma test_prototypePattern_nil (nm : jstring) : test (prototypePattern nm) [] = false.
Proof. reflexivity. Qed.

(** A prototype found in a text is found in the text with lines put in
    front of it. *)
Lemma prototypePattern_extend (nm X s : jstring) :
  notWordBefore X ->
  test (prototypePattern nm) s = true -> test (prototypePattern nm) (X ++ s) = true.
Proof.
  intros HX H. apply test_spec in H as (i & j & c' & Hi & HM).
  apply test_spec.
  unfold prototypePattern in *. cbn [Seqs] in *.
  apply Matches_Seq_inv in HM as (j0 & c0 & H0 & HM).
  destruct H0 as (Hb & -> & ->).
  apply Matches_Lang in HM; [|simpl; now rewrite plain_Str].
  pose proof (substr_decompose s i j) as Hd.
  assert (Hs : X ++ s = (X ++ firstn i s) ++ substr s i j
                        ++ skipn (j - i) (skipn i s)).
  { rewrite <- app_assoc. now rewrite <- Hd. }
  match type of HM with Lang ?R _ =>
    assert (HP : plain R = true) by (simpl; now rewrite plain_Str);
    destruct (Lang_Matches R HP _ _ _ _ Hs HM []) as [c1 M]
  end.
  rewrite length_app, length_firstn, Nat.min_l in M by exact Hi.
  exists (length X + i), (length X + i + length (substr s i j)), c1. split.
  - rewrite length_app. lia.
  - exists (length X + i), []. split; [|exact M].
    split; [|split; reflexivity]. now rewrite atWordBoundary_shift.
Qed.

(** The pattern of the prototype of a function is found in every text
    that holds the prototype. *)
Lemma prototype_in_area (f : FoundFunction) (X Y : jstring) :
  PrototypeShape f ->
  test (prototypePattern (Prototypes.name f)) (X ++ prototype f ++ Y) = true.
Proof.
  intros (kw & x & nm & params & Hkw & Hname & Hx & Hnm & _ & Hparams & Hp).
  apply test_spec. rewrite Hp.
  set (w := Prototypes.name f ++ lit "(" ++ params ++ lit ");").
  set (a := X ++ kw ++ lit " ").
  assert (Hs : X ++ (kw ++ lit " " ++ w) ++ Y = a ++ w ++ Y).
  { unfold a. now rewrite <- !app_assoc. }
  fold w. rewrite Hs.
  assert (HL : Lang (Seqs [ Str (Prototypes.name f); Star Space; Chr (ch "(");
                            Star (NSet [One (ch ")")]); Chr (ch ")"); Star Space;
                            Chr (ch ";") ]) w).
  { cbn [Seqs]. exists (Prototypes.name f), (lit "(" ++ params ++ lit ");").
    split; [reflexivity|]. split; [now apply Lang_Str|].
    exists [], (lit "(" ++ params ++ lit ");"). split; [reflexivity|].
    split; [exists []; split; [reflexivity|constructor]|].
    exists (lit "("), (params ++ lit ");"). split; [reflexivity|].
    split; [reflexivity|].
    exists params, (lit ");"). split; [reflexivity|]. split.
    - exists (map (fun y => [y]) params). split.
      + clear. induction params as [|y t IH]; simpl; [reflexivity|]. now rewrite <- IH.
      + apply Forall_forall. intros v Hv. apply in_map_iff in Hv as (y & <- & Hy).
        split; [|discriminate]. exists y. split; [reflexivity|].
        unfold class_matches, existsb, citem_matches, char_eqb.
        rewrite orb_false_r. apply N.eqb_neq. intros E. apply Hparams.
        now rewrite E.
    - exists (lit ")"), (lit ";"). split; [reflexivity|]. split; [reflexivity|].
      exists [], (lit ";"). split; [reflexivity|].
      split; [exists []; split; [reflexivity|constructor]|reflexivity]. }
  match type of HL with Lang ?R _ =>
    assert (HP : plain R = true) by (cbn [Seqs]; simpl; now rewrite plain_Str);
    destruct (Lang_Matches R HP _ _ _ _ (eq_refl (a ++ w ++ Y)) HL []) as [c1 M]
  end.
  exists (length a), (length a + length w), c1. split.
  - rewrite length_app. lia.
  - unfold prototypePattern. cbn [Seqs] in *. exists (length a), []. split; [|exact M].
    split; [|split; reflexivity].
    unfold w. rewrite Hname. simpl app.
    apply boundary_before; [|now apply identStart_word].
    unfold a, notWordBefore. rewrite !rev_app_distr. reflexivity.
Qed.

End PrototypePatternFacts.

Section PrototypeIdempotence.

Lemma foundFunctions_shape (lines : list jstring) (main : Z) (f : FoundFunction) :
  In f (foundFunctions lines main) -> PrototypeShape f.
Proof.
  unfold foundFunctions. intros H. apply in_flat_map in H as (line & _ & H).
  now apply functionOfLine_shape in H.
Qed.

(** What a run of the prototype synthesis that issues an edit has found,
    and the lines of the document after the edit. *)
Lemma autoGeneratePrototypes_edit (text : jstring) (ed : Edit) :
  autoGeneratePrototypes false true text = Some ed ->
  let lines := documentLines text in
  exists k n,
    lastIncludeLine lines = Z.of_nat k /\ mainLine lines (Z.of_nat k) = Z.of_nat n /\
    k < n < length lines /\
    let missing := missingPrototypes (prototypeArea lines (Z.of_nat k) (Z.of_nat n))
                     (foundFunctions lines (Z.of_nat n)) in
    missing <> [] /\
    applyEdit lines (Some ed)
    = firstn (S k) lines ++ (([] : jstring) :: map prototype missing) ++ skipn (S k) lines.
Proof.
  intros E lines. unfold autoGeneratePrototypes in E. cbv zeta in E. simpl negb in E.
  cbv iota in E. fold lines in E.
  destruct (Z.eqb_spec (lastIncludeLine lines) (-1)) as [|Hinc]; [discriminate|].
  destruct (lastIncludeLine_some lines Hinc) as (k & Hk & Hklt & _).
  rewrite Hk in E.
  destruct (Z.eqb_spec (mainLine lines (Z.of_nat k)) (-1)) as [|Hmain]; [discriminate|].
  destruct (mainLine_some lines k Hmain) as (n & Hn & Hkn).
  rewrite Hn in E.
  exists k, n. split; [assumption|]. split; [assumption|]. split; [assumption|].
  intros missing. fold missing in E.
  destruct (length (foundFunctions lines (Z.of_nat n)) =? 0); [discriminate|].
  destruct (0 <? length missing) eqn:Em; [|discriminate].
  apply Nat.ltb_lt in Em.
  assert (Hmiss : missing <> []) by (intros Hnil; rewrite Hnil in Em; simpl in Em; lia).
  split; [assumption|].
  apply Some_inj in E. rewrite <- E. unfold applyEdit. cbn [insertLine insertText].
  replace (Z.to_nat (Z.of_nat k + 1)) with (S k) by lia.
  rewrite (prototypesText_block missing Hmiss).
  apply applyInsert_block.
  - apply documentLines_noNL.
  - constructor; [intros []|].
    apply Forall_forall. intros p Hp. apply in_map_iff in Hp as (f & <- & Hf).
    apply missingPrototypes_In in Hf.
    apply (foundFunctions_prototype lines (Z.of_nat n) f (documentLines_noNL text) Hf).
  - fold lines. lia.
Qed.

End PrototypeIdempotence.

(** X3: prototype synthesis is idempotent.  On a document whose lines are
    the lines left by a run of the synthesis (with or without an edit),
    the next run issues no edit: every function found behind main has its
    prototype in the prototype area. *)
Theorem prototype_synthesis_idempotent (text text' : jstring) :
  documentLines text'
  = applyEdit (documentLines text) (autoGeneratePrototypes false true text) ->
  autoGeneratePrototypes false true text' = None.
Proof.
  intros H.
  destruct (autoGeneratePrototypes false true text) as [ed|] eqn:E.
  2:{ simpl in H. unfold autoGeneratePrototypes in *. cbv zeta in *.
      rewrite H. exact E. }
  destruct (autoGeneratePrototypes_edit text ed E) as (k & n & Hk & Hn & Hkn & Hmiss & Hed).
  cbv zeta in Hmiss, Hed. rewrite Hed in H. clear Hed E ed.
  set (lines := documentLines text) in *.
  set (found := foundFunctions lines (Z.of_nat n)) in *.
  set (area := prototypeArea lines (Z.of_nat k) (Z.of_nat n)) in *.
  set (missing := missingPrototypes area found) in *.
  set (ins := ([] : jstring) :: map prototype missing) in *.
  set (A := firstn (S k) lines) in *.
  set (B := skipn (S k) lines) in *.
  assert (HA : length A = S k) by (unfold A; rewrite length_firstn; lia).
  assert (Hshape : forall f, In f found -> PrototypeShape f)
    by (intros f; apply foundFunctions_shape).
  assert (Hins1 : Forall (fun l => isIncludeLine l = false) ins).
  { constructor; [reflexivity|]. apply Forall_forall. intros p Hp.
    apply in_map_iff in Hp as (f & <- & Hf). apply missingPrototypes_In in Hf.
    apply prototype_not_include. now apply Hshape. }
  assert (Hins2 : Forall (fun l => test mainPattern l = false) ins).
  { constructor; [reflexivity|]. apply Forall_forall. intros p Hp.
    apply in_map_iff in Hp as (f & <- & Hf). apply missingPrototypes_In in Hf.
    apply prototype_not_main. now apply Hshape. }
  (* the second run *)
  unfold autoGeneratePrototypes. cbv zeta. simpl negb. cbv iota. rewrite H.
  pose proof (lastIncludeLine_insert lines ins k Hk Hins1) as Hk'.
  fold A B in Hk'. rewrite Hk'.
  destruct (Z.eqb_spec (Z.of_nat k) (-1)) as [|_]; [lia|].
  assert (Hskip : skipn (S k) (A ++ ins ++ B) = ins ++ B).
  { rewrite <- HA. rewrite <- (Nat.add_0_r (length A)). now rewrite skipn_app_length. }
  assert (HmB : mainLineFrom B (Z.of_nat k + 1) = Z.of_nat n).
  { rewrite <- Hn. unfold mainLine. unfold B.
    now replace (Z.to_nat (Z.of_nat k + 1)) with (S k) by lia. }
  assert (Hn' : mainLine (A ++ ins ++ B) (Z.of_nat k) = Z.of_nat (n + length ins)).
  { unfold mainLine. replace (Z.to_nat (Z.of_nat k + 1)) with (S k) by lia.
    rewrite Hskip, (mainLineFrom_skip ins B _ Hins2).
    rewrite mainLineFrom_shift by (rewrite HmB; lia). rewrite HmB.
    rewrite Nat2Z.inj_add. reflexivity. }
  rewrite Hn'.
  destruct (Z.eqb_spec (Z.of_nat (n + length ins)) (-1)) as [|_]; [lia|].
  assert (Hfound : foundFunctions (A ++ ins ++ B) (Z.of_nat (n + length ins)) = found).
  { unfold found, foundFunctions. f_equal.
    replace (Z.to_nat (Z.of_nat (n + length ins) + 1))
      with (length A + (length ins + (n - k))) by lia.
    rewrite !skipn_app_length. unfold B. rewrite skipn_skipn. f_equal. lia. }
  rewrite Hfound.
  assert (Harea : prototypeArea (A ++ ins ++ B) (Z.of_nat k) (Z.of_nat (n + length ins))
                  = join [NL] (ins ++ firstn (n - S k) B)).
  { unfold prototypeArea, slice.
    replace (Z.to_nat (Z.of_nat k + 1)) with (S k) by lia.
    rewrite Hskip, Nat2Z.id.
    replace (n + length ins - S k) with (length ins + (n - S k)) by lia.
    now rewrite firstn_app_length. }
  assert (Harea0 : area = join [NL] (firstn (n - S k) B)).
  { unfold area, prototypeArea, slice.
    replace (Z.to_nat (Z.of_nat k + 1)) with (S k) by lia.
    now rewrite Nat2Z.id. }
  rewrite Harea.
  assert (Hnone : missingPrototypes (join [NL] (ins ++ firstn (n - S k) B)) found = []).
  { unfold missingPrototypes. apply filter_none. intros f Hf.
    apply negb_false_iff.
    destruct (test (prototypePattern (Prototypes.name f)) area) eqn:T.
    - destruct (firstn (n - S k) B) as [|l0 ls0] eqn:EB.
      + rewrite Harea0 in T. simpl in T. rewrite test_prototypePattern_nil in T.
        discriminate.
      + destruct (join_app_r ins (l0 :: ls0) ltac:(discriminate)) as (X & EX & HX).
        rewrite EX. apply prototypePattern_extend; [assumption|].
        now rewrite <- Harea0.
    - assert (Hin : In (prototype f) (ins ++ firstn (n - S k) B)).
      { apply in_or_app. left. right. apply in_map. unfold missing, missingPrototypes.
        apply filter_In. split; [assumption|]. now rewrite T. }
      apply join_In in Hin as (X & Y & EX). rewrite EX.
      apply prototype_in_area. now apply Hshape. }
  rewrite Hnone. simpl. now destruct (length found =? 0).
Qed.

Lemma prototype_synthesis_idempotent_witness :
  let text := lit "#include <stdio.h>" ++ [NL] ++ lit "int main() {" ++ [NL] ++ lit "}"
              ++ [NL] ++ lit "int add(int a, int b) {" ++ [NL] ++ lit "}" in
  let text' := lit "#include <stdio.h>" ++ [NL] ++ [NL] ++ lit "int add(int a, int b);"
               ++ [NL] ++ lit "int main() {" ++ [NL] ++ lit "}"
               ++ [NL] ++ lit "int add(int a, int b) {" ++ [NL] ++ lit "}" in
  autoGeneratePrototypes false true text <> None /\
  autoGeneratePrototypes false true text' = None.
Proof.
  cbv zeta. split; [vm_compute; discriminate|].
  apply (prototype_synthesis_idempotent
           (lit "#include <stdio.h>" ++ [NL] ++ lit "int main() {" ++ [NL] ++ lit "}"
            ++ [NL] ++ lit "int add(int a, int b) {" ++ [NL] ++ lit "}")).
  vm_compute. reflexivity.
Defined.

(** X4: every function that the prototype synthesis finds behind main has
    a prototype of one shape: a type keyword, one blank, an identifier
    other than main, and a parameter list without a closing parenthesis,
    closed by a parenthesis and a semicolon. *)
Theorem found_functions_shape (lines : list jstring) (main : Z) :
  Forall PrototypeShape (foundFunctions lines main).
Proof.
  apply Forall_forall. intros f Hf.
  unfold foundFunctions in Hf. apply in_flat_map in Hf as (line & _ & Hf).
  exact (functionOfLine_shape line f Hf).
Qed.

(** ** Trimming and the searches *)

Section TrimFacts.

Lemma trimStart_idem (s : jstring) : trimStart (trimStart s) = trimStart s.
Proof.
  induction s as [|c s IH]; simpl; [reflexivity|].
  destruct (isWhiteSpace c) eqn:E; [exact IH|]. simpl. now rewrite E.
Qed.

Lemma trimStart_app_last (l : jstring) (c : char) :
  trimStart (l ++ [c])
  = match trimStart l with
    | [] => if isWhiteSpace c then [] else [c]
    | t => t ++ [c]
    end.
Proof.
  induction l as [|x l IH]; simpl; [reflexivity|].
  destruct (isWhiteSpace x); [exact IH|reflexivity].
Qed.

Lemma trimEnd_cons (c : char) (s : jstring) :
  trimEnd (c :: s)
  = match trimEnd s with
    | [] => if isWhiteSpace c then [] else [c]
    | t => c :: t
    end.
Proof.
  unfold trimEnd. simpl rev. rewrite trimStart_app_last.
  destruct (trimStart (rev s)) as [|y t] eqn:E; simpl.
  - now destruct (isWhiteSpace c).
  - rewrite rev_app_distr. simpl.
    destruct (rev t ++ [y]) eqn:E'; [|reflexivity].
    apply app_eq_nil in E' as [_ E']. discriminate.
Qed.

Lemma trimEnd_idem (s : jstring) : trimEnd (trimEnd s) = trimEnd s.
Proof.
  unfold trimEnd. rewrite rev_involutive. now rewrite trimStart_idem.
Qed.

(** Trimming at the start and trimming at the end commute. *)
Lemma trimStart_trimEnd (s : jstring) : trimStart (trimEnd s) = trimEnd (trimStart s).
Proof.
  induction s as [|c s IH]; [reflexivity|].
  rewrite trimEnd_cons. simpl trimStart at 2.
  destruct (isWhiteSpace c) eqn:E.
  - rewrite <- IH. destruct (trimEnd s) as [|y t]; [reflexivity|].
    simpl. now rewrite E.
  - rewrite trimEnd_cons. destruct (trimEnd s) as [|y t]; simpl; now rewrite E.
Qed.

Lemma trim_trimEnd (s : jstring) : trim (trimEnd s) = trim s.
Proof. unfold trim. now rewrite trimStart_trimEnd, trimEnd_idem. Qed.

Lemma trim_trimStart (s : jstring) : trim (trimStart s) = trim s.
Proof. unfold trim. now rewrite trimStart_idem. Qed.

Lemma trim_idem (s : jstring) : trim (trim s) = trim s.
Proof. unfold trim at 2. rewrite trim_trimEnd. apply trim_trimStart. Qed.

End TrimFacts.

Section SearchChain.

Lemma includes_app_l (s p q : jstring) :
  includes s (p ++ q) = true -> includes s p = true.
Proof.
  intros H. apply includes_spec in H as (a & b & ->). apply includes_spec.
  exists a, (q ++ b). now rewrite <- app_assoc.
Qed.

Lemma LIBRARY_DATABASE_name (f : LibraryFunction) :
  In f LIBRARY_DATABASE ->
  negb (length (Reference.name f) =? 0) = true /\ negb (length (header f) =? 0) = true.
Proof.
  intros H. pose proof LIBRARY_DATABASE_named as Hall.
  rewrite forallb_forall in Hall. apply Hall in H. now apply andb_true_iff in H.
Qed.

(** On the catalog the filter of the side bar is: the name or the header
    holds the term. *)
Lemma matchesSidebar_catalog (term : jstring) (f : LibraryFunction) :
  In f LIBRARY_DATABASE ->
  matchesSidebar term f
  = includes (toLowerCase (Reference.name f)) term
    || includes (toLowerCase (header f)) term.
Proof.
  intros H. destruct (LIBRARY_DATABASE_name f H) as [Hn Hh].
  unfold matchesSidebar. rewrite Hn, Hh. cbn [andb].
  destruct (includes (toLowerCase (Reference.name f)) term); [reflexivity|].
  cbn [orb].
  destruct (includes (toLowerCase (header f)) term) eqn:E; [apply orb_true_r|].
  rewrite orb_false_r.
  destruct (endsWith term (lit ".h")); [exact E|].
  destruct (includes (toLowerCase (header f)) (term ++ lit ".h")) eqn:E'; [|reflexivity].
  apply includes_app_l in E'. congruence.
Qed.

End SearchChain.

(** X5: the side bar search returns exactly the catalog entries whose
    lower-cased name or header holds the trimmed, lower-cased query; the
    completion of the query by [.h] never adds an entry. *)
Theorem sidebar_search_spec (query : jstring) :
  handleWebviewMessage (lit "search") query
  = Some (filter (fun f =>
                    includes (toLowerCase (Reference.name f)) (trim (toLowerCase query))
                    || includes (toLowerCase (header f)) (trim (toLowerCase query)))
            LIBRARY_DATABASE).
Proof.
  unfold handleWebviewMessage. rewrite str_eqb_refl. cbv zeta. apply f_equal.
  apply filter_ext_in. intros f Hf. now apply matchesSidebar_catalog.
Qed.

(** X6: whatever the side bar search returns the panel search returns
    too, whenever the panel answers the query. *)
Theorem sidebar_results_in_panel (query : jstring)
  (sidebar panel : list LibraryFunction) :
  handleWebviewMessage (lit "search") query = Some sidebar ->
  handleSearchMessage (lit "search") query = Some panel ->
  incl sidebar panel.
Proof.
  unfold handleWebviewMessage, handleSearchMessage. rewrite str_eqb_refl. cbv zeta.
  intros H1 H2. apply Some_inj in H1.
  destruct (negb (length query =? 0)); [|discriminate]. cbn [andb] in H2.
  destruct (length (trim (toLowerCase query)) =? 0); [discriminate|].
  apply Some_inj in H2. rewrite <- H1, <- H2. clear H1 H2.
  intros f Hf. apply filter_In in Hf as [Hin Hm]. apply filter_In. split; [assumption|].
  rewrite (matchesSidebar_catalog _ f Hin) in Hm. unfold matchesPanel.
  apply orb_true_iff in Hm as [Hm|Hm]; rewrite Hm; [reflexivity|].
  now rewrite orb_true_r.
Qed.

Lemma sidebar_results_in_panel_witness :
  let sidebar := filter (matchesSidebar (lit "print")) LIBRARY_DATABASE in
  let panel := filter (matchesPanel (lit "print")) LIBRARY_DATABASE in
  handleWebviewMessage (lit "search") (lit "Print") = Some sidebar /\
  handleSearchMessage (lit "search") (lit "Print") = Some panel /\
  incl sidebar panel.
Proof.
  cbv zeta.
  assert (H1 : handleWebviewMessage (lit "search") (lit "Print")
               = Some (filter (matchesSidebar (lit "print")) LIBRARY_DATABASE))
    by (vm_compute; reflexivity).
  assert (H2 : handleSearchMessage (lit "search") (lit "Print")
               = Some (filter (matchesPanel (lit "print")) LIBRARY_DATABASE))
    by (vm_compute; reflexivity).
  split; [exact H1|]. split; [exact H2|].
  exact (sidebar_results_in_panel (lit "Print") _ _ H1 H2).
Defined.

(** X7: a query that the search box sends is never blank for the panel:
    the panel answers it with the entries whose lower-cased name,
    description or header holds the lower-cased query. *)
Theorem posted_query_answered (input query : jstring) :
  performSearch input = PostSearch query ->
  query = trim input /\ query <> [] /\
  handleSearchMessage (lit "search") query
  = Some (filter (matchesPanel (toLowerCase query)) LIBRARY_DATABASE).
Proof.
  unfold performSearch. cbv zeta.
  destruct (length (trim input) =? 0) eqn:E; [discriminate|].
  intros H. assert (Hq : query = trim input) by congruence. clear H.
  apply Nat.eqb_neq in E.
  split; [assumption|]. split.
  - intros Hnil. rewrite Hq in Hnil. rewrite Hnil in E. now apply E.
  - unfold handleSearchMessage. rewrite str_eqb_refl. cbv zeta.
    rewrite trim_toLowerCase. rewrite Hq, trim_idem.
    destruct (length (toLowerCase (trim input)) =? 0) eqn:E'.
    + apply Nat.eqb_eq, length_zero_iff_nil, toLowerCase_nil in E'.
      rewrite E' in E. now elim E.
    + apply Nat.eqb_neq in E. now rewrite E.
Qed.

Lemma posted_query_answered_witness :
  performSearch (lit "  Printf ") = PostSearch (lit "Printf") /\
  handleSearchMessage (lit "search") (lit "Printf")
  = Some (filter (matchesPanel (toLowerCase (lit "Printf"))) LIBRARY_DATABASE).
Proof.
  assert (H : performSearch (lit "  Printf ") = PostSearch (lit "Printf"))
    by (vm_compute; reflexivity).
  split; [exact H|].
  exact (proj2 (proj2 (posted_query_answered (lit "  Printf ") (lit "Printf") H))).
Defined.

(** A query outside Basic Latin: the Kelvin sign is lower-cased to [k],
    and the panel answers it as it answers [k]. *)
Lemma panel_query_kelvin_sign :
  handleSearchMessage (lit "search") [8490%N] = handleSearchMessage (lit "search") (lit "k") /\
  option_map (@length _) (handleSearchMessage (lit "search") [8490%N]) = Some 4.
Proof. vm_compute. split; reflexivity. Qed.

(** X8: the command-palette search posts only entries that the side bar
    search finds for the same query, when the query has no white space
    around it, and it never posts an empty list. *)
Theorem searchReference_in_sidebar (query : jstring) (results : list LibraryFunction) :
  trim query = query ->
  searchReference query = PostResults results ->
  results <> [] /\
  exists sidebar, handleWebviewMessage (lit "search") query = Some sidebar /\
    incl results sidebar.
Proof.
  intros Ht. unfold searchReference. cbv zeta.
  destruct (0 <? length (filter _ LIBRARY_DATABASE)) eqn:E; [|discriminate].
  intros H. assert (Hr : filter (fun f => includes (toLowerCase (Reference.name f))
                                            (toLowerCase query)) LIBRARY_DATABASE
                         = results) by congruence.
  clear H. split.
  - intros Hnil. rewrite Hr, Hnil in E. discriminate.
  - unfold handleWebviewMessage. rewrite str_eqb_refl. cbv zeta.
    eexists. split; [reflexivity|].
    rewrite <- Hr. intros f Hf. apply filter_In in Hf as [Hin Hm].
    apply filter_In. split; [assumption|].
    rewrite (matchesSidebar_catalog _ f Hin).
    rewrite trim_toLowerCase, Ht, Hm. reflexivity.
Qed.

Lemma searchReference_in_sidebar_witness :
  let results := filter (fun f => includes (toLowerCase (Reference.name f)) (lit "printf"))
                   LIBRARY_DATABASE in
  searchReference (lit "Printf") = PostResults results /\
  results <> [] /\
  exists sidebar, handleWebviewMessage (lit "search") (lit "Printf") = Some sidebar /\
    incl results sidebar.
Proof.
  cbv zeta.
  assert (H1 : trim (lit "Printf") = lit "Printf") by (vm_compute; reflexivity).
  assert (H2 : searchReference (lit "Printf")
               = PostResults (filter (fun f => includes (toLowerCase (Reference.name f))
                                                (lit "printf")) LIBRARY_DATABASE))
    by (vm_compute; reflexivity).
  split; [exact H2|].
  exact (searchReference_in_sidebar (lit "Printf") _ H1 H2).
Defined.

(** ** The diagnostics of a document *)

Section RangeFacts.

Lemma len_stripComment (line : jstring) : (len (stripComment line) <= len line)%Z.
Proof.
  unfold stripComment, len, substring0. cbv zeta.
  destruct (indexOf line (lit "//") =? -1)%Z; [lia|].
  rewrite length_firstn. lia.
Qed.

(** Where a text is found, it lies inside the string. *)
Lemma indexOf_inside (s p : jstring) :
  includes s p = true ->
  (0 <= indexOf s p /\ indexOf s p + len p <= len s)%Z.
Proof.
  intros H. destruct (indexOf_found s p H) as (a & b & Hs & Hi & _).
  rewrite Hi. unfold len. rewrite Hs, !length_app. lia.
Qed.

Lemma test_Seq_Str_includes (p : jstring) (r : regex) (s : jstring) :
  test (Seq (Str p) r) s = true -> includes s p = true.
Proof.
  intros H. apply test_spec in H as (i & j & c' & Hi & HM).
  apply Matches_Seq_inv in HM as (j1 & c1 & H1 & _).
  apply Matches_Str_inv in H1 as [b Hb]; [|assumption].
  apply includes_spec. now exists (firstn i s), b.
Qed.

Lemma substr_includes (s : jstring) (i j : nat) : includes s (substr s i j) = true.
Proof.
  apply includes_spec. exists (firstn i s), (skipn (j - i) (skipn i s)).
  apply substr_decompose.
Qed.

(** What the pattern of the allocators matches. *)
Lemma allocatorPattern_match (s : jstring) (i j : nat) (c c' : captures) :
  Matches s allocatorPattern i c j c' ->
  In (substr s i j) [lit "malloc"; lit "calloc"; lit "realloc"].
Proof.
  unfold allocatorPattern. intros H.
  apply Matches_Seq_inv in H as (j0 & c0 & H0 & H).
  destruct H0 as (_ & -> & ->).
  apply Matches_Group_inv in H as (c1 & H & _).
  apply Matches_Lang in H; [|reflexivity].
  apply Lang_Alts in H. unfold L in H.
  rewrite !Exists_cons, Exists_nil, !Lang_Str in H. simpl. intuition auto.
Qed.

Lemma UNSAFE_FUNCTIONS_nonempty (u sf : jstring) :
  In (u, sf) UNSAFE_FUNCTIONS -> (0 < len u)%Z.
Proof.
  intros H. simpl in H.
  decompose [or] H; try contradiction;
    match goal with E : _ = (u, sf) |- _ => injection E as <- _ end; reflexivity.
Qed.

Lemma checkUnsafeFunctions_range (line : jstring) (ln : Z) (d : Diagnostic) :
  In d (checkUnsafeFunctions line ln []) -> inLine line ln d.
Proof.
  unfold checkUnsafeFunctions. cbv zeta. destruct (_ || _); [contradiction|].
  rewrite fold_checkUnsafeEntry_app, app_nil_l, in_flat_map.
  intros ([u sf] & Hu & H). unfold checkUnsafeEntry in H.
  destruct (includes line (u ++ lit "(")) eqn:E; [|contradiction].
  destruct (_ && _); [contradiction|].
  destruct H as [<-|[]]. apply includes_app_l in E.
  destruct (indexOf_inside line u E) as [H1 H2].
  pose proof (UNSAFE_FUNCTIONS_nonempty u sf Hu).
  unfold inLine. cbn [range startLine endLine startCharacter endCharacter]. lia.
Qed.

Lemma checkAssignmentInConditional_range (line : jstring) (ln : Z) (d : Diagnostic) :
  In d (checkAssignmentInConditional line ln []) -> inLine line ln d.
Proof.
  unfold checkAssignmentInConditional. cbv zeta.
  destruct (test assignmentPattern (stripComment line)) eqn:E; [|contradiction].
  intros [<-|[]].
  apply test_Seq_Str_includes in E.
  destruct (indexOf_inside _ _ E) as [H1 H2].
  pose proof (len_stripComment line).
  change (len (lit "if")) with 2%Z in H2.
  unfold inLine. cbn [range startLine endLine startCharacter endCharacter]. lia.
Qed.

Lemma checkMemoryAllocation_range (line : jstring) (ln : Z) (d : Diagnostic) :
  In d (checkMemoryAllocation line ln []) -> inLine line ln d.
Proof.
  unfold checkMemoryAllocation. cbv zeta.
  destruct (test _ _); [|contradiction].
  destruct (exec allocatorPattern (stripComment line) 0) as [[st res]|] eqn:E;
    [|contradiction].
  intros [<-|[]].
  apply exec_sound in E as [_ HM]. apply allocatorPattern_match in HM.
  destruct (indexOf_inside _ _ (substr_includes (stripComment line) st (fst res)))
    as [H1 H2].
  pose proof (len_stripComment line).
  assert (0 < len (substr (stripComment line) st (fst res)))%Z.
  { simpl in HM. decompose [or] HM; try contradiction;
      match goal with E : _ = substr _ _ _ |- _ => rewrite <- E end; reflexivity. }
  unfold inLine. cbn [range startLine endLine startCharacter endCharacter]. lia.
Qed.

Lemma checkFopenWithoutNullCheck_range (lines : list jstring) (line : jstring) (i : nat)
  (d : Diagnostic) :
  In d (checkFopenWithoutNullCheck lines line i []) -> inLine line (Z.of_nat i) d.
Proof.
  intros H. apply checkFopenWithoutNullCheck_In in H as (-> & E & _ & _).
  change (lit "fopen(") with (lit "fopen" ++ lit "(") in E. apply includes_app_l in E.
  destruct (indexOf_inside _ _ E) as [H1 H2].
  pose proof (len_stripComment line).
  change (len (lit "fopen")) with 5%Z in H2.
  unfold inLine. cbn [range startLine endLine startCharacter endCharacter]. lia.
Qed.

End RangeFacts.

Lemma len_lineText (piece : jstring) :
  (len piece <= len (lineText piece) + 1)%Z /\
  (endsWith piece [CR] = false -> lineText piece = piece).
Proof.
  unfold lineText. destruct (endsWith piece [CR]) eqn:E; [|split; [lia|reflexivity]].
  split; [|discriminate]. unfold len.
  destruct piece as [|c t]; [discriminate E|].
  rewrite removelast_firstn_len, length_firstn. simpl length. lia.
Qed.

(** In a document with CRLF line ends a range may end one column behind
    the line of the editor: the line has 14 characters here. *)
Lemma crlf_range_past_line :
  let text := lit "p = malloc(4);" ++ [CR; NL] ++ lit "x" in
  nth_error (documentLines text) 0 = Some (lit "p = malloc(4);" ++ [CR]) /\
  lineText (lit "p = malloc(4);" ++ [CR]) = lit "p = malloc(4);" /\
  map range (runDiagnostics text) = [mkRange 0 4 0 15].
Proof. vm_compute. repeat split. Qed.

(** X9: every diagnostic marks a non-empty range inside one piece of the
    text split at the line feeds: both of its lines are the index of the
    piece, and its columns lie in the piece.  The piece is the line of
    the editor, followed by a carriage return in a document with CRLF
    line ends: the range ends at most one column behind the line of the
    editor, and inside it when the piece does not end with a carriage
    return. *)
Theorem diagnostic_ranges (text : jstring) (d : Diagnostic) :
  In d (runDiagnostics text) ->
  exists i piece,
    nth_error (documentLines text) i = Some piece /\
    startLine (range d) = Z.of_nat i /\ endLine (range d) = Z.of_nat i /\
    (0 <= startCharacter (range d) < endCharacter (range d))%Z /\
    (endCharacter (range d) <= len piece)%Z /\
    (endCharacter (range d) <= len (lineText piece) + 1)%Z /\
    (endsWith piece [CR] = false -> (endCharacter (range d) <= len (lineText piece))%Z).
Proof.
  intros H. apply runDiagnostics_In in H as (i & Hi & H).
  exists i, (nth i (documentLines text) []).
  split; [now apply List.nth_error_nth'|].
  assert (Hr : inLine (nth i (documentLines text) []) (Z.of_nat i) d).
  { destruct H as [H|[H|[H|H]]].
    - now apply checkUnsafeFunctions_range in H.
    - now apply checkAssignmentInConditional_range in H.
    - now apply checkMemoryAllocation_range in H.
    - now apply checkFopenWithoutNullCheck_range in H. }
  destruct (len_lineText (nth i (documentLines text) [])) as [H1 H2].
  destruct Hr as (Ha & Hb & Hc & Hd).
  repeat split; try assumption; try lia.
  intros E. rewrite (H2 E). exact Hd.
Qed.

Lemma diagnostic_ranges_witness :
  let text := lit "int main() {" ++ [NL] ++ lit "  gets(buf);" ++ [NL] ++ lit "}" in
  let d := mkDiagnostic (mkRange 1 2 1 6) (unsafeMessage (lit "gets") (lit "fgets")) Warning in
  In d (runDiagnostics text) /\
  exists i piece,
    nth_error (documentLines text) i = Some piece /\
    startLine (range d) = Z.of_nat i /\ endLine (range d) = Z.of_nat i /\
    (0 <= startCharacter (range d) < endCharacter (range d))%Z /\
    (endCharacter (range d) <= len piece)%Z /\
    (endCharacter (range d) <= len (lineText piece) + 1)%Z /\
    (endsWith piece [CR] = false -> (endCharacter (range d) <= len (lineText piece))%Z).
Proof.
  cbv zeta.
  assert (H : In (mkDiagnostic (mkRange 1 2 1 6) (unsafeMessage (lit "gets") (lit "fgets"))
                    Warning)
                (runDiagnostics (lit "int main() {" ++ [NL] ++ lit "  gets(buf);" ++ [NL]
                                 ++ lit "}")))
    by (vm_compute; left; reflexivity).
  split; [exact H|].
  exact (diagnostic_ranges _ _ H).
Defined.

Section OrderOfDiagnostics.

Lemma sorted_const_app (c : Z) (xs ys : list Z) :
  Forall (fun z => z = c) xs -> Forall (fun z => (c <= z)%Z) ys ->
  StronglySorted Z.le ys -> StronglySorted Z.le (xs ++ ys).
Proof.
  intros Hxs Hys Hs. induction Hxs as [|z zs Hz Hzs IH]; simpl; [assumption|].
  constructor; [assumption|]. subst z. apply Forall_app. split; [|assumption].
  eapply Forall_impl; [|exact Hzs]. intros a ->. lia.
Qed.

Lemma flat_map_sorted (A : Type) (key : A -> Z) (f : nat -> list A) (l : list nat) :
  (forall i d, In d (f i) -> key d = Z.of_nat i) ->
  StronglySorted lt l ->
  StronglySorted Z.le (map key (flat_map f l)).
Proof.
  intros Hf Hl. induction Hl as [|i l Hl IH Hi]; simpl; [constructor|].
  rewrite map_app. apply (sorted_const_app (Z.of_nat i)).
  - apply Forall_forall. intros z Hz. apply in_map_iff in Hz as (d & <- & Hd).
    now apply Hf.
  - apply Forall_forall. intros z Hz. apply in_map_iff in Hz as (d & <- & Hd).
    apply in_flat_map in Hd as (j & Hj & Hd). rewrite (Hf j d Hd).
    rewrite Forall_forall in Hi. apply Hi in Hj. lia.
  - exact IH.
Qed.

Lemma seq_sorted (n start : nat) : StronglySorted lt (seq start n).
Proof.
  revert start. induction n as [|n IH]; intros start; simpl; constructor; [apply IH|].
  apply Forall_forall. intros j Hj. apply in_seq in Hj. lia.
Qed.

End OrderOfDiagnostics.

(** X10: the diagnostics of a document come in the order of its lines. *)
Theorem diagnostics_ordered (text : jstring) :
  StronglySorted Z.le (map (fun d => startLine (range d)) (runDiagnostics text)).
Proof.
  rewrite runDiagnostics_lines. apply flat_map_sorted; [|apply seq_sorted].
  intros i d Hd. rewrite checkLineAt_app in Hd. simpl in Hd.
  rewrite !in_app_iff in Hd. destruct Hd as [H|[H|[H|H]]].
  - now apply checkUnsafeFunctions_range in H as [H _].
  - now apply checkAssignmentInConditional_range in H as [H _].
  - now apply checkMemoryAllocation_range in H as [H _].
  - now apply checkFopenWithoutNullCheck_range in H as [H _].
Qed.

Section CommentLines.

(** The first two characters of the trimmed text are the first two
    characters behind the leading white space. *)
Lemma trim_startsWith2 (s : jstring) (x y : char) :
  startsWith (trim s) [x; y] = true -> exists t, trimStart s = x :: y :: t.
Proof.
  unfold trim. intros H. apply startsWith_spec in H as [r Hr]. simpl in Hr.
  destruct (trimStart s) as [|c u]; [discriminate|].
  rewrite trimEnd_cons in Hr.
  destruct (trimEnd u) as [|y' t'] eqn:Eu.
  - destruct (isWhiteSpace c); discriminate.
  - injection Hr as -> -> ->.
    destruct u as [|c2 u]; [discriminate|].
    rewrite trimEnd_cons in Eu. exists u.
    destruct (trimEnd u) as [|y2 t2].
    + destruct (isWhiteSpace c2); [discriminate|]. now injection Eu as ->.
    + now injection Eu as -> _.
Qed.

(** In front of the first comment marker of a line whose trimmed text
    starts with the marker there is only white space. *)
Lemma stripComment_comment_line (line : jstring) :
  startsWith (trim line) (lit "//") = true ->
  Forall (fun x => isWhiteSpace x = true) (stripComment line).
Proof.
  intros H. apply (trim_startsWith2 line (ch "/") (ch "/")) in H as [t Ht].
  destruct (trimStart_decomp line) as (a & Hl & Ha). rewrite Ht in Hl.
  assert (Hinc : includes line (lit "//") = true).
  { apply includes_spec. now exists a, t. }
  destruct (indexOf_found line (lit "//") Hinc) as (a0 & b0 & Hl0 & Hi & Hmin).
  specialize (Hmin a t Hl).
  unfold stripComment. cbv zeta. rewrite Hi.
  destruct (Z.eqb_spec (Z.of_nat (length a0)) (-1)) as [|_]; [lia|].
  unfold substring0. rewrite Nat2Z.id. rewrite Hl at 1.
  rewrite firstn_app. replace (length a0 - length a) with 0 by lia.
  rewrite firstn_O, app_nil_r.
  apply Forall_forall. intros x Hx. apply In_firstn in Hx.
  rewrite Forall_forall in Ha. now apply Ha.
Qed.

Lemma blank_includes (s p : jstring) (x : char) :
  Forall (fun y => isWhiteSpace y = true) s -> In x p -> isWhiteSpace x = false ->
  includes s p = false.
Proof.
  intros Hs Hx Hw. destruct (includes s p) eqn:E; [exfalso|reflexivity].
  apply includes_spec in E as (a & b & ->).
  rewrite Forall_forall in Hs. rewrite Hs in Hw; [discriminate|].
  apply in_or_app. right. apply in_or_app. now left.
Qed.

Lemma Matches_Chr_In (s : jstring) (x : char) (i j : nat) (c c' : captures) :
  Matches s (Chr x) i c j c' -> In x s.
Proof.
  intros (y & Hy & Hxy & _). apply char_eqb_eq in Hxy. subst y.
  unfold charAt in Hy. now apply nth_error_In in Hy.
Qed.

(** A line that is a line comment gets no diagnostic. *)
Lemma comment_line_checks (lines : list jstring) (i : nat) :
  startsWith (trim (nth i lines [])) (lit "//") = true ->
  checkLineAt lines [] i = [].
Proof.
  intros H. pose proof (stripComment_comment_line _ H) as Hb.
  rewrite Forall_forall in Hb.
  rewrite checkLineAt_app. cbn [app].
  assert (E1 : checkUnsafeFunctions (nth i lines []) (Z.of_nat i) [] = []).
  { unfold checkUnsafeFunctions. cbv zeta. now rewrite H. }
  assert (E2 : checkAssignmentInConditional (nth i lines []) (Z.of_nat i) [] = []).
  { unfold checkAssignmentInConditional. cbv zeta.
    destruct (test assignmentPattern _) eqn:E; [exfalso|reflexivity].
    apply test_Seq_Str_includes in E. apply includes_spec in E as (a & b & E).
    assert (Hi : In (ch "i") (stripComment (nth i lines [])))
      by (rewrite E; apply in_or_app; right; now left).
    apply Hb in Hi. discriminate. }
  assert (E3 : checkMemoryAllocation (nth i lines []) (Z.of_nat i) [] = []).
  { unfold checkMemoryAllocation. cbv zeta.
    destruct (test allocationPattern _) eqn:E; [exfalso|reflexivity].
    apply test_spec in E as (i0 & j & c' & _ & HM).
    unfold allocationPattern in HM. cbn [Seqs] in HM.
    apply Matches_Seq_inv in HM as (j1 & c1 & _ & HM).
    apply Matches_Seq_inv in HM as (j2 & c2 & _ & HM).
    apply Matches_Chr_In in HM. apply Hb in HM. discriminate. }
  assert (E4 : checkFopenWithoutNullCheck lines (nth i lines []) i [] = []).
  { unfold checkFopenWithoutNullCheck. cbv zeta.
    rewrite (blank_includes _ (lit "fopen(") (ch "f")); [reflexivity| |now left|reflexivity].
    now apply Forall_forall. }
  now rewrite E1, E2, E3, E4.
Qed.

End CommentLines.

(** X11: a line whose text starts, after white space, with the marker of a
    line comment is never flagged: no diagnostic of the document lies on
    such a line. *)
Theorem comment_lines_not_flagged (text : jstring) (d : Diagnostic) (i : nat)
  (line : jstring) :
  In d (runDiagnostics text) ->
  startLine (range d) = Z.of_nat i ->
  nth_error (documentLines text) i = Some line ->
  startsWith (trim line) (lit "//") = false.
Proof.
  intros Hd Hi Hline. rewrite runDiagnostics_lines in Hd.
  apply in_flat_map in Hd as (j & Hj & Hd).
  assert (j = i).
  { rewrite checkLineAt_app in Hd. cbn [app] in Hd. rewrite !in_app_iff in Hd.
    assert (startLine (range d) = Z.of_nat j).
    { destruct Hd as [H|[H|[H|H]]].
      - now apply checkUnsafeFunctions_range in H as [H _].
      - now apply checkAssignmentInConditional_range in H as [H _].
      - now apply checkMemoryAllocation_range in H as [H _].
      - now apply checkFopenWithoutNullCheck_range in H as [H _]. }
    lia. }
  subst j.
  destruct (startsWith (trim line) (lit "//")) eqn:E; [exfalso|reflexivity].
  rewrite comment_line_checks in Hd; [contradiction|].
  now rewrite (nth_error_nth _ _ _ Hline).
Qed.

Lemma comment_lines_not_flagged_witness :
  let text := lit "// gets(buf)" ++ [NL] ++ lit "gets(buf);" in
  let d := mkDiagnostic (mkRange 1 0 1 4) (unsafeMessage (lit "gets") (lit "fgets")) Warning in
  runDiagnostics text = [d] /\
  startsWith (trim (lit "gets(buf);")) (lit "//") = false.
Proof.
  cbv zeta.
  assert (H : runDiagnostics (lit "// gets(buf)" ++ [NL] ++ lit "gets(buf);")
              = [mkDiagnostic (mkRange 1 0 1 4) (unsafeMessage (lit "gets") (lit "fgets"))
                   Warning])
    by (vm_compute; reflexivity).
  split; [exact H|].
  apply (comment_lines_not_flagged (lit "// gets(buf)" ++ [NL] ++ lit "gets(buf);")
           (mkDiagnostic (mkRange 1 0 1 4) (unsafeMessage (lit "gets") (lit "fgets")) Warning)
           1 (lit "gets(buf);")).
  - rewrite H. now left.
  - reflexivity.
  - vm_compute. reflexivity.
Defined.

(** ** The semicolon pass *)

Section SemicolonEdit.

Lemma trimEnd_blank_suffix (s b : jstring) :
  Forall (fun x => isWhiteSpace x = true) b -> trimEnd (s ++ b) = trimEnd s.
Proof.
  intros Hb. unfold trimEnd. rewrite rev_app_distr.
  rewrite trimStart_blank_prefix; [reflexivity|]. now apply Forall_rev.
Qed.

(** White space around a text does not change the trimmed text. *)
Lemma trim_blank_around (a t b : jstring) :
  Forall (fun x => isWhiteSpace x = true) a ->
  Forall (fun x => isWhiteSpace x = true) b ->
  trim (a ++ t ++ b) = trim t.
Proof.
  intros Ha Hb. unfold trim. rewrite (trimStart_blank_prefix a _ Ha).
  rewrite <- !trimStart_trimEnd. now rewrite (trimEnd_blank_suffix t b Hb).
Qed.

(** The trimmed text of a line that ends in a semicolon ends in a
    semicolon. *)
Lemma trim_semicolon (l : jstring) : endsWith (trim (l ++ lit ";")) (lit ";") = true.
Proof.
  unfold trim.
  destruct (trimStart_snoc l (ch ";") eq_refl) as [u Hu].
  change (lit ";") with [ch ";"]. rewrite Hu.
  unfold trimEnd. rewrite rev_app_distr. simpl rev at 2. cbn [app trimStart].
  change (isWhiteSpace (ch ";")) with false. cbv iota.
  apply endsWith_spec. exists u. simpl. now rewrite rev_involutive.
Qed.

Lemma shouldAddSemicolon_semicolon (l : jstring) :
  shouldAddSemicolon (trimEnd (l ++ lit ";")) = false.
Proof.
  unfold shouldAddSemicolon. cbv zeta. rewrite trim_trimEnd, trim_semicolon.
  now rewrite orb_true_r.
Qed.

Lemma nth_middle_line (A B : list jstring) (l : jstring) :
  nth (length A) (A ++ l :: B) [] = l.
Proof. rewrite app_nth2, Nat.sub_diag by lia. reflexivity. Qed.

(** The edit of the semicolon pass puts one semicolon at the very end of
    the line and leaves the other lines as they are. *)
Lemma addSemicolonIfNeeded_edit (lines : list jstring) (lineNum : Z) (ed : Edit) :
  Forall noNL lines ->
  addSemicolonIfNeeded false true lines lineNum = Some ed ->
  let n := Z.to_nat lineNum in
  (0 <= lineNum)%Z /\ n < length lines /\
  shouldAddSemicolon (nth n lines []) = true /\
  applyEditAt lines (Some ed)
  = firstn n lines ++ (nth n lines [] ++ lit ";") :: skipn (S n) lines.
Proof.
  intros Hl H n. unfold addSemicolonIfNeeded in H. cbv zeta in H. cbn [orb negb] in H.
  destruct (Z.ltb_spec lineNum 0) as [|H0]; [discriminate|].
  destruct (Z.leb_spec (Z.of_nat (length lines)) lineNum) as [|H1]; [discriminate|].
  cbn [orb] in H. fold n in H.
  destruct (shouldAddSemicolon (trimEnd (nth n lines []))) eqn:E; [|discriminate].
  apply Some_inj in H. subst ed.
  assert (Hn : n < length lines) by (unfold n; lia).
  split; [assumption|]. split; [assumption|]. split.
  - unfold shouldAddSemicolon in *. cbv zeta in *. now rewrite trim_trimEnd in E.
  - unfold applyEditAt, applyInsertAt. cbn [insertLine insertCharacter insertText].
    apply Nat.ltb_lt in Hn as Hn'. rewrite Hn'. cbv zeta.
    rewrite firstn_all, skipn_all, app_nil_r.
    rewrite split_single; [reflexivity|].
    intros Hin. apply in_app_or in Hin as [Hin|Hin].
    + now apply (nth_noNL lines n Hl).
    + destruct Hin as [Hin|[]]. discriminate.
Qed.

End SemicolonEdit.

(** X12: white space in front of a text and behind it never changes the
    decision to add a semicolon. *)
Theorem shouldAddSemicolon_blank_around (a t b : jstring) :
  Forall (fun x => isWhiteSpace x = true) a ->
  Forall (fun x => isWhiteSpace x = true) b ->
  shouldAddSemicolon (a ++ t ++ b) = shouldAddSemicolon t.
Proof.
  intros Ha Hb. unfold shouldAddSemicolon. cbv zeta.
  now rewrite (trim_blank_around a t b Ha Hb).
Qed.

Lemma shouldAddSemicolon_blank_around_witness :
  shouldAddSemicolon (lit "    " ++ lit "x = 1" ++ lit "  ") = shouldAddSemicolon (lit "x = 1").
Proof.
  apply shouldAddSemicolon_blank_around;
    repeat (constructor; [reflexivity|]); constructor.
Defined.

(** X13: the semicolon pass is idempotent: when it has added a semicolon
    to a line, it adds none to that line of the resulting document. *)
Theorem addSemicolonIfNeeded_idempotent (lines : list jstring) (lineNum : Z) :
  Forall noNL lines ->
  addSemicolonIfNeeded false true
    (applyEditAt lines (addSemicolonIfNeeded false true lines lineNum)) lineNum
  = None.
Proof.
  intros Hl.
  destruct (addSemicolonIfNeeded false true lines lineNum) as [ed|] eqn:E;
    [|simpl; exact E].
  destruct (addSemicolonIfNeeded_edit lines lineNum ed Hl E) as (H0 & Hn & _ & Hed).
  cbv zeta in Hed. rewrite Hed. clear Hed E ed.
  set (n := Z.to_nat lineNum) in *.
  assert (HA : length (firstn n lines) = n) by (rewrite length_firstn; lia).
  unfold addSemicolonIfNeeded. cbv zeta. cbn [orb negb].
  destruct (Z.ltb_spec lineNum 0) as [|_]; [lia|]. cbn [orb].
  destruct (Z.leb_spec (Z.of_nat (length (firstn n lines
              ++ (nth n lines [] ++ lit ";") :: skipn (S n) lines))) lineNum) as [|_];
    [reflexivity|].
  fold n. rewrite <- HA at 1. rewrite nth_middle_line.
  now rewrite shouldAddSemicolon_semicolon.
Qed.

Lemma addSemicolonIfNeeded_idempotent_witness :
  let lines := [lit "int main() {"; lit "  x = 1  "; lit "}"] in
  addSemicolonIfNeeded false true lines 1 <> None /\
  applyEditAt lines (addSemicolonIfNeeded false true lines 1)
  = [lit "int main() {"; lit "  x = 1  ;"; lit "}"] /\
  addSemicolonIfNeeded false true
    (applyEditAt lines (addSemicolonIfNeeded false true lines 1)) 1 = None.
Proof.
  cbv zeta. split; [vm_compute; discriminate|]. split; [vm_compute; reflexivity|].
  apply (addSemicolonIfNeeded_idempotent [lit "int main() {"; lit "  x = 1  "; lit "}"] 1).
  repeat (constructor; [vm_compute; intuition discriminate|]). constructor.
Defined.

(** X14: the semicolon pass changes one line only: it puts one semicolon
    at the very end of the line, behind any trailing white space, and it
    does so only for a line of the document that the heuristic accepts. *)
Theorem addSemicolonIfNeeded_effect (lines : list jstring) (lineNum : Z) (ed : Edit) :
  Forall noNL lines ->
  addSemicolonIfNeeded false true lines lineNum = Some ed ->
  exists A l B,
    lines = A ++ l :: B /\ Z.of_nat (length A) = lineNum /\
    shouldAddSemicolon l = true /\
    applyEditAt lines (Some ed) = A ++ (l ++ lit ";") :: B.
Proof.
  intros Hl E.
  destruct (addSemicolonIfNeeded_edit lines lineNum ed Hl E) as (H0 & Hn & Hs & Hed).
  cbv zeta in Hed, Hs, Hn.
  set (n := Z.to_nat lineNum) in *.
  exists (firstn n lines), (nth n lines []), (skipn (S n) lines).
  split; [|split; [|split; assumption]].
  - rewrite <- (firstn_skipn n lines) at 1. f_equal. now apply skipn_nth.
  - rewrite length_firstn. unfold n. lia.
Qed.

Lemma addSemicolonIfNeeded_effect_witness :
  let lines := [lit "int main() {"; lit "  x = 1  "; lit "}"] in
  exists A l B,
    lines = A ++ l :: B /\ Z.of_nat (length A) = 1%Z /\
    shouldAddSemicolon l = true /\
    applyEditAt lines (Some (mkEdit 1 9 (lit ";"))) = A ++ (l ++ lit ";") :: B.
Proof.
  cbv zeta.
  apply (addSemicolonIfNeeded_effect [lit "int main() {"; lit "  x = 1  "; lit "}"] 1
           (mkEdit 1 9 (lit ";"))).
  - repeat (constructor; [vm_compute; intuition discriminate|]). constructor.
  - vm_compute. reflexivity.
Defined.

Section DirectiveLines.

Lemma charAt_head (x : char) (t : jstring) : charAt (x :: t) 0 = Some x.
Proof. reflexivity. Qed.

Lemma test_preprocessor (s : jstring) :
  startsWith s (lit "#") = true -> test preprocessor s = true.
Proof.
  intros H. apply startsWith_spec in H as [t ->]. apply test_spec.
  exists 0, 1, []. split; [lia|].
  exists 0, []. split; [repeat split|].
  exists (ch "#"). repeat split.
Qed.

Lemma test_comment (s p : jstring) :
  In p [lit "//"; lit "/*"; lit "*"] -> startsWith s p = true -> test comment s = true.
Proof.
  intros Hp H. apply startsWith_spec in H as [t ->]. apply test_spec.
  destruct Hp as [<-|[<-|[<-|[]]]].
  - exists 0, 2, []. split; [lia|]. left.
    exists 0, []. split; [repeat split|].
    exact (Matches_Str (lit "//" ++ t) (lit "//") [] t [] eq_refl).
  - exists 0, 2, []. split; [lia|]. right. left.
    exists 0, []. split; [repeat split|].
    exists 1, []. split; [exists (ch "/")|exists (ch "*")]; repeat split.
  - exists 0, 1, []. split; [lia|]. right. right. right.
    exists 0, []. split; [repeat split|].
    exists (ch "*"). repeat split.
Qed.

End DirectiveLines.

(** X15: blank lines, preprocessor directives and lines that start a
    comment (two slashes, a slash and a star, or a star, after leading
    white space) never get a semicolon. *)
Theorem shouldAddSemicolon_skips (text : jstring) :
  trim text = [] \/
  (exists p, In p [lit "#"; lit "//"; lit "/*"; lit "*"] /\
     startsWith (trim text) p = true) ->
  shouldAddSemicolon text = false.
Proof.
  intros H. unfold shouldAddSemicolon. cbv zeta.
  destruct H as [H|(p & Hp & H)]; [now rewrite H|].
  destruct (_ || _); [reflexivity|].
  destruct (test opensBlock _); [reflexivity|].
  destruct (test closingBrace _); [reflexivity|].
  destruct Hp as [<-|Hp].
  - now rewrite (test_preprocessor _ H).
  - destruct (test preprocessor _); [reflexivity|].
    now rewrite (test_comment _ p Hp H).
Qed.

Lemma shouldAddSemicolon_skips_witness :
  shouldAddSemicolon (lit "   /* note") = false.
Proof.
  apply shouldAddSemicolon_skips. right. exists (lit "/*"). split.
  - simpl. auto.
  - vm_compute. reflexivity.
Defined.

(** X16: header insertion and prototype synthesis put their text at the
    same place, the start of the line behind the last include line. *)
Theorem passes_insert_at_same_line (text : jstring) (headers prototypes : Edit) :
  autoAddRequiredHeaders true text = Some headers ->
  autoGeneratePrototypes false true text = Some prototypes ->
  insertLine headers = insertLine prototypes /\
  insertCharacter headers = 0 /\ insertCharacter prototypes = 0 /\
  Z.of_nat (insertLine headers) = (lastIncludeLine (documentLines text) + 1)%Z.
Proof.
  intros H1 H2.
  unfold autoAddRequiredHeaders in H1. cbv zeta in H1. simpl negb in H1. cbv iota in H1.
  destruct (length (requiredHeaders (documentLines text)) =? 0); [discriminate|].
  apply Some_inj in H1. subst headers. cbn [insertLine insertCharacter].
  unfold autoGeneratePrototypes in H2. cbv zeta in H2. simpl negb in H2. cbv iota in H2.
  destruct (Z.eqb_spec (lastIncludeLine (documentLines text)) (-1)) as [|Hne];
    [discriminate|].
  destruct (_ =? -1)%Z; [discriminate|].
  destruct (length _ =? 0); [discriminate|].
  destruct (0 <? _); [|discriminate].
  apply Some_inj in H2. subst prototypes. cbn [insertLine insertCharacter].
  rewrite insertionLine_last.
  destruct (lastIncludeLine_some _ Hne) as (k & Hk & _).
  rewrite Hk. repeat split. lia.
Qed.

Lemma passes_insert_at_same_line_witness :
  let text := lit "#include <stdio.h>" ++ [NL] ++ lit "int main() { add(strlen(s), 1); }"
              ++ [NL] ++ lit "int add(int a, int b) {" ++ [NL] ++ lit "}" in
  let headers := mkEdit 1 0 (lit "#include <string.h>" ++ [NL]) in
  let prototypes := mkEdit 1 0 ([NL] ++ lit "int add(int a, int b);" ++ [NL]) in
  autoAddRequiredHeaders true text = Some headers /\
  autoGeneratePrototypes false true text = Some prototypes /\
  insertLine headers = insertLine prototypes.
Proof.
  cbv zeta.
  assert (E1 : autoAddRequiredHeaders true
                 (lit "#include <stdio.h>" ++ [NL] ++ lit "int main() { add(strlen(s), 1); }"
                  ++ [NL] ++ lit "int add(int a, int b) {" ++ [NL] ++ lit "}")
               = Some (mkEdit 1 0 (lit "#include <string.h>" ++ [NL])))
    by (vm_compute; reflexivity).
  assert (E2 : autoGeneratePrototypes false true
                 (lit "#include <stdio.h>" ++ [NL] ++ lit "int main() { add(strlen(s), 1); }"
                  ++ [NL] ++ lit "int add(int a, int b) {" ++ [NL] ++ lit "}")
               = Some (mkEdit 1 0 ([NL] ++ lit "int add(int a, int b);" ++ [NL])))
    by (vm_compute; reflexivity).
  split; [exact E1|]. split; [exact E2|].
  exact (proj1 (passes_insert_at_same_line _ _ _ E1 E2)).
Defined.

Lemma execAll_functionCall_fuel_witness :
  execAll 100 functionCallPattern (lit "f(g(x))") 0
  = execAll 8 functionCallPattern (lit "f(g(x))") 0.
Proof.
  apply (execAll_functionCall_fuel (lit "f(g(x))") 100). vm_compute. lia.
Defined.

(** ** The checks for allocations and assignments *)

Section AllocationFacts.

(** In front of a word that starts at a word boundary there is no word
    character. *)
Lemma boundary_word_start (a b : jstring) (x : char) :
  atWordBoundary (a ++ x :: b) (length a) = true -> isWordChar x = true ->
  notWordBefore a.
Proof.
  intros H Hx. unfold atWordBoundary in H. rewrite isWordAt_app_l, Hx in H.
  unfold notWordBefore.
  destruct (rev a) as [|y ra] eqn:Er; [exact I|].
  assert (Hay : a = rev ra ++ [y]) by (rewrite <- (rev_involutive a), Er; reflexivity).
  rewrite Hay in H. rewrite length_app in H. simpl length in H.
  rewrite Nat.add_1_r in H. rewrite isWordAt_last in H.
  now destruct (isWordChar y).
Qed.

Lemma test_exec (r : regex) (s : jstring) :
  test r s = true -> exists st res, exec r s 0 = Some (st, res).
Proof.
  unfold test. destruct (exec r s 0) as [[st res]|]; [eauto|discriminate].
Qed.

Lemma allocators_word (k : jstring) :
  In k allocators -> exists x t, k = x :: t /\ isWordChar x = true.
Proof.
  intros H. simpl in H.
  decompose [or] H; try contradiction; subst k; eexists; eexists; split; reflexivity.
Qed.

Lemma Lang_allocators (w : jstring) :
  Lang (Group 1 (Alts (L "malloc") [L "calloc"; L "realloc"])) w <-> In w allocators.
Proof.
  change (Lang (Group 1 (Alts (L "malloc") [L "calloc"; L "realloc"])) w)
    with (Lang (Alts (L "malloc") [L "calloc"; L "realloc"]) w).
  rewrite Lang_Alts. unfold L. rewrite !Exists_cons, Exists_nil, !Lang_Str.
  unfold allocators. simpl. intuition auto.
Qed.

(** The pattern of an allocation matches exactly where an allocator name
    starts at a word boundary and is followed, after white space, by an
    opening parenthesis. *)
Lemma allocationPattern_spec (s : jstring) :
  test allocationPattern s = true <->
  exists a k sp b,
    s = a ++ k ++ sp ++ lit "(" ++ b /\ In k allocators /\ notWordBefore a /\
    Forall (fun x => isWhiteSpace x = true) sp.
Proof.
  rewrite test_spec. unfold allocationPattern, allocatorPattern. cbn [Seqs].
  split.
  - intros (i & j & c' & Hi & HM).
    apply Matches_Seq_inv in HM as (j1 & c1 & HA & HT).
    apply Matches_Seq_inv in HA as (j0 & c0 & HW & HG).
    destruct HW as (Hb & -> & ->).
    assert (HGT : Matches s (Seq (Group 1 (Alts (L "malloc") [L "calloc"; L "realloc"]))
                               (Seq (Star Space) (Chr (ch "(")))) i [] j c')
      by (exists j1, c1; split; assumption).
    apply Matches_Lang in HGT; [|reflexivity].
    destruct HGT as (k & w2 & Hw & Hk & (sp & u & -> & Hsp & Hu)).
    apply Lang_allocators in Hk. apply Lang_Space_star in Hsp.
    simpl in Hu. subst u.
    pose proof (substr_decompose s i j) as Hd. rewrite Hw in Hd.
    exists (firstn i s), k, sp, (skipn (j - i) (skipn i s)).
    split; [rewrite Hd at 1; now rewrite <- !app_assoc|].
    split; [assumption|]. split; [|assumption].
    destruct (allocators_word k Hk) as (x & t & -> & Hx).
    apply (boundary_word_start (firstn i s)
             (t ++ sp ++ lit "(" ++ skipn (j - i) (skipn i s)) x); [|assumption].
    assert (Hs' : s = firstn i s ++ x :: (t ++ sp ++ lit "(" ++ skipn (j - i) (skipn i s))).
    { rewrite Hd at 1. rewrite <- !app_assoc. reflexivity. }
    rewrite length_firstn, Nat.min_l by assumption.
    rewrite <- Hs'. exact Hb.
  - intros (a & k & sp & b & -> & Hk & Ha & Hsp).
    assert (Hs : a ++ k ++ sp ++ lit "(" ++ b = a ++ (k ++ sp ++ lit "(") ++ b)
      by now rewrite <- !app_assoc.
    assert (HL : Lang (Seq (Group 1 (Alts (L "malloc") [L "calloc"; L "realloc"]))
                         (Seq (Star Space) (Chr (ch "(")))) (k ++ sp ++ lit "(")).
    { exists k, (sp ++ lit "("). split; [reflexivity|]. split; [now apply Lang_allocators|].
      exists sp, (lit "("). split; [reflexivity|]. split; [|reflexivity].
      now apply Lang_Space_star. }
    destruct (Lang_Matches
                (Seq (Group 1 (Alts (L "malloc") [L "calloc"; L "realloc"]))
                   (Seq (Star Space) (Chr (ch "("))))
                eq_refl _ _ _ _ Hs HL []) as (c' & j1 & c1 & HG & HT).
    exists (length a), (length a + length (k ++ sp ++ lit "(")), c'. split.
    + rewrite !length_app. lia.
    + exists j1, c1. split; [|exact HT].
      exists (length a), []. split; [|exact HG].
      split; [|split; reflexivity].
      destruct (allocators_word k Hk) as (x & t & -> & Hx).
      simpl app. now apply boundary_before.
Qed.

End AllocationFacts.

(** X17: a line gets the reminder to free memory exactly when, in front of
    any line comment, the name of an allocator starts at a word boundary
    and is followed, after white space, by an opening parenthesis; the
    reminder is then the only diagnostic of the check. *)
Theorem memory_allocation_reported (line : jstring) (ln : Z) :
  (exists a k sp b,
     stripComment line = a ++ k ++ sp ++ lit "(" ++ b /\
     In k [lit "malloc"; lit "calloc"; lit "realloc"] /\ notWordBefore a /\
     Forall (fun x => isWhiteSpace x = true) sp)
  <->
  (exists d, checkMemoryAllocation line ln [] = [d] /\ severity d = Information /\
     message d = lit "Remember to free allocated memory to prevent memory leaks").
Proof.
  rewrite <- allocationPattern_spec. unfold checkMemoryAllocation. cbv zeta. split.
  - intros H. rewrite H.
    assert (Ht : test allocatorPattern (stripComment line) = true).
    { apply test_spec in H as (i & j & c' & Hi & HM). apply test_spec.
      unfold allocationPattern in HM. cbn [Seqs] in HM.
      apply Matches_Seq_inv in HM as (j1 & c1 & HA & _). now exists i, j1, c1. }
    apply test_exec in Ht as (st & res & ->).
    eexists. split; [reflexivity|]. split; reflexivity.
  - intros (d & H & _).
    destruct (test allocationPattern (stripComment line)); [reflexivity|discriminate].
Qed.

Section AssignmentFacts.

Lemma Lang_notParen_star_iff (w : jstring) :
  Lang (Star (NSet [One (ch ")")])) w <-> ~ In (ch ")") w.
Proof.
  split; [apply Lang_notParen_star|]. intros H.
  exists (map (fun y => [y]) w). split.
  - clear. induction w as [|y t IH]; simpl; [reflexivity|]. now rewrite <- IH.
  - apply Forall_forall. intros v Hv. apply in_map_iff in Hv as (y & <- & Hy).
    split; [|discriminate]. exists y. split; [reflexivity|].
    unfold class_matches, existsb, citem_matches, char_eqb.
    rewrite orb_false_r. apply N.eqb_neq. intros E. apply H. now rewrite E.
Qed.

Lemma substr_head (s : jstring) (i j : nat) (x : char) (t : jstring) :
  substr s i j = x :: t -> charAt s i = Some x.
Proof.
  unfold substr, charAt. intros H.
  rewrite <- (Nat.add_0_r i), <- nth_error_skipn.
  destruct (skipn i s) as [|y l]; [now rewrite firstn_nil in H|].
  destruct (j - i); [discriminate|]. simpl in H. now injection H as -> _.
Qed.

(** The pattern of an assignment in a condition, read in three parts:
    the text up to the equals sign, the look-ahead, and the rest of the
    parenthesis. *)
Lemma assignmentPattern_parts (s : jstring) (i j : nat) (c c' : captures) :
  Matches s assignmentPattern i c j c' <->
  exists j6 c6,
    Matches s (Seq (L "if") (Seq (Star Space) (Seq (Chr (ch "("))
                 (Seq (Star (NSet [One (ch ")")]))
                    (Seq (NSet [One (ch "="); One (ch "!"); One (ch "<"); One (ch ">")])
                       (Chr (ch "=")))))))
      i c j6 c6 /\
    (forall j1 c1, ~ Matches s (Chr (ch "=")) j6 c6 j1 c1) /\
    Matches s (Seq (Star (NSet [One (ch ")")])) (Chr (ch ")"))) j6 c6 j c'.
Proof.
  unfold assignmentPattern. cbn [Seqs]. split.
  - intros H.
    apply Matches_Seq_inv in H as (j1 & c1 & M1 & H).
    apply Matches_Seq_inv in H as (j2 & c2 & M2 & H).
    apply Matches_Seq_inv in H as (j3 & c3 & M3 & H).
    apply Matches_Seq_inv in H as (j4 & c4 & M4 & H).
    apply Matches_Seq_inv in H as (j5 & c5 & M5 & H).
    apply Matches_Seq_inv in H as (j6 & c6 & M6 & H).
    apply Matches_Seq_inv in H as (j7 & c7 & (Hn & -> & ->) & H).
    exists j6, c6. split; [|split; [exact Hn|exact H]].
    exists j1, c1. split; [exact M1|]. exists j2, c2. split; [exact M2|].
    exists j3, c3. split; [exact M3|]. exists j4, c4. split; [exact M4|].
    exists j5, c5. split; [exact M5|exact M6].
  - intros (j6 & c6 & H & Hn & H2).
    apply Matches_Seq_inv in H as (j1 & c1 & M1 & H).
    apply Matches_Seq_inv in H as (j2 & c2 & M2 & H).
    apply Matches_Seq_inv in H as (j3 & c3 & M3 & H).
    apply Matches_Seq_inv in H as (j4 & c4 & M4 & H).
    apply Matches_Seq_inv in H as (j5 & c5 & M5 & M6).
    exists j1, c1. split; [exact M1|]. exists j2, c2. split; [exact M2|].
    exists j3, c3. split; [exact M3|]. exists j4, c4. split; [exact M4|].
    exists j5, c5. split; [exact M5|]. exists j6, c6. split; [exact M6|].
    exists j6, c6. split; [|exact H2]. split; [exact Hn|]. split; reflexivity.
Qed.

(** The pattern matches exactly where an [if], white space and an
    opening parenthesis are followed, inside the parenthesis, by an equals
    sign that has neither one of [= ! < >] in front of it nor an equals
    sign behind it. *)
Lemma assignmentPattern_spec (s : jstring) :
  test assignmentPattern s = true <->
  exists a sp u c v b,
    s = a ++ lit "if" ++ sp ++ lit "(" ++ u ++ [c] ++ lit "=" ++ v ++ lit ")" ++ b /\
    Forall (fun x => isWhiteSpace x = true) sp /\
    ~ In (ch ")") u /\
    ~ In c [ch "="; ch "!"; ch "<"; ch ">"] /\
    ~ In (ch ")") v /\ (forall v', v <> ch "=" :: v').
Proof.
  rewrite test_spec. split.
  - intros (i & j & c' & Hi & HM).
    apply assignmentPattern_parts in HM as (j6 & c6 & M1 & Hn & M2).
    pose proof (Matches_bounds s _ _ _ _ _ M1) as [B1 _].
    pose proof (Matches_bounds s _ _ _ _ _ M2) as [B2 _].
    apply Matches_Lang in M1; [|reflexivity]. apply Matches_Lang in M2; [|reflexivity].
    pose proof (substr_decompose s i j) as Hd.
    rewrite (substr_split s i j6 j B1 B2) in Hd.
    destruct M2 as (v & w & Hv2 & Hv & Hw). simpl in Hw. subst w.
    apply Lang_notParen_star_iff in Hv.
    destruct M1 as (w1 & r1 & E1 & H1 & M1). apply Lang_Str in H1. subst w1.
    destruct M1 as (sp & r2 & -> & Hsp & M1). apply Lang_Space_star in Hsp.
    destruct M1 as (w3 & r3 & -> & H3 & M1). simpl in H3. subst w3.
    destruct M1 as (u & r4 & -> & Hu & M1). apply Lang_notParen_star_iff in Hu.
    destruct M1 as (w5 & w6 & -> & (c & -> & Hc) & H6). simpl in H6. subst w6.
    exists (firstn i s), sp, u, c, v, (skipn (j - i) (skipn i s)).
    split; [|split; [exact Hsp|split; [exact Hu|split; [|split; [exact Hv|]]]]].
    + rewrite Hd at 1. rewrite E1, Hv2. rewrite <- !app_assoc. reflexivity.
    + intros Hin. unfold class_matches, existsb, citem_matches, char_eqb in Hc.
      bprop Hc. simpl in Hin. intuition congruence.
    + intros v' ->. apply (Hn (S j6) c6).
      exists (ch "="). split; [|repeat split].
      apply (substr_head s j6 j (ch "=") (v' ++ [ch ")"])). exact Hv2.
  - intros (a & sp & u & c & v & b & Hs & Hsp & Hu & Hc & Hv & Hv').
    set (W1 := lit "if" ++ sp ++ lit "(" ++ u ++ [c] ++ lit "=").
    set (W2 := v ++ lit ")").
    assert (Hs1 : s = a ++ W1 ++ (W2 ++ b)).
    { rewrite Hs. unfold W1, W2. rewrite <- !app_assoc. reflexivity. }
    assert (Hs2 : s = (a ++ W1) ++ W2 ++ b) by (rewrite Hs1, <- app_assoc; reflexivity).
    assert (L1 : Lang (Seq (L "if") (Seq (Star Space) (Seq (Chr (ch "("))
                   (Seq (Star (NSet [One (ch ")")]))
                      (Seq (NSet [One (ch "="); One (ch "!"); One (ch "<"); One (ch ">")])
                         (Chr (ch "="))))))) W1).
    { exists (lit "if"), (sp ++ lit "(" ++ u ++ [c] ++ lit "=").
      split; [reflexivity|]. split; [now apply Lang_Str|].
      exists sp, (lit "(" ++ u ++ [c] ++ lit "="). split; [reflexivity|].
      split; [now apply Lang_Space_star|].
      exists (lit "("), (u ++ [c] ++ lit "="). split; [reflexivity|]. split; [reflexivity|].
      exists u, ([c] ++ lit "="). split; [reflexivity|].
      split; [now apply Lang_notParen_star_iff|].
      exists [c], (lit "="). split; [reflexivity|]. split; [|reflexivity].
      exists c. split; [reflexivity|].
      unfold class_matches, existsb, citem_matches, char_eqb.
      destruct (_ || _) eqn:E; [exfalso|reflexivity].
      bprop E. apply Hc. simpl. intuition (auto; discriminate). }
    assert (L2 : Lang (Seq (Star (NSet [One (ch ")")])) (Chr (ch ")"))) W2).
    { exists v, (lit ")"). split; [reflexivity|].
      split; [now apply Lang_notParen_star_iff|reflexivity]. }
    match type of L1 with Lang ?R _ =>
      destruct (Lang_Matches R eq_refl s W1 a (W2 ++ b) Hs1 L1 []) as [c1 M1]
    end.
    match type of L2 with Lang ?R _ =>
      destruct (Lang_Matches R eq_refl s W2 (a ++ W1) b Hs2 L2 c1) as [c2 M2]
    end.
    rewrite length_app in M2.
    exists (length a), (length a + length W1 + length W2), c2. split.
    + rewrite Hs1, !length_app. lia.
    + apply assignmentPattern_parts. exists (length a + length W1), c1.
      split; [exact M1|]. split; [|exact M2].
      intros j1 c1' (x & Hx & Hxe & _). apply char_eqb_eq in Hxe. subst x.
      rewrite Hs2 in Hx. rewrite <- length_app in Hx.
      unfold W2 in Hx. destruct v as [|y v'].
      * simpl app in Hx. rewrite charAt_middle in Hx. discriminate.
      * simpl app in Hx. rewrite charAt_middle in Hx.
        injection Hx as ->. now apply (Hv' v').
Qed.

End AssignmentFacts.

(** The pattern on four conditions: an equals sign directly behind the
    parenthesis is not reported, since a character has to stand between
    them; that character may be a closing parenthesis. *)
Lemma assignment_in_conditional_samples :
  checkAssignmentInConditional (lit "if (a = b)") 0 [] <> [] /\
  checkAssignmentInConditional (lit "if (a == b)") 0 [] = [] /\
  checkAssignmentInConditional (lit "if (=1)") 0 [] = [] /\
  checkAssignmentInConditional (lit "if (a)=b)") 0 [] <> [].
Proof. vm_compute. repeat split; discriminate. Qed.

(** X18: a line gets the warning about an assignment in a condition
    exactly when its text in front of any line comment holds, one behind
    the other: [if]; any white space; an opening parenthesis; a text [u]
    without a closing parenthesis; one character [c] that is none of
    [= ! < >] (it may be a closing parenthesis); an equals sign; a text
    [v] without a closing parenthesis that does not start with an equals
    sign; a closing parenthesis.  The warning is then the only
    diagnostic of the check. *)
Theorem assignment_in_conditional_reported (line : jstring) (ln : Z) :
  (exists a sp u c v b,
     stripComment line
     = a ++ lit "if" ++ sp ++ lit "(" ++ u ++ [c] ++ lit "=" ++ v ++ lit ")" ++ b /\
     Forall (fun x => isWhiteSpace x = true) sp /\
     ~ In (ch ")") u /\
     ~ In c [ch "="; ch "!"; ch "<"; ch ">"] /\
     ~ In (ch ")") v /\ (forall v', v <> ch "=" :: v'))
  <->
  (exists d, checkAssignmentInConditional line ln [] = [d] /\ severity d = Warning /\
     message d
     = lit "Possible assignment instead of comparison in conditional statement").
Proof.
  rewrite <- assignmentPattern_spec. unfold checkAssignmentInConditional. cbv zeta. split.
  - intros H. rewrite H. eexists. split; [reflexivity|]. split; reflexivity.
  - intros (d & H & _).
    destruct (test assignmentPattern (stripComment line)); [reflexivity|discriminate].
Qed.

(** ** Lines without a parenthesis *)

Section InertLines.

Lemma exec_none (r : regex) (s : jstring) (li : nat) :
  (forall i c j c', ~ Matches s r i c j c') -> exec r s li = None.
Proof.
  intros H. destruct (exec r s li) as [[st res]|] eqn:E; [exfalso|reflexivity].
  apply exec_sound in E as [_ HM]. exact (H _ _ _ _ HM).
Qed.

Lemma test_none (r : regex) (s : jstring) :
  (forall i c j c', ~ Matches s r i c j c') -> test r s = false.
Proof. intros H. unfold test. now rewrite exec_none. Qed.

Lemma stripComment_In (line : jstring) (x : char) :
  In x (stripComment line) -> In x line.
Proof.
  unfold stripComment, substring0. cbv zeta.
  destruct (_ =? -1)%Z; [auto|apply In_firstn].
Qed.

Lemma includes_In (s p : jstring) (x : char) :
  includes s p = true -> In x p -> In x s.
Proof.
  intros H Hx. apply includes_spec in H as (a & b & ->).
  apply in_or_app. right. apply in_or_app. now left.
Qed.

(** Every match of the patterns of the passes holds an opening
    parenthesis. *)
Lemma functionCallPattern_paren (s : jstring) (i j : nat) (c c' : captures) :
  Matches s functionCallPattern i c j c' -> In (ch "(") s.
Proof.
  unfold functionCallPattern. cbn [Seqs]. intros H.
  apply Matches_Seq_inv in H as (j1 & c1 & _ & H).
  apply Matches_Seq_inv in H as (j2 & c2 & _ & H).
  apply Matches_Seq_inv in H as (j3 & c3 & _ & H).
  now apply Matches_Chr_In in H.
Qed.

Lemma functionPattern_paren (s : jstring) (i j : nat) (c c' : captures) :
  Matches s functionPattern i c j c' -> In (ch "(") s.
Proof.
  unfold functionPattern. cbn [Seqs]. intros H.
  apply Matches_Seq_inv in H as (j1 & c1 & _ & H).
  apply Matches_Seq_inv in H as (j2 & c2 & _ & H).
  apply Matches_Seq_inv in H as (j3 & c3 & _ & H).
  apply Matches_Seq_inv in H as (j4 & c4 & _ & H).
  apply Matches_Seq_inv in H as (j5 & c5 & _ & H).
  apply Matches_Seq_inv in H as (j6 & c6 & _ & H).
  apply Matches_Seq_inv in H as (j7 & c7 & H & _).
  now apply Matches_Chr_In in H.
Qed.

Lemma mainPattern_paren (s : jstring) (i j : nat) (c c' : captures) :
  Matches s mainPattern i c j c' -> In (ch "(") s.
Proof.
  unfold mainPattern. cbn [Seqs]. intros H.
  apply Matches_Seq_inv in H as (j1 & c1 & _ & H).
  apply Matches_Seq_inv in H as (j2 & c2 & _ & H).
  apply Matches_Seq_inv in H as (j3 & c3 & _ & H).
  apply Matches_Seq_inv in H as (j4 & c4 & _ & H).
  apply Matches_Seq_inv in H as (j5 & c5 & _ & H).
  apply Matches_Seq_inv in H as (j6 & c6 & _ & H).
  now apply Matches_Chr_In in H.
Qed.

Lemma callsIn_inert (line : jstring) :
  ~ In (ch "(") line -> callsIn (stripComment line) = [].
Proof.
  intros H. unfold callsIn. cbn [execAll]. rewrite exec_none; [reflexivity|].
  intros i c j c' HM. apply functionCallPattern_paren in HM.
  now apply stripComment_In in HM.
Qed.

Lemma functionOfLine_inert (line : jstring) :
  ~ In (ch "(") line -> functionOfLine line = [].
Proof.
  intros H. unfold functionOfLine. rewrite exec_none; [reflexivity|].
  intros i c j c' HM. now apply functionPattern_paren in HM.
Qed.

Lemma mainPattern_inert (line : jstring) :
  ~ In (ch "(") line -> test mainPattern line = false.
Proof.
  intros H. apply test_none. intros i c j c' HM. now apply mainPattern_paren in HM.
Qed.

Lemma checkUnsafeFunctions_inert (line : jstring) (ln : Z) :
  ~ In (ch "(") line -> checkUnsafeFunctions line ln [] = [].
Proof.
  intros H. unfold checkUnsafeFunctions. cbv zeta. destruct (_ || _); [reflexivity|].
  rewrite fold_checkUnsafeEntry_app. cbn [app].
  induction UNSAFE_FUNCTIONS as [|[u sf] l IH]; [reflexivity|]. cbn [flat_map].
  rewrite IH, app_nil_r. unfold checkUnsafeEntry.
  destruct (includes line (u ++ lit "(")) eqn:E; [exfalso|reflexivity].
  apply H. apply (includes_In _ _ _ E). apply in_or_app. right. now left.
Qed.

Lemma checkLineAt_inert (lines : list jstring) (i : nat) :
  ~ In (ch "(") (nth i lines []) -> checkLineAt lines [] i = [].
Proof.
  intros H. rewrite checkLineAt_app. cbn [app].
  rewrite (checkUnsafeFunctions_inert _ _ H). cbn [app].
  assert (Hs : ~ In (ch "(") (stripComment (nth i lines [])))
    by (intros Hin; now apply stripComment_In in Hin).
  assert (E2 : checkAssignmentInConditional (nth i lines []) (Z.of_nat i) [] = []).
  { unfold checkAssignmentInConditional. cbv zeta.
    destruct (test assignmentPattern _) eqn:E; [exfalso|reflexivity].
    apply assignmentPattern_spec in E as (a & sp & u & c & v & b & E & _).
    apply Hs. rewrite E. rewrite !in_app_iff. right. right. right. left. now left. }
  assert (E3 : checkMemoryAllocation (nth i lines []) (Z.of_nat i) [] = []).
  { unfold checkMemoryAllocation. cbv zeta.
    destruct (test allocationPattern _) eqn:E; [exfalso|reflexivity].
    apply allocationPattern_spec in E as (a & k & sp & b & E & _).
    apply Hs. rewrite E. rewrite !in_app_iff. right. right. right. left. now left. }
  assert (E4 : checkFopenWithoutNullCheck lines (nth i lines []) i [] = []).
  { unfold checkFopenWithoutNullCheck. cbv zeta.
    destruct (includes _ (lit "fopen(")) eqn:E; [exfalso|reflexivity].
    apply Hs. apply (includes_In _ _ _ E). simpl. tauto. }
  now rewrite E2, E3, E4.
Qed.

Lemma flat_map_nil (A B : Type) (f : A -> list B) (l : list A) :
  (forall x, In x l -> f x = []) -> flat_map f l = [].
Proof.
  induction l as [|x l IH]; intros H; simpl; [reflexivity|].
  rewrite (H x (or_introl eq_refl)), IH; [reflexivity|].
  intros y Hy. apply H. now right.
Qed.

Lemma requireHeaderOf_main (included : list value) :
  requireHeaderOf included [] (lit "main") = [].
Proof. reflexivity. Qed.

Lemma split_In (s l : jstring) (x : char) : In l (split NL s) -> In x l -> In x s.
Proof.
  revert l. induction s as [|c s IH]; intros l Hl Hx; simpl in Hl.
  - destruct Hl as [<-|[]]. destruct Hx.
  - destruct (char_eqb c NL).
    + destruct Hl as [<-|Hl]; [destruct Hx|]. right. now apply (IH l).
    + destruct (split NL s) as [|l0 ls] eqn:E.
      * destruct Hl as [<-|[]]. destruct Hx as [<-|[]]. now left.
      * destruct Hl as [<-|Hl].
        -- destruct Hx as [<-|Hx]; [now left|]. right. apply (IH l0); [now left|assumption].
        -- right. apply (IH l); [now right|assumption].
Qed.

End InertLines.

(** X19: a document without an opening parenthesis is left alone: header
    inference and prototype synthesis issue no edit for it, and it gets no
    diagnostic. *)
Theorem document_without_parenthesis (text : jstring) :
  ~ In (ch "(") text ->
  autoAddRequiredHeaders true text = None /\
  autoGeneratePrototypes false true text = None /\
  runDiagnostics text = [].
Proof.
  intros H.
  assert (Hl : forall l, In l (documentLines text) -> ~ In (ch "(") l).
  { intros l Hl Hin. apply H. exact (split_In text l _ Hl Hin). }
  split; [|split].
  - apply autoAddRequiredHeaders_none. unfold requiredHeaders.
    apply requiredHeadersFrom_none. intros line fname Hline Hf.
    rewrite (callsIn_inert line (Hl line Hline)) in Hf. destruct Hf.
  - unfold autoGeneratePrototypes. cbv zeta. simpl negb. cbv iota.
    destruct (_ =? -1)%Z; [reflexivity|].
    destruct (_ =? -1)%Z; [reflexivity|].
    replace (foundFunctions _ _) with (@nil FoundFunction); [reflexivity|].
    symmetry. unfold foundFunctions. apply flat_map_nil.
    intros l Hin. apply functionOfLine_inert, Hl. now apply In_skipn in Hin.
  - rewrite runDiagnostics_lines. apply flat_map_nil. intros i Hi.
    apply in_seq in Hi. apply checkLineAt_inert. apply Hl. apply nth_In. lia.
Qed.

Lemma document_without_parenthesis_witness :
  let text := lit "#include <stdio.h>" ++ [NL] ++ lit "int x;" in
  autoAddRequiredHeaders true text = None /\
  autoGeneratePrototypes false true text = None /\
  runDiagnostics text = [].
Proof.
  apply document_without_parenthesis. vm_compute. intuition discriminate.
Defined.

(** ** The template of a new file *)

Section TemplateFacts.

Lemma trimEnd_head (x : char) (t : jstring) :
  isWhiteSpace x = false -> trimEnd (x :: t) <> [].
Proof.
  intros Hx. rewrite trimEnd_cons. destruct (trimEnd t); [now rewrite Hx|discriminate].
Qed.

(** A text whose trimmed text is empty holds only white space. *)
Lemma trim_nil_blank (s : jstring) :
  trim s = [] -> Forall (fun x => isWhiteSpace x = true) s.
Proof.
  unfold trim. intros H. destruct (trimStart_decomp s) as (a & Hs & Ha).
  destruct (trimStart s) as [|x t] eqn:E.
  - rewrite app_nil_r in Hs. now rewrite Hs.
  - exfalso. revert H. apply trimEnd_head.
    assert (Hi : trimStart (trimStart s) = trimStart s) by apply trimStart_idem.
    rewrite E in Hi. simpl in Hi. destruct (isWhiteSpace x); [|reflexivity].
    exfalso. assert (Hlen : length (trimStart t) <= length t).
    { clear. induction t as [|c t IH]; simpl; [lia|]. destruct (isWhiteSpace c); simpl; lia. }
    rewrite Hi in Hlen. simpl in Hlen. lia.
Qed.

Lemma blank_trim (l : jstring) :
  Forall (fun x => isWhiteSpace x = true) l -> trim l = [].
Proof.
  intros H. apply trim_blank. apply forallb_forall. now apply Forall_forall.
Qed.

Lemma split_blank (s : jstring) :
  Forall (fun x => isWhiteSpace x = true) s ->
  Forall (Forall (fun x => isWhiteSpace x = true)) (split NL s).
Proof.
  intros H. apply Forall_forall. intros l Hl. apply Forall_forall. intros x Hx.
  rewrite Forall_forall in H. apply H. exact (split_In s l x Hl Hx).
Qed.

(** The lines of two texts put together: the last line of the first
    and the first line of the second become one line. *)
Lemma split_app (a b : jstring) :
  split NL (a ++ b)
  = removelast (split NL a)
    ++ (last (split NL a) [] ++ hd [] (split NL b)) :: tl (split NL b).
Proof.
  induction a as [|c a IH].
  - simpl. pose proof (split_nonempty b). destruct (split NL b); [congruence|reflexivity].
  - simpl app. cbn [split]. rewrite IH.
    pose proof (split_nonempty a) as Hne.
    destruct (split NL a) as [|l ls]; [congruence|].
    destruct (char_eqb c NL).
    + reflexivity.
    + destruct ls as [|l' ls']; reflexivity.
Qed.

(** Text inserted at the start of a document: the lines afterwards are
    the lines of the text followed by the old text. *)
Lemma applyInsertAt_start (text t : jstring) :
  applyInsertAt (documentLines text) 0 0 t = documentLines (t ++ text).
Proof.
  unfold applyInsertAt, documentLines.
  pose proof (split_nonempty text) as Hne.
  pose proof (split_noNL text) as Hno.
  rewrite (split_app t text).
  destruct (split NL text) as [|l0 rest] eqn:E; [congruence|].
  cbn [length Nat.ltb Nat.leb nth firstn skipn app hd tl]. cbv zeta.
  rewrite (split_app t l0). rewrite (split_single l0) by now inversion Hno.
  cbn [hd tl]. now rewrite <- app_assoc.
Qed.

(** The lines of the template followed by a text. *)
Lemma template_lines (text : jstring) :
  documentLines (initialTemplate ++ text)
  = templateLines ++ (lit "}" ++ hd [] (split NL text)) :: tl (split NL text).
Proof.
  unfold documentLines. rewrite split_app.
  assert (E : split NL initialTemplate = templateLines ++ [lit "}"])
    by (vm_compute; reflexivity).
  rewrite E. now rewrite removelast_last, last_last.
Qed.

End TemplateFacts.

Section TemplateStable.

Lemma blank_no_paren (l : jstring) :
  Forall (fun x => isWhiteSpace x = true) l -> ~ In (ch "(") l.
Proof.
  intros H Hin. rewrite Forall_forall in H. apply H in Hin. discriminate.
Qed.

Lemma braceOrBlank_trim (l : jstring) :
  braceOrBlank l -> trim l = [] \/ trim l = lit "}".
Proof.
  intros (a & b & -> & [-> | ->] & Hb).
  - left. now apply blank_trim.
  - right. change (lit "}" ++ b) with ([] ++ lit "}" ++ b).
    rewrite trim_blank_around; [vm_compute; reflexivity|constructor|assumption].
Qed.

Lemma braceOrBlank_inert (l : jstring) :
  braceOrBlank l ->
  ~ In (ch "(") l /\ isIncludeLine l = false /\ shouldAddSemicolon (trimEnd l) = false.
Proof.
  intros H. split; [|split].
  - destruct H as (a & b & -> & Ha & Hb). intros Hin.
    apply in_app_or in Hin as [Hin|Hin]; [|now apply blank_no_paren in Hin].
    destruct Ha as [-> | ->]; [destruct Hin|]. destruct Hin as [Hin|[]]. discriminate.
  - unfold isIncludeLine. destruct (braceOrBlank_trim l H) as [-> | ->]; reflexivity.
  - unfold shouldAddSemicolon. cbv zeta. rewrite trim_trimEnd.
    destruct (braceOrBlank_trim l H) as [-> | ->]; vm_compute; reflexivity.
Qed.

Lemma template_tail (text : jstring) :
  trim text = [] ->
  Forall braceOrBlank ((lit "}" ++ hd [] (split NL text)) :: tl (split NL text)).
Proof.
  intros H. apply trim_nil_blank, split_blank in H.
  destruct (split NL text) as [|l0 rest]; cbn [hd tl].
  - constructor; [|constructor]. exists (lit "}"), []. rewrite app_nil_r. auto.
  - apply Forall_cons_iff in H as [H0 Hr]. constructor.
    + exists (lit "}"), l0. auto.
    + eapply Forall_impl; [|exact Hr]. intros l Hl. exists [], l. auto.
Qed.

Lemma templateLines_calls (line fname : jstring) :
  In line templateLines -> In fname (callsIn (stripComment line)) -> fname = lit "main".
Proof.
  intros Hl Hf. unfold templateLines in Hl. simpl in Hl.
  decompose [or] Hl; try contradiction; subst line; vm_compute in Hf;
    decompose [or] Hf; try contradiction; subst; reflexivity.
Qed.

Lemma templateLines_semicolon :
  Forall (fun l => shouldAddSemicolon (trimEnd l) = false) templateLines.
Proof. repeat (constructor; [vm_compute; reflexivity|]). constructor. Qed.

End TemplateStable.

(** X20: the template of a new file is stable under the passes.  When a
    blank document has been given the template, header inference and
    prototype synthesis issue no edit for the result, it gets no
    diagnostic, and no line of it gets a semicolon. *)
Theorem template_is_stable (text text' : jstring) (ed : Edit) :
  setupNewCFile text = Some ed ->
  documentLines text' = applyEditAt (documentLines text) (Some ed) ->
  autoAddRequiredHeaders true text' = None /\
  autoGeneratePrototypes false true text' = None /\
  runDiagnostics text' = [] /\
  forall lineNum, addSemicolonIfNeeded false true (documentLines text') lineNum = None.
Proof.
  intros Hs Hd. unfold setupNewCFile in Hs.
  destruct (length (trim text) =? 0) eqn:Et; [|discriminate].
  apply Nat.eqb_eq, length_zero_iff_nil in Et.
  apply Some_inj in Hs. subst ed.
  unfold applyEditAt in Hd. cbn [insertLine insertCharacter insertText] in Hd.
  rewrite applyInsertAt_start, template_lines in Hd.
  pose proof (template_tail text Et) as HB.
  set (B := (lit "}" ++ hd [] (split NL text)) :: tl (split NL text)) in *.
  assert (HBi : forall l, In l B -> ~ In (ch "(") l /\ isIncludeLine l = false
                                    /\ shouldAddSemicolon (trimEnd l) = false).
  { intros l Hl. rewrite Forall_forall in HB. now apply braceOrBlank_inert, HB. }
  split; [|split; [|split]].
  - apply autoAddRequiredHeaders_none. rewrite Hd. unfold requiredHeaders.
    apply requiredHeadersFrom_none. intros line fname Hline Hf.
    apply in_app_or in Hline as [Hline|Hline].
    + rewrite (templateLines_calls line fname Hline Hf). reflexivity.
    + rewrite (callsIn_inert line (proj1 (HBi line Hline))) in Hf. destruct Hf.
  - unfold autoGeneratePrototypes. cbv zeta. simpl negb. cbv iota. rewrite Hd.
    assert (E1 : lastIncludeLine (templateLines ++ B) = 1%Z).
    { unfold lastIncludeLine. rewrite lastIncludeLineFrom_app.
      rewrite lastIncludeLineFrom_none; [vm_compute; reflexivity|].
      apply Forall_forall. intros l Hl. now apply HBi. }
    rewrite E1. cbn [Z.eqb].
    assert (E2 : mainLine (templateLines ++ B) 1 = 4%Z).
    { unfold mainLine. change (Z.to_nat (1 + 1)) with 2. unfold templateLines.
      cbn [app skipn mainLineFrom].
      replace (test mainPattern []) with false by (vm_compute; reflexivity).
      replace (test mainPattern (lit "int main() {")) with true by (vm_compute; reflexivity).
      reflexivity. }
    rewrite E2. cbn [Z.eqb].
    replace (foundFunctions (templateLines ++ B) 4) with (@nil FoundFunction);
      [reflexivity|].
    symmetry. unfold foundFunctions. change (Z.to_nat (4 + 1)) with 5.
    unfold templateLines. cbn [app skipn]. apply flat_map_nil.
    intros l [<-|[<-|Hl]].
    + vm_compute. reflexivity.
    + vm_compute. reflexivity.
    + apply functionOfLine_inert. now apply HBi.
  - rewrite runDiagnostics_lines, Hd. apply flat_map_nil. intros i Hi.
    apply in_seq in Hi. destruct Hi as [_ Hi]. cbn [Nat.add] in Hi.
    destruct (Nat.eq_dec i 4) as [->|Hne].
    + rewrite checkLineAt_app.
      change (nth 4 (templateLines ++ B) []) with (lit "int main() {").
      unfold checkFopenWithoutNullCheck. cbv zeta.
      replace (includes (stripComment (lit "int main() {")) (lit "fopen(")) with false
        by (vm_compute; reflexivity).
      vm_compute. reflexivity.
    + apply checkLineAt_inert.
      destruct (Nat.lt_ge_cases i 7) as [Hlt|Hge].
      * destruct i as [|[|[|[|[|[|[|i]]]]]]]; try lia;
          vm_compute; intuition discriminate.
      * rewrite app_nth2 by (simpl; lia). apply HBi. apply nth_In.
        rewrite length_app in Hi. simpl length in Hi at 1. simpl length at 1. lia.
  - intros lineNum. rewrite Hd. unfold addSemicolonIfNeeded. cbv zeta. cbn [orb negb].
    destruct (Z.ltb_spec lineNum 0) as [|H0]; [reflexivity|].
    destruct (Z.leb_spec (Z.of_nat (length (templateLines ++ B))) lineNum) as [|Hlt];
      [reflexivity|]. cbn [orb].
    assert (Hall : Forall (fun l => shouldAddSemicolon (trimEnd l) = false)
                     (templateLines ++ B)).
    { apply Forall_app. split; [apply templateLines_semicolon|].
      apply Forall_forall. intros l Hl. now apply HBi. }
    rewrite Forall_forall in Hall. rewrite Hall; [reflexivity|].
    apply nth_In. lia.
Qed.

Lemma template_is_stable_witness :
  let text' := initialTemplate in
  setupNewCFile [] = Some (mkEdit 0 0 initialTemplate) /\
  autoAddRequiredHeaders true text' = None /\
  autoGeneratePrototypes false true text' = None /\
  runDiagnostics text' = [] /\
  forall lineNum, addSemicolonIfNeeded false true (documentLines text') lineNum = None.
Proof.
  cbv zeta. split; [reflexivity|].
  apply (template_is_stable [] initialTemplate (mkEdit 0 0 initialTemplate)).
  - reflexivity.
  - vm_compute. reflexivity.
Defined.

(** ** Documentation comments *)

Section DocumentationFacts.

Lemma fold_paramDoc (ps : list jstring) (acc : jstring) :
  fold_left paramDoc ps acc
  = acc ++ concat (map (fun t => t ++ [NL])
                     (map (fun param => lit " * @param " ++ lastPiece param
                                        ++ lit " Description of " ++ lastPiece param) ps)).
Proof.
  revert acc. induction ps as [|p ps IH]; intros acc; simpl.
  - now rewrite app_nil_r.
  - rewrite IH. unfold paramDoc. cbv zeta. rewrite <- !app_assoc. reflexivity.
Qed.

(** The text of the comment is the block of its lines. *)
Lemma documentationOf_block (returnType functionName params : jstring) :
  documentationOf returnType functionName params
  = concat (map (fun t => t ++ [NL]) (documentationLines returnType functionName params)).
Proof.
  unfold documentationOf, documentationLines. cbv zeta.
  rewrite fold_paramDoc.
  rewrite !map_app, !concat_app.
  destruct (negb (str_eqb returnType (lit "void"))); simpl;
    rewrite <- ?app_assoc; simpl; rewrite ?app_nil_r; reflexivity.
Qed.

Lemma takeWhile_In (p : char -> bool) (s : jstring) (x : char) :
  In x (takeWhile p s) -> In x s.
Proof.
  induction s as [|c s IH]; simpl; [auto|].
  destruct (p c); [|intros []]. intros [H|H]; [now left|right; auto].
Qed.

Lemma lastPiece_In (param : jstring) (x : char) : In x (lastPiece param) -> In x param.
Proof.
  unfold lastPiece. intros H. apply in_rev in H. apply takeWhile_In in H.
  now apply in_rev in H.
Qed.

Lemma split_sep_In (sep : char) (s l : jstring) (x : char) :
  In l (split sep s) -> In x l -> In x s.
Proof.
  revert l. induction s as [|c s IH]; intros l Hl Hx; simpl in Hl.
  - destruct Hl as [<-|[]]. destruct Hx.
  - destruct (char_eqb c sep).
    + destruct Hl as [<-|Hl]; [destruct Hx|]. right. now apply (IH l).
    + destruct (split sep s) as [|l0 ls] eqn:E.
      * destruct Hl as [<-|[]]. destruct Hx as [<-|[]]. now left.
      * destruct Hl as [<-|Hl].
        -- destruct Hx as [<-|Hx]; [now left|]. right. apply (IH l0); [now left|assumption].
        -- right. apply (IH l); [now right|assumption].
Qed.

Lemma parameterList_In (params p : jstring) (x : char) :
  In p (parameterList params) -> In x p -> In x params.
Proof.
  unfold parameterList. intros Hp Hx. apply filter_In in Hp as [Hp _].
  apply in_map_iff in Hp as (q & <- & Hq). apply trim_In in Hx.
  exact (split_sep_In _ _ _ _ Hq Hx).
Qed.

(** The lines of the comment hold no newline when the name and the
    parameters hold none. *)
Lemma documentationLines_noNL (returnType functionName params : jstring) :
  noNL functionName -> noNL params ->
  Forall noNL (documentationLines returnType functionName params).
Proof.
  intros Hf Hp. unfold documentationLines.
  repeat (apply Forall_app; split).
  - constructor; [vm_compute; intuition discriminate|].
    constructor; [|constructor; [vm_compute; intuition discriminate|constructor]].
    intros Hin. apply in_app_or in Hin as [Hin|Hin]; [|contradiction].
    vm_compute in Hin. intuition discriminate.
  - apply Forall_forall. intros l Hl. apply in_map_iff in Hl as (p & <- & Hl).
    intros Hin. rewrite !in_app_iff in Hin.
    destruct Hin as [Hin|[Hin|[Hin|Hin]]].
    + vm_compute in Hin. intuition discriminate.
    + apply lastPiece_In in Hin. apply Hp. exact (parameterList_In _ _ _ Hl Hin).
    + vm_compute in Hin. intuition discriminate.
    + apply lastPiece_In in Hin. apply Hp. exact (parameterList_In _ _ _ Hl Hin).
  - destruct (negb _); [|constructor].
    constructor; [vm_compute; intuition discriminate|constructor].
  - constructor; [vm_compute; intuition discriminate|constructor].
Qed.

(** Every line of the comment starts a comment for the semicolon
    heuristic and for the check of unsafe functions. *)
Lemma documentationLines_comment (returnType functionName params l : jstring) :
  In l (documentationLines returnType functionName params) ->
  startsWith (trim l) (lit "/*") = true \/ startsWith (trim l) (lit "*") = true.
Proof.
  assert (Hstar : forall t, startsWith (trim (lit " *" ++ t)) (lit "*") = true).
  { intros t. unfold trim. change (trimStart (lit " *" ++ t)) with (ch "*" :: t).
    destruct (trim_head (ch "*") t eq_refl) as [t' Ht]. unfold trim in Ht.
    change (trimStart (ch "*" :: t)) with (ch "*" :: t) in Ht. rewrite Ht. reflexivity. }
  unfold documentationLines. rewrite !in_app_iff. intros [H|[H|[H|H]]].
  - destruct H as [<-|[<-|[<-|[]]]].
    + left. reflexivity.
    + right. exact (Hstar (lit " @brief Brief description of " ++ functionName)).
    + right. reflexivity.
  - right. apply in_map_iff in H as (p & <- & _).
    exact (Hstar (lit " @param " ++ lastPiece p ++ lit " Description of " ++ lastPiece p)).
  - right. destruct (negb _); [|destruct H]. destruct H as [<-|[]]. reflexivity.
  - right. destruct H as [<-|[]]. reflexivity.
Qed.

End DocumentationFacts.

(** X21: when the documentation command inserts a comment, the comment is
    a block of whole lines put in front of the line of the cursor, which
    stays as it is; the block starts with the opening line of a
    documentation comment and ends with its closing line, and no line of
    the block gets a semicolon from the semicolon heuristic. *)
Theorem generateFunctionDoc_block (lines : list jstring) (positionLine : nat) (ed : Edit) :
  Forall noNL lines -> positionLine < length lines ->
  generateFunctionDoc true lines positionLine = DocInsert ed ->
  exists block,
    applyEdit lines (Some ed)
    = firstn positionLine lines ++ block ++ skipn positionLine lines /\
    hd [] block = lit "/**" /\ last block [] = lit " */" /\
    Forall (fun l => noNL l /\ shouldAddSemicolon l = false) block.
Proof.
  intros Hl Hn H. unfold generateFunctionDoc in H. cbv zeta in H. cbn [negb] in H.
  destruct (exec declarationPattern (nth positionLine lines []) 0) as [[st res]|] eqn:E;
    [|discriminate].
  assert (Hed : ed = mkEdit positionLine 0
                       (documentationOf (group (nth positionLine lines []) res 1)
                          (group (nth positionLine lines []) res 2)
                          (group (nth positionLine lines []) res 3)))
    by congruence.
  clear H. subst ed.
  set (line := nth positionLine lines []) in *.
  assert (Hline : noNL line) by (apply nth_noNL; assumption).
  assert (Hg : forall n, noNL (group line res n)).
  { intros n Hin. apply group_In in Hin. contradiction. }
  exists (documentationLines (group line res 1) (group line res 2) (group line res 3)).
  split; [|split; [|split]].
  - unfold applyEdit. cbn [insertLine insertText]. rewrite documentationOf_block.
    apply applyInsert_block; [assumption| |assumption].
    apply documentationLines_noNL; apply Hg.
  - reflexivity.
  - unfold documentationLines. rewrite !app_assoc. apply last_last.
  - apply Forall_forall. intros l Hin. split.
    + pose proof (documentationLines_noNL (group line res 1) _ _ (Hg 2) (Hg 3)) as Hno.
      rewrite Forall_forall in Hno. now apply Hno.
    + apply documentationLines_comment in Hin.
      unfold shouldAddSemicolon. cbv zeta.
      destruct (_ || _); [reflexivity|].
      destruct (test opensBlock _); [reflexivity|].
      destruct (test closingBrace _); [reflexivity|].
      destruct (test preprocessor _); [reflexivity|].
      destruct Hin as [Hin|Hin].
      * rewrite (test_comment _ (lit "/*")); [reflexivity|simpl; auto|assumption].
      * rewrite (test_comment _ (lit "*")); [reflexivity|simpl; auto|assumption].
Qed.

Lemma generateFunctionDoc_block_witness :
  let lines := [lit "#include <stdio.h>"; lit "int add(int a, int b) {"; lit "}"] in
  exists block,
    applyEdit lines (Some (mkEdit 1 0
       (lit "/**" ++ [NL] ++ lit " * @brief Brief description of add" ++ [NL]
        ++ lit " *" ++ [NL] ++ lit " * @param a Description of a" ++ [NL]
        ++ lit " * @param b Description of b" ++ [NL]
        ++ lit " * @return Description of return value" ++ [NL] ++ lit " */" ++ [NL])))
    = firstn 1 lines ++ block ++ skipn 1 lines /\
    hd [] block = lit "/**" /\ last block [] = lit " */" /\
    Forall (fun l => noNL l /\ shouldAddSemicolon l = false) block.
Proof.
  cbv zeta.
  apply (generateFunctionDoc_block
           [lit "#include <stdio.h>"; lit "int add(int a, int b) {"; lit "}"] 1).
  - repeat (constructor; [vm_compute; intuition discriminate|]). constructor.
  - simpl. lia.
  - vm_compute. reflexivity.
Defined.

(** ** Unsafe functions *)

(** X22: every diagnostic of the check of unsafe functions belongs to an
    entry of the table whose name stands on the line directly in front of
    an opening parenthesis, on a line that does not start a comment; it
    is a Warning that marks the first occurrence of the name on the line
    and carries the message of the entry, and no comment marker stands in
    front of that occurrence. *)
Theorem unsafe_warning_sound (line : jstring) (ln : Z) (d : Diagnostic) :
  In d (checkUnsafeFunctions line ln []) ->
  exists u sf pre post,
    In (u, sf) UNSAFE_FUNCTIONS /\
    includes line (u ++ lit "(") = true /\
    line = pre ++ u ++ post /\ includes pre (lit "//") = false /\
    (forall pre' post', line = pre' ++ u ++ post' -> length pre <= length pre') /\
    startsWith (trim line) (lit "//") = false /\
    d = mkDiagnostic
          (mkRange ln (Z.of_nat (length pre)) ln (Z.of_nat (length pre + length u)))
          (unsafeMessage u sf) Warning.
Proof.
  unfold checkUnsafeFunctions. cbv zeta.
  destruct (startsWith (trim line) (lit "//")) eqn:E1; [contradiction|].
  destruct (_ || _) eqn:E2; [contradiction|]. clear E2.
  rewrite fold_checkUnsafeEntry_app, app_nil_l, in_flat_map.
  intros ([u sf] & Hu & H). unfold checkUnsafeEntry in H.
  destruct (includes line (u ++ lit "(")) eqn:E; [|contradiction].
  destruct (negb (indexOf line (lit "//") =? -1)%Z
            && (indexOf line u >? indexOf line (lit "//"))%Z) eqn:Ec; [contradiction|].
  destruct H as [<-|[]].
  destruct (indexOf_found line u (includes_app_l _ _ _ E)) as (pre & post & Hl & Hi & Hmin).
  exists u, sf, pre, post.
  split; [assumption|]. split; [assumption|]. split; [assumption|].
  split; [|split; [assumption|split; [reflexivity|]]].
  - destruct (includes pre (lit "//")) eqn:Ep; [exfalso|reflexivity].
    apply includes_spec in Ep as (a & b & Hp).
    assert (Hc : includes line (lit "//") = true).
    { apply includes_spec. exists a, (b ++ u ++ post). rewrite Hl, Hp.
      now rewrite <- !app_assoc. }
    destruct (indexOf_found line (lit "//") Hc) as (a0 & b0 & _ & Hi0 & Hmin0).
    specialize (Hmin0 a (b ++ u ++ post)).
    assert (length a0 <= length a).
    { apply Hmin0. rewrite Hl, Hp. now rewrite <- !app_assoc. }
    apply andb_false_iff in Ec. rewrite Hi, Hi0 in Ec.
    assert (Hlen : length pre = length a + 2 + length b)
      by (rewrite Hp, !length_app; simpl; lia).
    destruct Ec as [Ec|Ec].
    + apply negb_false_iff, Z.eqb_eq in Ec. lia.
    + rewrite Z.gtb_ltb in Ec. apply Z.ltb_ge in Ec. lia.
  - rewrite Hi. unfold len. rewrite Nat2Z.inj_add. reflexivity.
Qed.

Lemma unsafe_warning_sound_witness :
  let line := lit "  gets(buf);" in
  let d := mkDiagnostic (mkRange 3 2 3 6) (unsafeMessage (lit "gets") (lit "fgets")) Warning in
  exists u sf pre post,
    In (u, sf) UNSAFE_FUNCTIONS /\
    includes line (u ++ lit "(") = true /\
    line = pre ++ u ++ post /\ includes pre (lit "//") = false /\
    (forall pre' post', line = pre' ++ u ++ post' -> length pre <= length pre') /\
    startsWith (trim line) (lit "//") = false /\
    d = mkDiagnostic
          (mkRange 3 (Z.of_nat (length pre)) 3 (Z.of_nat (length pre + length u)))
          (unsafeMessage u sf) Warning.
Proof.
  cbv zeta.
  apply (unsafe_warning_sound (lit "  gets(buf);") 3
           (mkDiagnostic (mkRange 3 2 3 6) (unsafeMessage (lit "gets") (lit "fgets")) Warning)).
  vm_compute. left. reflexivity.
Defined.

(** ** The handler of document changes *)

Section ChangeFacts.

Lemma length_substr (s : jstring) (i j : nat) : length (substr s i j) <= length s - i.
Proof. unfold substr. rewrite length_firstn, length_skipn. lia. Qed.

(** A match of the pattern of a typed call holds at least two
    characters. *)
Lemma callTypedPattern_length (s : jstring) :
  test callTypedPattern s = true -> 2 <= length s.
Proof.
  intros H. apply test_spec in H as (i & j & c' & Hi & HM).
  apply Matches_Lang in HM; [|reflexivity].
  pose proof (length_substr s i j) as Hlen.
  unfold callTypedPattern in HM. cbn [Seqs] in HM.
  destruct HM as (w1 & r1 & E & (x1 & x2 & -> & (x & -> & _) & _) & (sp & r2 & -> & _ & Hp)).
  simpl in Hp. subst r2. rewrite E in Hlen. rewrite !length_app in Hlen.
  simpl in Hlen. lia.
Qed.

(** Where the scan of header inference finds a call, the pattern of the
    change handler matches. *)
Lemma functionCall_typed (s : jstring) :
  test functionCallPattern s = true -> test callTypedPattern s = true.
Proof.
  intros H. apply test_spec in H as (i & j & c' & Hi & HM). apply test_spec.
  unfold functionCallPattern in HM. cbn [Seqs] in HM.
  apply Matches_Seq_inv in HM as (j0 & c0 & (_ & -> & ->) & HM).
  apply Matches_Lang in HM; [|reflexivity].
  pose proof (substr_decompose s i j) as Hd.
  assert (HL : Lang callTypedPattern (substr s i j)).
  { destruct HM as (w1 & r1 & -> & (y1 & y2 & -> & (x & -> & Hx) & Hw) & Hr).
    exists ([x] ++ y2), r1. split; [reflexivity|]. split; [|exact Hr].
    exists [x], y2. split; [reflexivity|]. split; [|exact Hw].
    exists x. split; [reflexivity|].
    apply identStart_word in Hx. unfold class_matches. simpl. now rewrite Hx. }
  destruct (Lang_Matches callTypedPattern eq_refl _ _ _ _ Hd HL []) as [c1 M].
  exists (length (firstn i s)), (length (firstn i s) + length (substr s i j)), c1.
  split; [rewrite length_firstn; lia|exact M].
Qed.

Lemma callsIn_test (s : jstring) :
  callsIn s <> [] -> test functionCallPattern s = true.
Proof.
  unfold callsIn, test. cbn [execAll].
  destruct (exec functionCallPattern s 0) as [[st res]|]; [reflexivity|].
  intros H. now contradiction H.
Qed.

End ChangeFacts.

(** X23: a change that types a single character never asks for header
    inference, and it asks for the semicolon pass exactly when the
    character is a newline. *)
Theorem single_character_change (c : char) (line : nat) :
  requestsOfChange (mkChange [c] line)
  = if char_eqb c NL then [SemicolonFor line] else [].
Proof.
  unfold requestsOfChange. cbn [changeText changeStartLine].
  destruct (test callTypedPattern [c]) eqn:E.
  - apply callTypedPattern_length in E. simpl in E. lia.
  - rewrite app_nil_r. cbn [includes startsWith]. rewrite andb_true_r.
    unfold char_eqb. rewrite N.eqb_sym.
    destruct (c =? NL)%N; reflexivity.
Qed.

(** X24: a change whose text holds a call that header inference would
    find (an identifier at a word boundary, white space, an opening
    parenthesis) asks for header inference. *)
Theorem typed_call_requests_headers (contentChanges : list Change) (change : Change) :
  In change contentChanges ->
  callsIn (changeText change) <> [] ->
  In HeadersNow (onDidChangeTextDocument true false contentChanges).
Proof.
  intros Hin Hcalls. unfold onDidChangeTextDocument. cbn [negb orb].
  apply in_or_app. left. apply in_flat_map. exists change. split; [assumption|].
  unfold requestsOfChange. apply in_or_app. right.
  rewrite (functionCall_typed _ (callsIn_test _ Hcalls)). now left.
Qed.

Lemma typed_call_requests_headers_witness :
  In HeadersNow
    (onDidChangeTextDocument true false [mkChange (lit "printf(x);") 3]).
Proof.
  apply (typed_call_requests_headers [mkChange (lit "printf(x);") 3]
           (mkChange (lit "printf(x);") 3)).
  - now left.
  - vm_compute. discriminate.
Defined.

(** ** The lines that the passes insert *)

Section InsertedLines.

Lemma shouldAddSemicolon_includeDirective (v : value) :
  shouldAddSemicolon (includeDirective v) = false.
Proof.
  unfold shouldAddSemicolon. cbv zeta.
  destruct (_ || _); [reflexivity|].
  destruct (test opensBlock _); [reflexivity|].
  destruct (test closingBrace _); [reflexivity|].
  rewrite test_preprocessor; [reflexivity|].
  unfold includeDirective.
  change (lit "#include <" ++ toString v ++ lit ">")
    with (ch "#" :: (lit "include <" ++ toString v ++ lit ">")).
  destruct (trim_head (ch "#") (lit "include <" ++ toString v ++ lit ">") eq_refl)
    as [t' ->].
  reflexivity.
Qed.

Lemma shouldAddSemicolon_prototype (p : jstring) :
  endsWith p (lit ";") = true -> shouldAddSemicolon p = false.
Proof.
  intros H. apply endsWith_spec in H as [l ->].
  unfold shouldAddSemicolon. cbv zeta. rewrite trim_semicolon.
  now rewrite orb_true_r.
Qed.

Lemma shouldAddSemicolon_empty : shouldAddSemicolon [] = false.
Proof. reflexivity. Qed.

End InsertedLines.

(** X25: no line of the text that header inference or prototype synthesis
    inserts gets a semicolon from the semicolon heuristic: include
    directives are preprocessor lines, prototypes end in a semicolon, and
    the other lines are empty. *)
Theorem inserted_lines_get_no_semicolon (text : jstring) (ed : Edit) :
  autoAddRequiredHeaders true text = Some ed \/
  autoGeneratePrototypes false true text = Some ed ->
  Forall (fun l => shouldAddSemicolon l = false) (split NL (insertText ed)).
Proof.
  intros [H|H].
  - unfold autoAddRequiredHeaders in H. cbv zeta in H. simpl negb in H. cbv iota in H.
    set (required := requiredHeaders (documentLines text)) in *.
    destruct (length required =? 0) eqn:E; [discriminate|].
    apply Some_inj in H. subst ed. cbn [insertText].
    assert (Hperm := sort_Permutation required).
    assert (Hne : sort required <> []).
    { intros E'. rewrite E' in Hperm. apply Permutation_nil in Hperm.
      rewrite Hperm in E. discriminate. }
    rewrite (headerText_block _ Hne).
    rewrite <- (app_nil_r (concat _)). rewrite split_block.
    + apply Forall_app. split; [|constructor; [reflexivity|constructor]].
      apply Forall_forall. intros l Hl. apply in_map_iff in Hl as (v & <- & _).
      apply shouldAddSemicolon_includeDirective.
    + apply Forall_forall. intros d Hd. apply in_map_iff in Hd as (v & <- & Hv).
      apply includeDirective_noNL. apply (Permutation_in _ Hperm) in Hv.
      apply requiredHeadersFrom_sound in Hv as (l & f & _ & _ & Hget & _).
      now apply get_noNL in Hget.
    + intros [].
  - destruct (autoGeneratePrototypes_edit text ed H) as (k & n & Hk & Hn & Hkn & Hmiss & _).
    cbv zeta in Hmiss.
    unfold autoGeneratePrototypes in H. cbv zeta in H. simpl negb in H. cbv iota in H.
    rewrite Hk in H.
    destruct (Z.eqb_spec (Z.of_nat k) (-1)) as [|_]; [lia|].
    rewrite Hn in H.
    destruct (Z.eqb_spec (Z.of_nat n) (-1)) as [|_]; [lia|].
    destruct (length _ =? 0); [discriminate|].
    destruct (0 <? _); [|discriminate].
    apply Some_inj in H. subst ed. cbn [insertText].
    set (missing := missingPrototypes _ _) in *.
    rewrite (prototypesText_block missing Hmiss).
    assert (Hp : forall p, In p (map prototype missing) ->
                   noNL p /\ endsWith p (lit ";") = true).
    { intros p Hp. apply in_map_iff in Hp as (f & <- & Hf).
      apply missingPrototypes_In in Hf.
      exact (foundFunctions_prototype _ _ f (documentLines_noNL text) Hf). }
    rewrite <- (app_nil_r (concat _)). rewrite split_block.
    + apply Forall_app. split; [|constructor; [reflexivity|constructor]].
      constructor; [reflexivity|].
      apply Forall_forall. intros p Hin. apply shouldAddSemicolon_prototype.
      now apply Hp.
    + constructor; [intros []|]. apply Forall_forall. intros p Hin. now apply Hp.
    + intros [].
Qed.

Lemma inserted_lines_get_no_semicolon_witness :
  let text := lit "#include <stdio.h>" ++ [NL] ++ lit "int main() {" ++ [NL] ++ lit "}"
              ++ [NL] ++ lit "int add(int a, int b) {" ++ [NL] ++ lit "}" in
  Forall (fun l => shouldAddSemicolon l = false)
    [ []; lit "int add(int a, int b);"; [] ].
Proof.
  cbv zeta.
  refine (inserted_lines_get_no_semicolon
            (lit "#include <stdio.h>" ++ [NL] ++ lit "int main() {" ++ [NL] ++ lit "}"
             ++ [NL] ++ lit "int add(int a, int b) {" ++ [NL] ++ lit "}")
            (mkEdit 1 0 ([NL] ++ lit "int add(int a, int b);" ++ [NL])) _).
  right. vm_compute. reflexivity.
Defined.
